(** * Mulebuy Manager: a shallow embedding of [src/App.jsx]

    The development follows the layout of the source file: constants,
    utilities ([parseShopUrl], [toMulebuy]), storage and migration
    ([loadJSON], [saveJSON], [migrateIfNeeded]), the operations of the
    [App] component ([handleConvert], [bulkMove], [bulkAddTag]), the
    domain helper [bySort] and the export/import code of the settings
    section, followed by the other operations of the file: the view
    ([allTags], [filtered]), the selection, the handlers of the cards, of
    the drawer and of the tag editor, and the helpers [looksLikeImageUrl]
    and [currency].  Functions of the JavaScript platform that the program calls
    ([new URL], [URLSearchParams], [localeCompare], [crypto.randomUUID],
    [Date], [localStorage.setItem]) are variables of a section. *)

From Stdlib Require Import QArith.
From stdpp Require Import gmap list strings pretty sorting.

Local Open Scope N_scope.

(** ** JavaScript strings

    A string is its sequence of UTF-16 code units. *)

Definition jsstring := list N.

Definition code (c : Ascii.ascii) : N := Ascii.N_of_ascii c.

Fixpoint lit (s : String.string) : jsstring :=
  match s with
  | String.EmptyString => []
  | String.String c r => code c :: lit r
  end.
Arguments lit s%_string : simpl never.

(** [WhiteSpace] and [LineTerminator] of ECMA-262, the code units that
    [String.prototype.trim] strips. *)
Definition is_white (c : N) : bool :=
  (c =? 9) || (c =? 10) || (c =? 11) || (c =? 12) || (c =? 13) || (c =? 32)
  || (c =? 160) || (c =? 5760) || ((8192 <=? c) && (c <=? 8202))
  || (c =? 8232) || (c =? 8233) || (c =? 8239) || (c =? 8287)
  || (c =? 12288) || (c =? 65279).

Fixpoint trimStart (s : jsstring) : jsstring :=
  match s with
  | [] => []
  | c :: r => if is_white c then trimStart r else s
  end.

Definition trimEnd (s : jsstring) : jsstring := reverse (trimStart (reverse s)).

Definition trim (s : jsstring) : jsstring := trimEnd (trimStart s).

Fixpoint startsWith (s p : jsstring) {struct p} : bool :=
  match p, s with
  | [], _ => true
  | _ :: _, [] => false
  | a :: p', b :: s' => (a =? b) && startsWith s' p'
  end.

(** [s.includes(p)]: [p] occurs in [s] at some position. *)
Fixpoint includes (s p : jsstring) : bool :=
  startsWith s p ||
  match s with
  | [] => false
  | _ :: s' => includes s' p
  end.

(** Truthiness of a string: the empty string is the only falsy one. *)
Definition truthy_string (s : jsstring) : bool :=
  match s with [] => false | _ => true end.

(** ** Numbers

    A Number is NaN, an infinity, or a finite value.  Finite values are
    kept exact (as rationals): rounding to binary64 and the sign of zero
    are not represented. *)

Inductive number :=
  | NaN
  | PosInf
  | NegInf
  | Fin (q : Q).

Definition neg (x : number) : number :=
  match x with
  | NaN => NaN
  | PosInf => NegInf
  | NegInf => PosInf
  | Fin q => Fin (- q)
  end.

(** [x - y] on Numbers. *)
Definition sub (x y : number) : number :=
  match x, y with
  | NaN, _ | _, NaN => NaN
  | PosInf, PosInf | NegInf, NegInf => NaN
  | PosInf, _ | _, NegInf => PosInf
  | NegInf, _ | _, PosInf => NegInf
  | Fin a, Fin b => Fin (a - b)
  end.

(** The sign of a Number; [None] for NaN. *)
Definition sign (x : number) : option comparison :=
  match x with
  | NaN => None
  | PosInf => Some Gt
  | NegInf => Some Lt
  | Fin q => Some (q ?= 0)%Q
  end.

(** *** [StringToNumber] (what [Number(s)] computes for a string) *)

Definition digit_of (base c : N) : option N :=
  let d :=
    if (48 <=? c) && (c <=? 57) then Some (c - 48)
    else if (97 <=? c) && (c <=? 102) then Some (c - 87)
    else if (65 <=? c) && (c <=? 70) then Some (c - 55)
    else None in
  match d with
  | Some n => if n <? base then Some n else None
  | None => None
  end.

(** The longest prefix of digits of [s], and what follows it. *)
Fixpoint digits (base : N) (s : jsstring) : list N * jsstring :=
  match s with
  | [] => ([], [])
  | c :: r =>
      match digit_of base c with
      | Some d => let '(ds, rest) := digits base r in (d :: ds, rest)
      | None => ([], s)
      end
  end.

Definition digits_value (base : N) (ds : list N) : N :=
  fold_left (fun acc d => acc * base + d) ds 0.

Definition is_nil {A} (l : list A) : bool :=
  match l with [] => true | _ => false end.

(** [ExponentPart]: [e] or [E], an optional sign, at least one digit.
    Returns the exponent and the rest; [None] when an exponent starts but is
    malformed. Without exponent the result is 0 and the input. *)
Definition exponent_part (s : jsstring) : option (Z * jsstring) :=
  match s with
  | c :: r =>
      if (c =? 101) || (c =? 69) then
        let '(sgn, r') :=
          match r with
          | 43 :: t => (1%Z, t)
          | 45 :: t => ((-1)%Z, t)
          | _ => (1%Z, r)
          end in
        let '(ds, rest) := digits 10 r' in
        if is_nil ds then None
        else Some ((sgn * Z.of_N (digits_value 10 ds))%Z, rest)
      else Some (0%Z, s)
  | [] => Some (0%Z, [])
  end.

(** [StrUnsignedDecimalLiteral], the word [Infinity] apart. *)
Definition unsigned_decimal (s : jsstring) : option Q :=
  let '(ip, r1) := digits 10 s in
  let '(fp, r2) :=
    match r1 with
    | 46 :: t => digits 10 t
    | _ => ([], r1)
    end in
  if is_nil ip && is_nil fp then None
  else
    match exponent_part r2 with
    | Some (e, []) =>
        let m := Z.of_N (digits_value 10 (ip ++ fp)) in
        Some (inject_Z m * Qpower (inject_Z 10) (e - Z.of_nat (length fp)))%Q
    | _ => None
    end.

Definition non_decimal (s : jsstring) : option Q :=
  match s with
  | 48 :: p :: r =>
      let base : option N :=
        if (p =? 120) || (p =? 88) then Some 16
        else if (p =? 111) || (p =? 79) then Some 8
        else if (p =? 98) || (p =? 66) then Some 2
        else None in
      match base with
      | Some b =>
          match digits b r with
          | ([], _) => None
          | (ds, []) => Some (inject_Z (Z.of_N (digits_value b ds)))
          | _ => None
          end
      | None => None
      end
  | _ => None
  end.

Definition unsigned_literal (s : jsstring) : number :=
  if decide (s = lit "Infinity") then PosInf
  else match unsigned_decimal s with
       | Some q => Fin q
       | None => NaN
       end.

Definition StringToNumber (s : jsstring) : number :=
  match trim s with
  | [] => Fin 0
  | 43 :: r => unsigned_literal r
  | 45 :: r => neg (unsigned_literal r)
  | t =>
      match non_decimal t with
      | Some q => Fin q
      | None => unsigned_literal t
      end
  end.

(** How [Array.prototype.sort] reads the Number its comparator returns
    (ECMA-262, CompareArrayElements): NaN counts as +0. *)
Definition SortCompare (v : number) : comparison :=
  match sign v with
  | Some c => c
  | None => Eq
  end.

(** ** Values

    The values that [JSON.parse] builds and the program passes around.  An
    object is the finite map of its own properties; [undefined] is the [None]
    of [option value], and a property whose value is [undefined] is not
    entered in the map (the program never asks whether a key exists, and
    [JSON.stringify] leaves such properties out). *)

Local Unset Elimination Schemes.
Inductive value :=
  | VNull
  | VBool (b : bool)
  | VNum (q : Q)
  | VStr (s : jsstring)
  | VArr (l : list value)
  | VObj (o : gmap jsstring value).
Local Set Elimination Schemes.

Definition truthy (v : value) : bool :=
  match v with
  | VNull => false
  | VBool b => b
  | VNum q => negb (Qeq_bool q 0)
  | VStr s => truthy_string s
  | VArr _ | VObj _ => true
  end.

Definition truthy_opt (v : option value) : bool :=
  match v with Some v => truthy v | None => false end.

(** *** Exceptions *)

Inductive exn :=
  | TypeError
  | SyntaxError
  | Error (message : jsstring).

Inductive result (A : Type) :=
  | Ok (a : A)
  | Throw (e : exn).
Arguments Ok {A} a.
Arguments Throw {A} e.

#[global] Instance result_ret : MRet result := @Ok.
#[global] Instance result_bind : MBind result :=
  fun A B f m => match m with Ok a => f a | Throw e => Throw e end.

(** [v.k] for the property names this program reads ([products],
    [settings], [uid], [created_at], [shop_type], [id], [ref], [mulebuy_url],
    [title], [notes], [tags], [qc_links], [images]): none of them is [length],
    an index or a member of a built-in prototype, so only objects have
    them; reading a property of [null] throws. *)
Definition Get (v : value) (k : jsstring) : result (option value) :=
  match v with
  | VNull => Throw TypeError
  | VObj o => Ok (o !! k)
  | _ => Ok None
  end.

(** The object an object literal builds from its properties in order;
    a later property of the same name replaces an earlier one. *)
Definition object_of (fields : list (jsstring * option value)) : gmap jsstring value :=
  fold_left (fun o kv => match kv.2 with
                         | Some v => <[kv.1 := v]> o
                         | None => o
                         end) fields ∅.

Definition index_key (i : nat) : jsstring := lit (pretty i).

(** The own enumerable properties that [{...v}] copies. *)
Definition spread (v : option value) : gmap jsstring value :=
  match v with
  | Some (VObj o) => o
  | Some (VArr l) => list_to_map (imap (fun i x => (index_key i, x)) l)
  | Some (VStr s) => list_to_map (imap (fun i c => (index_key i, VStr [c])) s)
  | _ => ∅
  end.

(** *** JSON texts

    A text is represented by the value it denotes when it is a JSON text,
    so that [JSON.parse (JSON.stringify v)] is [v]; texts that differ only
    in layout are not told apart.  Any other text makes [JSON.parse]
    throw. *)
Inductive text :=
  | JSON_text (v : value)
  | other_text (s : jsstring).

Definition JSON_stringify (v : value) : text := JSON_text v.

(** The argument is what [localStorage.getItem] returned: [None] is
    [null], which [JSON.parse] reads as the text [null]. *)
Definition JSON_parse (t : option text) : result value :=
  match t with
  | None => Ok VNull
  | Some (JSON_text v) => Ok v
  | Some (other_text _) => Throw SyntaxError
  end.

(** ** Types and constants *)

Definition SCHEMA_VERSION : Q := 2.

Module LS.
Definition products := lit "mulebuy.products.v2".
Definition settings := lit "mulebuy.settings.v2".
Definition history := lit "mulebuy.history.v2".
Definition legacySaved := lit "mulebuy.saved.v1".
Definition legacyHistory := lit "mulebuy.history.v1".
End LS.

Definition LISTS : list jsstring :=
  [lit "Wishlist"; lit "To Buy"; lit "Ordered"; lit "Received"; lit "Archived"].

Module DEFAULT_SETTINGS.
Definition defaultRef := lit "200084174".
Definition defaultList := lit "Wishlist".
Definition compactCards := false.
Definition object : value :=
  VObj (object_of [(lit "defaultRef", Some (VStr defaultRef));
                   (lit "defaultList", Some (VStr defaultList));
                   (lit "compactCards", Some (VBool compactCards))]).
End DEFAULT_SETTINGS.

Record URL := { hostname : jsstring; search : jsstring }.

Module Parsed.
Record t := mk { shop_type : jsstring; id : jsstring }.
End Parsed.

(** The messages of the errors [parseShopUrl] throws. *)
Module Msg.
Definition URL_manquante := lit "URL manquante.".
Definition URL_invalide := lit "URL invalide.".
Definition itemID_manquant := lit "itemID manquant pour Weidian.".
Definition id_manquant := lit "id manquant pour Taobao.".
Definition Domaine_non_supporte :=
  lit "Domaine non support" ++ [233] ++ lit " (weidian.com ou taobao.com).".
End Msg.

Section Utils.

(** [new URL(s)]: [None] when the constructor throws. *)
Variable new_URL : jsstring -> option URL.
(** [new URLSearchParams(search)]: the name-value pairs, in order. *)
Variable new_URLSearchParams : jsstring -> list (jsstring * jsstring).
(** [Number.prototype.toString] on a finite value. *)
Variable Number_toString : Q -> jsstring.

Definition URLSearchParams_get (q : list (jsstring * jsstring)) (name : jsstring)
  : option jsstring :=
  snd <$> List.find (fun kv => bool_decide (kv.1 = name)) q.

Definition parseShopUrl (raw : jsstring) : result Parsed.t :=
  let s := trim raw in
  if negb (truthy_string s) then Throw (Error Msg.URL_manquante)
  else
    match new_URL s with
    | None => Throw (Error Msg.URL_invalide)
    | Some url =>
        let host := hostname url in
        let q := new_URLSearchParams (search url) in
        if includes host (lit "weidian.com") then
          match URLSearchParams_get q (lit "itemID") with
          | Some itemID =>
              if truthy_string itemID
              then Ok (Parsed.mk (lit "weidian") itemID)
              else Throw (Error Msg.itemID_manquant)
          | None => Throw (Error Msg.itemID_manquant)
          end
        else if includes host (lit "taobao.com") then
          match URLSearchParams_get q (lit "id") with
          | Some id =>
              if truthy_string id
              then Ok (Parsed.mk (lit "taobao") id)
              else Throw (Error Msg.id_manquant)
          | None => Throw (Error Msg.id_manquant)
          end
        else Throw (Error Msg.Domaine_non_supporte)
    end.

(** [ToString], as a template literal applies it to a substitution.  An
    array joins the strings of its elements with a comma, [null] giving
    the empty string; an object without a property [toString] of its own
    prints as [[object Object]], and one with such a property (never a
    function in a JSON value) cannot be converted. *)
Fixpoint ToString_value (v : value) : result jsstring :=
  match v with
  | VNull => Ok (lit "null")
  | VBool true => Ok (lit "true")
  | VBool false => Ok (lit "false")
  | VNum q => Ok (Number_toString q)
  | VStr s => Ok s
  | VArr l =>
      (fix join (l : list value) : result jsstring :=
         match l with
         | [] => Ok []
         | x :: r =>
             a ← match x with VNull => Ok [] | _ => ToString_value x end;
             match r with
             | [] => Ok a
             | _ => b ← join r; Ok (a ++ lit "," ++ b)
             end
         end) l
  | VObj o =>
      match o !! lit "toString" with
      | Some _ => Throw TypeError
      | None => Ok (lit "[object Object]")
      end
  end.

Definition ToString (v : option value) : result jsstring :=
  match v with
  | None => Ok (lit "undefined")
  | Some v => ToString_value v
  end.

(** [toMulebuy({ shop_type, id, ref })].  [(ref || default).trim()] calls
    [trim] on [ref] when [ref] is truthy: that throws unless [ref] is a
    string. *)
Definition toMulebuy (shop_type id ref : option value) : result jsstring :=
  r ← (if truthy_opt ref then
         match ref with
         | Some (VStr s) => Ok (trim s)
         | _ => Throw TypeError
         end
       else Ok (trim DEFAULT_SETTINGS.defaultRef));
  a ← ToString shop_type;
  b ← ToString id;
  Ok (lit "https://mulebuy.com/product/?shop_type=" ++ a
      ++ lit "&id=" ++ b ++ lit "&ref=" ++ r).

End Utils.

(** ** Storage and migration *)

(** What the program reads from its surroundings besides the store: how
    many times [uid()] and [new Date()] have been called so far. *)
Record world := World {
  localStorage : gmap jsstring text;
  uid_calls : nat;
  date_calls : nat;
}.

(** A computation that reads and writes the world and may throw. *)
Definition M (A : Type) : Type := world -> result A * world.

#[global] Instance M_ret : MRet M := fun A a w => (Ok a, w).
#[global] Instance M_bind : MBind M :=
  fun A B f m w =>
    match m w with
    | (Ok a, w') => f a w'
    | (Throw e, w') => (Throw e, w')
    end.

#[global] Instance M_fmap : FMap M :=
  fun A B f m w =>
    match m w with
    | (Ok a, w') => (Ok (f a), w')
    | (Throw e, w') => (Throw e, w')
    end.

Definition lift {A} (r : result A) : M A := fun w => (r, w).

(** What [migrateIfNeeded] returns. *)
Module Boot.
Record t := mk { products : value; settings : value; history : value }.
End Boot.

Section Storage.

Variable Number_toString : Q -> jsstring.
(** The string that the [n]-th call of [uid()] returns. *)
Variable uid_at : nat -> jsstring.
(** The string that [new Date().toISOString()] returns at its [n]-th call. *)
Variable toISOString_at : nat -> jsstring.
(** [localStorage.setItem]: the new store, or [None] when it throws (a
    full or unavailable store). *)
Variable setItem : gmap jsstring text -> jsstring -> text -> option (gmap jsstring text).

Definition uid : M jsstring :=
  fun w => (Ok (uid_at (uid_calls w)),
            World (localStorage w) (S (uid_calls w)) (date_calls w)).

Definition Date_toISOString : M jsstring :=
  fun w => (Ok (toISOString_at (date_calls w)),
            World (localStorage w) (uid_calls w) (S (date_calls w))).

(** [v ?? fallback] for a value [v] that is never [undefined]. *)
Definition nullish (v fallback : value) : value :=
  match v with VNull => fallback | _ => v end.

Definition loadJSON (key : jsstring) (fallback : value) : M value :=
  fun w =>
    match JSON_parse (localStorage w !! key) with
    | Ok v => (Ok (nullish v fallback), w)
    | Throw _ => (Ok fallback, w)
    end.

Definition saveJSON (key : jsstring) (val : value) : M unit :=
  fun w =>
    match setItem (localStorage w) key (JSON_stringify val) with
    | Some st => (Ok tt, World st (uid_calls w) (date_calls w))
    | None => (Ok tt, w)
    end.

(** [a || b] where [b] is only evaluated when [a] is falsy. *)
Definition or_else (a : option value) (b : M value) : M value :=
  if truthy_opt a then mret (default VNull a) else b.

(** The function that [legacy.map] applies to each record [x]. *)
Definition migrate_record (x : value) : M value :=
  x_uid ← lift (Get x (lit "uid"));
  uid_ ← or_else x_uid (VStr <$> uid);
  x_created_at ← lift (Get x (lit "created_at"));
  created_at ← or_else x_created_at (VStr <$> Date_toISOString);
  shop_type ← lift (Get x (lit "shop_type"));
  id ← lift (Get x (lit "id"));
  x_ref ← lift (Get x (lit "ref"));
  ref ← or_else x_ref (mret (VStr DEFAULT_SETTINGS.defaultRef));
  x_mulebuy_url ← lift (Get x (lit "mulebuy_url"));
  mulebuy_url ← or_else x_mulebuy_url
    (shop_type' ← lift (Get x (lit "shop_type"));
     id' ← lift (Get x (lit "id"));
     ref' ← lift (Get x (lit "ref"));
     VStr <$> lift (toMulebuy Number_toString shop_type' id' ref'));
  x_title ← lift (Get x (lit "title"));
  title ← or_else x_title (mret (VStr []));
  x_notes ← lift (Get x (lit "notes"));
  notes ← or_else x_notes (mret (VStr []));
  x_tags ← lift (Get x (lit "tags"));
  tags ← or_else x_tags (mret (VArr []));
  x_qc_links ← lift (Get x (lit "qc_links"));
  qc_links ← or_else x_qc_links (mret (VArr []));
  x_images ← lift (Get x (lit "images"));
  images ← or_else x_images (mret (VArr []));
  mret (VObj (object_of [
    (lit "uid", Some uid_);
    (lit "created_at", Some created_at);
    (lit "list", Some (VStr DEFAULT_SETTINGS.defaultList));
    (lit "shop_type", shop_type);
    (lit "id", id);
    (lit "ref", Some ref);
    (lit "mulebuy_url", Some mulebuy_url);
    (lit "title", Some title);
    (lit "seller", Some (VStr []));
    (lit "size", Some (VStr []));
    (lit "price", Some (VStr []));
    (lit "rating", Some (VNum 0));
    (lit "notes", Some notes);
    (lit "tags", Some tags);
    (lit "qc_links", Some qc_links);
    (lit "images", Some images);
    (lit "_v", Some (VNum SCHEMA_VERSION))])).

Definition migrateIfNeeded : M Boot.t :=
  products ← loadJSON LS.products VNull;
  settings ← (s ← loadJSON LS.settings VNull; mret (nullish s DEFAULT_SETTINGS.object));
  history ← (h ← loadJSON LS.history VNull; mret (nullish h (VArr [])));
  if truthy products then mret (Boot.mk products settings history)
  else
    legacy ← loadJSON LS.legacySaved VNull;
    legacyHistory ← (h ← loadJSON LS.legacyHistory (VArr []);
                     mret (if truthy h then h else VArr []));
    match legacy with
    | VArr l =>
        migrated ← mapM migrate_record l;
        _ ← saveJSON LS.products (VArr migrated);
        _ ← saveJSON LS.history legacyHistory;
        mret (Boot.mk (VArr migrated) DEFAULT_SETTINGS.object legacyHistory)
    | _ =>
        let fresh := VArr [] in
        _ ← saveJSON LS.products fresh;
        _ ← saveJSON LS.settings DEFAULT_SETTINGS.object;
        _ ← saveJSON LS.history (VArr []);
        mret (Boot.mk fresh DEFAULT_SETTINGS.object (VArr []))
    end.

End Storage.

(** ** The product collection

    A product is the object that [newProductFromConv] and [newBlankProduct]
    build: a record with these seventeen fields.  On such a record the
    guards [p.tags || []], [a.title || ""] and the like return the field
    (an array is always truthy, and the default of a string field is the
    empty string itself); the guard of [a.price || 0] also replaces the
    empty string. *)
Module Product.
Record t := mk {
  uid : jsstring;
  created_at : jsstring;
  list : jsstring;
  shop_type : jsstring;
  id : jsstring;
  ref : jsstring;
  mulebuy_url : jsstring;
  title : jsstring;
  seller : jsstring;
  size : jsstring;
  price : jsstring;
  rating : Q;
  notes : jsstring;
  tags : Datatypes.list jsstring;
  qc_links : Datatypes.list jsstring;
  images : Datatypes.list jsstring;
  _v : Q;
}.

(** [{ ...p, list: l }] *)
Definition with_list (p : t) (l : jsstring) : t :=
  mk (uid p) (created_at p) l (shop_type p) (id p) (ref p) (mulebuy_url p)
     (title p) (seller p) (size p) (price p) (rating p) (notes p) (tags p)
     (qc_links p) (images p) (_v p).

(** [{ ...p, tags: ts }] *)
Definition with_tags (p : t) (ts : Datatypes.list jsstring) : t :=
  mk (uid p) (created_at p) (list p) (shop_type p) (id p) (ref p)
     (mulebuy_url p) (title p) (seller p) (size p) (price p) (rating p)
     (notes p) ts (qc_links p) (images p) (_v p).
End Product.

(** The object [setConv] stores. *)
Module Conv.
Record t := mk { url : jsstring; shop_type : jsstring; id : jsstring; ref : jsstring }.
End Conv.

(** An entry of the history, as [handleConvert] builds it. *)
Module HistoryEntry.
Record t := mk {
  id : jsstring;
  ts : jsstring;
  input : jsstring;
  shop_type : jsstring;
  ref : jsstring;
  out : jsstring;
}.
End HistoryEntry.

(** The state of the converter: the input fields, the last conversion or
    its error message, and the history. *)
Module Converter.
Record t := mk {
  inputUrl : jsstring;
  ref : jsstring;
  conv : option Conv.t;
  convErr : jsstring;
  history : list HistoryEntry.t;
}.
End Converter.

(** [Array.from(new Set(l))]: the elements of [l] in order of first
    occurrence. *)
Definition Set_add {A} `{EqDecision A} (acc : list A) (x : A) : list A :=
  if decide (x ∈ acc) then acc else acc ++ [x].

Definition Array_from_Set {A} `{EqDecision A} (l : list A) : list A :=
  fold_left Set_add l [].

(** The texts of the two alerts of the import button. *)
Module Alert.
Definition reussi : jsstring := lit "Import r" ++ [233] ++ lit "ussi " ++ [10004].
Definition invalide : jsstring := lit "Import invalide: ".
End Alert.

Section App.

Variable new_URL : jsstring -> option URL.
Variable new_URLSearchParams : jsstring -> list (jsstring * jsstring).
Variable Number_toString : Q -> jsstring.
Variable uid_at : nat -> jsstring.
Variable toISOString_at : nat -> jsstring.
(** [a.localeCompare(b)] *)
Variable localeCompare : jsstring -> jsstring -> number.
(** The message of an exception that the engine throws. *)
Variable engine_message : exn -> jsstring.

Definition message (e : exn) : jsstring :=
  match e with
  | Error m => m
  | _ => engine_message e
  end.

Definition newProductFromConv (conv : Conv.t) (list : jsstring) : M Product.t :=
  u ← uid uid_at;
  now ← Date_toISOString toISOString_at;
  mret (Product.mk u now
          (if truthy_string list then list else lit "Wishlist")
          (Conv.shop_type conv) (Conv.id conv) (Conv.ref conv) (Conv.url conv)
          [] [] [] [] 0 [] [] [] [] SCHEMA_VERSION).

Definition newBlankProduct (ref list : jsstring) : M Product.t :=
  u ← uid uid_at;
  now ← Date_toISOString toISOString_at;
  mret (Product.mk u now
          (if truthy_string list then list else lit "Wishlist")
          (lit "weidian") []
          (if truthy_string ref then ref else DEFAULT_SETTINGS.defaultRef)
          [] (lit "(sans titre)") [] [] [] 0 [] [] [] [] SCHEMA_VERSION).

(** *** Converter *)

(** The body of the [try] block up to [new Date()]. *)
Definition convert (inputUrl ref : jsstring) : result (Parsed.t * jsstring) :=
  parsed ← parseShopUrl new_URL new_URLSearchParams inputUrl;
  url ← toMulebuy Number_toString
          (Some (VStr (Parsed.shop_type parsed)))
          (Some (VStr (Parsed.id parsed)))
          (Some (VStr ref));
  Ok (parsed, url).

(** [[h, ...prev].slice(0, 400)] *)
Definition push_history (h : HistoryEntry.t) (prev : list HistoryEntry.t)
  : list HistoryEntry.t :=
  take 400 (h :: prev).

(** In the entry [{ id: uid(), ts, input, ...parsed, ref, out }] the
    spread of [parsed] comes after [id: uid()], so the entry's [id] is the
    parsed item id; [uid()] is still called. *)
Definition handleConvert (st : Converter.t) : M Converter.t :=
  let inputUrl := Converter.inputUrl st in
  let ref := Converter.ref st in
  match convert inputUrl ref with
  | Ok (parsed, url) =>
      now ← Date_toISOString toISOString_at;
      let conv := Conv.mk url (Parsed.shop_type parsed) (Parsed.id parsed) ref in
      _ ← uid uid_at;
      let h := HistoryEntry.mk (Parsed.id parsed) now inputUrl
                 (Parsed.shop_type parsed) ref url in
      mret (Converter.mk inputUrl ref (Some conv) []
              (push_history h (Converter.history st)))
  | Throw e =>
      mret (Converter.mk inputUrl ref None (message e) (Converter.history st))
  end.

(** *** Bulk actions

    The state they touch: the products and the selected uids. *)

Definition bulkMove (listName : jsstring)
    (st : list Product.t * gset jsstring) : list Product.t * gset jsstring :=
  let '(products, selection) := st in
  if decide (size selection = 0%nat) then st
  else
    (map (fun p => if decide (Product.uid p ∈ selection)
                   then Product.with_list p listName else p) products,
     ∅).

Definition bulkAddTag (tag : jsstring)
    (st : list Product.t * gset jsstring) : list Product.t * gset jsstring :=
  let '(products, selection) := st in
  if negb (truthy_string tag) then st
  else
    (map (fun p => if decide (Product.uid p ∈ selection)
                   then Product.with_tags p
                          (Array_from_Set (Product.tags p ++ [tag]))
                   else p) products,
     selection).

(** The buttons of [BulkBar]: one move button per element of [LISTS], and
    the OK button next to the tag field. *)
Definition BulkBar_move_click (i : nat)
    (st : list Product.t * gset jsstring) : list Product.t * gset jsstring :=
  match LISTS !! i with
  | Some l => bulkMove l st
  | None => st
  end.

Definition BulkBar_tag_click (tag : jsstring)
    (st : list Product.t * gset jsstring) : list Product.t * gset jsstring :=
  if truthy_string (trim tag) then bulkAddTag (trim tag) st else st.

(** *** Sorting *)

(** [Number(price || 0)] *)
Definition Number_price (price : jsstring) : number :=
  if truthy_string price then StringToNumber price else Fin 0.

Definition bySort (sortId : jsstring) (a b : Product.t) : number :=
  if decide (sortId = lit "created_at_desc") then
    localeCompare (Product.created_at b) (Product.created_at a)
  else if decide (sortId = lit "created_at_asc") then
    localeCompare (Product.created_at a) (Product.created_at b)
  else if decide (sortId = lit "title_asc") then
    localeCompare (Product.title a) (Product.title b)
  else if decide (sortId = lit "title_desc") then
    localeCompare (Product.title b) (Product.title a)
  else if decide (sortId = lit "price_asc") then
    sub (Number_price (Product.price a)) (Number_price (Product.price b))
  else if decide (sortId = lit "price_desc") then
    sub (Number_price (Product.price b)) (Number_price (Product.price a))
  else if decide (sortId = lit "shop_type") then
    localeCompare (Product.shop_type a) (Product.shop_type b)
  else Fin 0.

(** *** Export and import

    The settings section works on whatever the store holds: the products
    are any array of values and the settings any value. *)

Definition export_json (settings : value) (products : list value) : text :=
  JSON_stringify (VObj (object_of [(lit "settings", Some settings);
                                   (lit "products", Some (VArr products))])).

(** The [onload] handler of the import button, on the text of the picked
    file: the alert it shows and the products and settings afterwards.  The
    setters run in the order of the source, so an exception keeps what was
    set before it. *)
Definition import_json (file : text) (st : list value * value)
  : jsstring * (list value * value) :=
  let '(products, settings) := st in
  let invalide (e : exn) (st' : list value * value) :=
    (Alert.invalide ++ message e, st') in
  match JSON_parse (Some file) with
  | Throw e => invalide e st
  | Ok (VArr l) => (Alert.reussi, (l, settings))
  | Ok data =>
      match Get data (lit "products") with
      | Throw e => invalide e st
      | Ok data_products =>
          let products1 :=
            match data_products with
            | Some (VArr l) => l
            | _ => products
            end in
          match Get data (lit "settings") with
          | Throw e => invalide e (products1, settings)
          | Ok data_settings =>
              let settings1 :=
                if truthy_opt data_settings
                then VObj (spread data_settings ∪ spread (Some settings))
                else settings in
              (Alert.reussi, (products1, settings1))
          end
      end
  end.

End App.

(** ** The error kinds of the specification

    The specification names four kinds of parse errors; the program throws
    errors with five messages.  [kind_of] reads the kind off the message. *)

Inductive ParseError :=
  | EmptyInput
  | MalformedUrl
  | MissingItemId
  | UnsupportedDomain.

Definition kind_of (e : exn) : option ParseError :=
  match e with
  | Error m =>
      if decide (m = Msg.URL_manquante) then Some EmptyInput
      else if decide (m = Msg.URL_invalide) then Some MalformedUrl
      else if decide (m = Msg.itemID_manquant) then Some MissingItemId
      else if decide (m = Msg.id_manquant) then Some MissingItemId
      else if decide (m = Msg.Domaine_non_supporte) then Some UnsupportedDomain
      else None
  | _ => None
  end.

Definition fails_with {A} (r : result A) (k : ParseError) : Prop :=
  exists e, r = Throw e /\ kind_of e = Some k.

(** [p] occurs in [s]. *)
Definition substring (p s : jsstring) : Prop :=
  exists a b, s = a ++ p ++ b.

(** A string of white space only. *)
Definition blank (s : jsstring) : Prop :=
  Forall (fun c => is_white c = true) s.

(** ** Runs of the converter *)

Section Runs.

Variable new_URL : jsstring -> option URL.
Variable new_URLSearchParams : jsstring -> list (jsstring * jsstring).
Variable Number_toString : Q -> jsstring.
Variable uid_at : nat -> jsstring.
Variable toISOString_at : nat -> jsstring.
Variable engine_message : exn -> jsstring.

(** The user fills in the two fields and presses the button, once per
    element of [reqs] (the url, then the referral code). *)
Fixpoint convert_all (reqs : list (jsstring * jsstring)) (st : Converter.t)
  : M Converter.t :=
  match reqs with
  | [] => mret st
  | (inputUrl, ref) :: rest =>
      st' ← handleConvert new_URL new_URLSearchParams Number_toString uid_at
              toISOString_at engine_message
              (Converter.mk inputUrl ref (Converter.conv st)
                 (Converter.convErr st) (Converter.history st));
      convert_all rest st'
  end.

(** The entries that the successful conversions among [reqs] add, oldest
    first, when [new Date()] has been called [d] times before. *)
Fixpoint added_entries (d : nat) (reqs : list (jsstring * jsstring))
  : list HistoryEntry.t :=
  match reqs with
  | [] => []
  | (inputUrl, ref) :: rest =>
      match convert new_URL new_URLSearchParams Number_toString inputUrl ref with
      | Ok (parsed, url) =>
          HistoryEntry.mk (Parsed.id parsed) (toISOString_at d) inputUrl
            (Parsed.shop_type parsed) ref url
          :: added_entries (S d) rest
      | Throw _ => added_entries d rest
      end
  end.

Definition succeeds (req : jsstring * jsstring) : Prop :=
  exists r, convert new_URL new_URLSearchParams Number_toString req.1 req.2 = Ok r.

#[global] Instance succeeds_dec (req : jsstring * jsstring) : Decision (succeeds req) :=
  match convert new_URL new_URLSearchParams Number_toString req.1 req.2 as c
        return Decision (exists r, c = Ok r) with
  | Ok r => left (ex_intro _ r eq_refl)
  | Throw e =>
      right (fun H : exists r, Throw e = Ok r =>
               match H with
               | ex_intro _ r Hr =>
                   eq_ind (Throw e)
                     (fun x => match x with Ok _ => False | Throw _ => True end)
                     I (Ok r) Hr
               end)
  end.

End Runs.

(** ** A small platform for the examples

    A reader of urls of the form [http(s)://host/path?query#fragment] and of
    query strings [a=b&c=d], without any decoding.  The examples below run
    the program on it; the theorems hold for every platform. *)
Module Sample.

(** [s] up to the first code unit that satisfies [stop], and the rest. *)
Fixpoint break (stop : N -> bool) (s : jsstring) : jsstring * jsstring :=
  match s with
  | [] => ([], [])
  | c :: r =>
      if stop c then ([], s)
      else let '(a, b) := break stop r in (c :: a, b)
  end.

Definition after_scheme (s : jsstring) : option jsstring :=
  if startsWith s (lit "https://") then Some (drop 8 s)
  else if startsWith s (lit "http://") then Some (drop 7 s)
  else None.

Definition new_URL (s : jsstring) : option URL :=
  match after_scheme s with
  | None => None
  | Some r =>
      let '(host, r1) := break (fun c => (c =? 47) || (c =? 63) || (c =? 35)) r in
      let '(_, r2) := break (fun c => (c =? 63) || (c =? 35)) r1 in
      let '(query, _) := break (fun c => c =? 35) r2 in
      if is_nil host || existsb is_white host then None
      else Some {| hostname := host; search := query |}
  end.

Fixpoint pairs (fuel : nat) (s : jsstring) : list (jsstring * jsstring) :=
  match fuel with
  | O => []
  | S fuel =>
      let '(piece, rest) := break (fun c => c =? 38) s in
      let '(name, v) := break (fun c => c =? 61) piece in
      let here := if is_nil piece then [] else [(name, drop 1 v)] in
      match rest with
      | [] => here
      | _ :: rest' => here ++ pairs fuel rest'
      end
  end.

Definition new_URLSearchParams (search : jsstring) : list (jsstring * jsstring) :=
  let q := match search with 63 :: r => r | _ => search end in
  pairs (S (length q)) q.

Definition Number_toString (q : Q) : jsstring := lit (pretty (Qnum q)).
Definition uid_at (n : nat) : jsstring := lit "uid-" ++ lit (pretty n).
Definition toISOString_at (n : nat) : jsstring :=
  lit "2025-01-01T00:00:00." ++ lit (pretty n) ++ lit "Z".
Definition engine_message (e : exn) : jsstring :=
  match e with
  | TypeError => lit "TypeError"
  | SyntaxError => lit "SyntaxError"
  | Error m => m
  end.
Definition setItem (st : gmap jsstring text) (k : jsstring) (t : text)
  : option (gmap jsstring text) := Some (<[k := t]> st).

Definition parseShopUrl := parseShopUrl new_URL new_URLSearchParams.
Definition toMulebuy := toMulebuy Number_toString.

(** A code-unit comparison in the place of [localeCompare]. *)
Fixpoint localeCompare (a b : jsstring) : number :=
  match a, b with
  | [], [] => Fin 0
  | [], _ :: _ => Fin (-1)
  | _ :: _, [] => Fin 1
  | x :: a', y :: b' =>
      if (x <? y)%N then Fin (-1)
      else if (y <? x)%N then Fin 1
      else localeCompare a' b'
  end.

(** Five hundred urls of distinct items, with the referral code [R9]. *)
Definition requests : Datatypes.list (jsstring * jsstring) :=
  map (fun k => (lit "https://weidian.com/item.html?itemID=" ++ lit (pretty k),
                 lit "R9"))
      (seq 1 500).

(** The converter before the first conversion. *)
Definition converter0 : Converter.t := Converter.mk [] (lit "R9") None [] [].

(** A store that holds one record under the legacy key only. *)
Definition legacy_world : world :=
  World {[ LS.legacySaved :=
             JSON_text (VArr [VObj (object_of
               [(lit "shop_type", Some (VStr (lit "taobao")));
                (lit "id", Some (VStr (lit "456")));
                (lit "title", Some (VStr (lit "shoes")))])]) ]}
        0 0.

(** A product with the given uid, list, price and tags. *)
Definition product (uid list price : jsstring) (tags : Datatypes.list jsstring)
  : Product.t :=
  Product.mk uid (lit "2025-01-01T00:00:00.000Z") list (lit "weidian")
    (lit "123") (lit "R9")
    (lit "https://mulebuy.com/product/?shop_type=weidian&id=123&ref=R9")
    [] [] [] price 0 [] tags [] [] SCHEMA_VERSION.

End Sample.

(** A computation that leaves the store as it is, whatever it returns. *)
Definition keeps_store {A} (m : M A) : Prop :=
  forall w, localStorage (m w).2 = localStorage w.

(** [setItem] always stores: the store is neither full nor unavailable. *)
Definition always_stores
    (setItem : gmap jsstring text -> jsstring -> text -> option (gmap jsstring text))
  : Prop :=
  forall st k t, setItem st k t = Some (<[k := t]> st).

(** ** The other operations of [App.jsx] *)

(** [s.endsWith(p)] *)
Definition endsWith (s p : jsstring) : bool :=
  startsWith (reverse s) (reverse p).

(** [l.join(sep)] on an array of strings. *)
Fixpoint join (sep : jsstring) (l : list jsstring) : jsstring :=
  match l with
  | [] => []
  | [x] => x
  | x :: r => x ++ sep ++ join sep r
  end.

Definition image_extensions : list jsstring :=
  [lit ".jpg"; lit ".jpeg"; lit ".png"; lit ".gif"; lit ".webp"; lit ".bmp";
   lit ".avif"].

Definition image_hosts : list jsstring :=
  [lit "i.imgur.com"; lit "imgur.com"; lit "catbox.moe"; lit "files.catbox.moe";
   lit "postimg.cc"; lit "i.ibb.co"; lit "cdn.discordapp.com";
   lit "images.weserv.nl"].

(** The changes that a card sends to [onUpdate]: an object with one of
    these three properties. *)
Inductive patch :=
  | patch_images (images : list jsstring)
  | patch_qc_links (qc_links : list jsstring)
  | patch_tags (tags : list jsstring).

(** [{ ...x, ...patch }] *)
Definition apply_patch (x : Product.t) (pt : patch) : Product.t :=
  match pt with
  | patch_images l =>
      Product.mk (Product.uid x) (Product.created_at x) (Product.list x)
        (Product.shop_type x) (Product.id x) (Product.ref x)
        (Product.mulebuy_url x) (Product.title x) (Product.seller x)
        (Product.size x) (Product.price x) (Product.rating x) (Product.notes x)
        (Product.tags x) (Product.qc_links x) l (Product._v x)
  | patch_qc_links l =>
      Product.mk (Product.uid x) (Product.created_at x) (Product.list x)
        (Product.shop_type x) (Product.id x) (Product.ref x)
        (Product.mulebuy_url x) (Product.title x) (Product.seller x)
        (Product.size x) (Product.price x) (Product.rating x) (Product.notes x)
        (Product.tags x) l (Product.images x) (Product._v x)
  | patch_tags l => Product.with_tags x l
  end.

(** [{ ...v, mulebuy_url: u }] *)
Definition with_mulebuy_url (v : Product.t) (u : jsstring) : Product.t :=
  Product.mk (Product.uid v) (Product.created_at v) (Product.list v)
    (Product.shop_type v) (Product.id v) (Product.ref v) u (Product.title v)
    (Product.seller v) (Product.size v) (Product.price v) (Product.rating v)
    (Product.notes v) (Product.tags v) (Product.qc_links v) (Product.images v)
    (Product._v v).

(** The order of the default [Array.prototype.sort] on strings: by code
    units, a prefix first. *)
Fixpoint code_unit_le (a b : jsstring) : bool :=
  match a, b with
  | [], _ => true
  | _ :: _, [] => false
  | x :: a', y :: b' => (x <? y)%N || ((x =? y)%N && code_unit_le a' b')
  end.

(** [l.sort()] on strings.  The sorted arrangement of strings under a
    total order is unique, so any sorting algorithm gives it. *)
Definition code_unit_order (a b : jsstring) : Prop := code_unit_le a b = true.

#[global] Instance code_unit_order_dec (a b : jsstring)
  : Decision (code_unit_order a b) :=
  decide (code_unit_le a b = true).

Definition default_sort (l : list jsstring) : list jsstring :=
  merge_sort code_unit_order l.

Section Operations.

Variable Number_toString : Q -> jsstring.
Variable uid_at : nat -> jsstring.
Variable toISOString_at : nat -> jsstring.
Variable setItem : gmap jsstring text -> jsstring -> text -> option (gmap jsstring text).
Variable localeCompare : jsstring -> jsstring -> number.
(** [new URL(u)] with the [pathname] of the result; [None] when the
    constructor throws. *)
Variable new_URL_pathname : jsstring -> option (URL * jsstring).
(** [s.toLowerCase()] *)
Variable toLowerCase : jsstring -> jsstring.
(** [new Intl.NumberFormat(undefined, { style, currency }).format(num)] *)
Variable Intl_format : number -> jsstring.
(** [l.sort(comparefn)] *)
Variable Array_sort :
  (Product.t -> Product.t -> number) -> list Product.t -> list Product.t.

Definition looksLikeImageUrl (u : jsstring) : bool :=
  match new_URL_pathname u with
  | None => false
  | Some (url, pathname) =>
      let ext := toLowerCase pathname in
      let okExt := existsb (fun e => endsWith ext e) image_extensions in
      okExt || existsb (fun h => endsWith (hostname url) h) image_hosts
  end.

(** [currency(p.price)] on a price string; the dash is U+2014. *)
Definition currency (n : jsstring) : jsstring :=
  if decide (n = []) then [8212%N]
  else
    match StringToNumber n with
    | NaN => n
    | num => Intl_format num
    end.

(** The three effects of [App] that write the state to the store. *)
Definition persist (st : Boot.t) : M unit :=
  _ ← saveJSON setItem LS.products (Boot.products st);
  _ ← saveJSON setItem LS.settings (Boot.settings st);
  saveJSON setItem LS.history (Boot.history st).

(** [handleSaveConverted], with [settings.defaultList] as [defaultList]:
    the new products and the product that opens in the drawer. *)
Definition handleSaveConverted (conv : option Conv.t) (defaultList : jsstring)
    (products : list Product.t) : M (list Product.t * option Product.t) :=
  match conv with
  | None => mret (products, None)
  | Some c =>
      p ← newProductFromConv uid_at toISOString_at c defaultList;
      mret (p :: products, Some p)
  end.

(** The button [Nouveau], with [settings.defaultRef] as [defaultRef]. *)
Definition nouveau (defaultRef activeList : jsstring)
    (products : list Product.t) : M (list Product.t * option Product.t) :=
  p ← newBlankProduct uid_at toISOString_at defaultRef activeList;
  mret (p :: products, Some p).

(** [allTags] *)
Definition allTags (products : list Product.t) : list jsstring :=
  default_sort (Array_from_Set (concat (map Product.tags products))).

(** The text that the search box is matched against. *)
Definition hay (p : Product.t) : jsstring :=
  toLowerCase
    (join (lit " ")
       ([Product.title p; Product.notes p; Product.shop_type p; Product.id p;
         Product.seller p; Product.size p; Product.ref p; Product.mulebuy_url p]
        ++ Product.tags p)).

Definition in_list (activeList : jsstring) (p : Product.t) : bool :=
  if truthy_string activeList then bool_decide (Product.list p = activeList)
  else true.

Definition has_tag (tagFilter : jsstring) (p : Product.t) : bool :=
  if truthy_string tagFilter then bool_decide (tagFilter ∈ Product.tags p)
  else true.

Definition matches (search : jsstring) (p : Product.t) : bool :=
  let q := toLowerCase (trim search) in
  if negb (truthy_string q) then true else includes (hay p) q.

(** [filtered] *)
Definition filtered (products : list Product.t)
    (activeList search sortId tagFilter : jsstring) : list Product.t :=
  Array_sort (bySort localeCompare sortId)
    (List.filter (matches search)
       (List.filter (has_tag tagFilter)
          (List.filter (in_list activeList) products))).

Definition toggleSelect (uid : jsstring) (prev : gset jsstring) : gset jsstring :=
  if decide (uid ∈ prev) then prev ∖ {[ uid ]} else prev ∪ {[ uid ]}.

(** [bulkDelete]; [confirmed] is the answer to the [confirm] dialog, which
    is only asked when something is selected. *)
Definition bulkDelete (confirmed : bool)
    (st : list Product.t * gset jsstring) : list Product.t * gset jsstring :=
  let '(products, selection) := st in
  if decide (size selection = 0%nat) then st
  else if negb confirmed then st
  else (filter (fun p => Product.uid p ∉ selection) products, ∅).

(** The [onUpdate] and [onDelete] that [App] gives to the card of [p]. *)
Definition onUpdate (p : Product.t) (pt : patch) (prev : list Product.t)
  : list Product.t :=
  map (fun x => if decide (Product.uid x = Product.uid p)
                then apply_patch x pt else x) prev.

Definition onDelete (p : Product.t) (prev : list Product.t) : list Product.t :=
  filter (fun x => Product.uid x <> Product.uid p) prev.

(** The handlers of [ProductCard]: the button that adds a link, and the
    crosses that remove the [i]-th tag or image. *)
Definition addLink (p : Product.t) (newLink : jsstring) (prev : list Product.t)
  : list Product.t :=
  if truthy_string (trim newLink)
  then onUpdate p (patch_qc_links (Product.qc_links p ++ [trim newLink])) prev
  else prev.

Definition removeTag (p : Product.t) (i : nat) (prev : list Product.t)
  : list Product.t :=
  onUpdate p (patch_tags (delete i (Product.tags p))) prev.

Definition removeImage (p : Product.t) (i : nat) (prev : list Product.t)
  : list Product.t :=
  onUpdate p (patch_images (delete i (Product.images p))) prev.

(** The previews of a card: the first links that look like images. *)
Definition previews (compact : bool) (p : Product.t) : list jsstring :=
  take (if compact then 3 else 6)%nat
    (List.filter looksLikeImageUrl (Product.qc_links p)).

(** [EditDrawer]: the button that saves the edited copy [local] of the
    product [editing], and the button that regenerates the url. *)
Definition EditDrawer_apply (editing local : Product.t) (prev : list Product.t)
  : list Product.t :=
  map (fun x => if decide (Product.uid x = Product.uid editing)
                then local else x) prev.

Definition generate_url (v : Product.t) : Product.t :=
  match toMulebuy Number_toString (Some (VStr (Product.shop_type v)))
          (Some (VStr (Product.id v))) (Some (VStr (Product.ref v))) with
  | Ok u => with_mulebuy_url v u
  | Throw _ => v
  end.

(** [TagEditor]: the button that adds the typed text, and a click on a
    suggested tag. *)
Definition TagEditor_add (txt : jsstring) (value : list jsstring) : list jsstring :=
  let t := trim txt in
  if negb (truthy_string t) then value
  else Array_from_Set (value ++ [t]).

Definition TagEditor_suggest (t : jsstring) (value : list jsstring) : list jsstring :=
  Array_from_Set (value ++ [t]).

(** The button that resets the data: [setProducts([])] once confirmed. *)
Definition reset_data (confirmed : bool) (st : Boot.t) : Boot.t :=
  if confirmed then Boot.mk (VArr []) (Boot.settings st) (Boot.history st)
  else st.

End Operations.

(** What the result of a computation satisfies whenever it returns, and
    the only exception it can throw. *)
Definition returns {A} (m : M A) (P : A -> Prop) : Prop :=
  forall w a w', m w = (Ok a, w') -> P a.

Definition throws_only {A} (m : M A) (e0 : exn) : Prop :=
  forall w e w', m w = (Throw e, w') -> e = e0.

(** A store without current products: nothing, a text that is not JSON, or
    a falsy value under the products key. *)
Definition no_products (st : gmap jsstring text) : Prop :=
  match JSON_parse (st !! LS.products) with
  | Ok v => truthy v = false
  | Throw _ => True
  end.

(** What [loadJSON] finds under a key. *)
Definition stored (st : gmap jsstring text) (key : jsstring) (fallback : value)
  : value :=
  match JSON_parse (st !! key) with
  | Ok v => nullish v fallback
  | Throw _ => fallback
  end.

(** [x.key || d], for a record [x] whose properties can be read. *)
Definition field_or (x : value) (key : jsstring) (d : value) : value :=
  match Get x key with
  | Ok (Some u) => if truthy u then u else d
  | _ => d
  end.

(** The seventeen property names of a product. *)
Definition product_keys : list jsstring :=
  [lit "uid"; lit "created_at"; lit "list"; lit "shop_type"; lit "id";
   lit "ref"; lit "mulebuy_url"; lit "title"; lit "seller"; lit "size";
   lit "price"; lit "rating"; lit "notes"; lit "tags"; lit "qc_links";
   lit "images"; lit "_v"].

(** How a migrated product [y] relates to the legacy record [x] it was
    made from. *)
Definition migrated_from (x y : value) : Prop :=
  exists o, y = VObj o
    /\ o !! lit "list" = Some (VStr DEFAULT_SETTINGS.defaultList)
    /\ o !! lit "_v" = Some (VNum SCHEMA_VERSION)
    /\ o !! lit "seller" = Some (VStr [])
    /\ o !! lit "size" = Some (VStr [])
    /\ o !! lit "price" = Some (VStr [])
    /\ o !! lit "rating" = Some (VNum 0)
    /\ Get x (lit "shop_type") = Ok (o !! lit "shop_type")
    /\ Get x (lit "id") = Ok (o !! lit "id")
    /\ o !! lit "ref" = Some (field_or x (lit "ref") (VStr DEFAULT_SETTINGS.defaultRef))
    /\ o !! lit "title" = Some (field_or x (lit "title") (VStr []))
    /\ o !! lit "notes" = Some (field_or x (lit "notes") (VStr []))
    /\ o !! lit "tags" = Some (field_or x (lit "tags") (VArr []))
    /\ o !! lit "qc_links" = Some (field_or x (lit "qc_links") (VArr []))
    /\ o !! lit "images" = Some (field_or x (lit "images") (VArr []))
    /\ (forall u, Get x (lit "uid") = Ok (Some u) -> truthy u = true ->
          o !! lit "uid" = Some u)
    /\ (forall u, Get x (lit "created_at") = Ok (Some u) -> truthy u = true ->
          o !! lit "created_at" = Some u)
    /\ (forall u, Get x (lit "mulebuy_url") = Ok (Some u) -> truthy u = true ->
          o !! lit "mulebuy_url" = Some u)
    /\ (forall k, is_Some (o !! k) -> k ∈ product_keys).

(** More sample data: a legacy array with a [null] in it, a store that
    holds settings only, and a [setItem] that always throws. *)
Definition sample_null_world : world :=
  World {[ LS.legacySaved :=
             JSON_text (VArr [VObj (object_of [(lit "id", Some (VStr (lit "1")))]);
                              VNull]) ]}
        0 0.

Definition sample_settings_world : world :=
  World {[ LS.settings :=
             JSON_text (VObj (object_of
               [(lit "defaultRef", Some (VStr (lit "R9")))])) ]}
        0 0.

Definition sample_full_store (st : gmap jsstring text) (k : jsstring) (t : text)
  : option (gmap jsstring text) := None.

(** A store whose first write of the products fails: it refuses the write
    of the products key as long as it holds no history key, and takes every
    other write. *)
Definition sample_refusing_store (st : gmap jsstring text) (k : jsstring) (t : text)
  : option (gmap jsstring text) :=
  if decide (k = LS.products /\ st !! LS.history = None) then None
  else Some (<[k := t]> st).

(** The uids of a collection, and the collections whose products were
    all created in this session: their uids are pairwise different results
    of earlier calls of [uid()]. *)
Definition uids (products : list Product.t) : list jsstring :=
  map Product.uid products.

Definition generated (uid_at : nat -> jsstring) (w : world)
    (products : list Product.t) : Prop :=
  NoDup (uids products)
  /\ forall u, u ∈ uids products -> exists k, (k < uid_calls w)%nat /\ u = uid_at k.

(** An [uid()] that never repeats, for the examples: the string of [n]
    letters [x]. *)
Definition sample_uid_at (n : nat) : jsstring := replicate n 120%N.

(** A stable sort by a comparator, for the examples. *)
Definition sample_sort (cmp : Product.t -> Product.t -> number)
    (l : list Product.t) : list Product.t :=
  merge_sort (fun a b => SortCompare (cmp a b) <> Gt) l.

(** A computation that returns in every world. *)
Definition runs {A} (m : M A) : Prop :=
  forall w, exists a w', m w = (Ok a, w').

(** A legacy record that can be migrated: its properties can be read (it
    is not [null]), and it has a truthy [mulebuy_url] or a shop type, an id
    and a referral code from which [toMulebuy] builds one. *)
Definition migratable (Number_toString : Q -> jsstring) (x : value) : Prop :=
  exists shop_type id ref url,
    Get x (lit "shop_type") = Ok shop_type
    /\ Get x (lit "id") = Ok id
    /\ Get x (lit "ref") = Ok ref
    /\ Get x (lit "mulebuy_url") = Ok url
    /\ (truthy_opt url = true
        \/ exists u, toMulebuy Number_toString shop_type id ref = Ok u).

(** A legacy array of two records made of strings. *)
Definition sample_records : list value :=
  [VObj (object_of [(lit "shop_type", Some (VStr (lit "taobao")));
                    (lit "id", Some (VStr (lit "456")))]);
   VObj (object_of [(lit "mulebuy_url", Some (VStr (lit "https://mulebuy.com/x")));
                    (lit "ref", Some (VNum 7))])].

(* ================================================================== *)
(** * Properties *)
(* ================================================================== *)

Local Open Scope nat_scope.

(** ** Strings *)

Lemma startsWith_spec (s p : jsstring) :
  startsWith s p = true <-> exists b, s = p ++ b.
Proof.
  revert s. induction p as [|a p IH]; intros s; simpl.
  - split; [intros _; by exists s | done].
  - destruct s as [|b s].
    + split; [done | intros [? ?]; discriminate].
    + rewrite andb_true_iff, N.eqb_eq, IH. split.
      * intros [-> [r ->]]. by exists r.
      * intros [r Hr]. injection Hr as -> ->. eauto.
Qed.

Lemma includes_spec (s p : jsstring) :
  includes s p = true <-> substring p s.
Proof.
  unfold substring. induction s as [|c s IH]; simpl.
  - rewrite orb_false_r, startsWith_spec. split.
    + intros [b Hb]. by exists [], b.
    + intros [a [b Hab]]. destruct a; [by exists b | discriminate].
  - rewrite orb_true_iff, startsWith_spec, IH. split.
    + intros [[b Hb] | [a [b Hab]]].
      * by exists [], b.
      * exists (c :: a), b. by rewrite Hab.
    + intros [[|c' a] [b Hab]].
      * left. by exists b.
      * right. injection Hab as -> ->. by exists a, b.
Qed.

Lemma trimStart_blank (s : jsstring) : blank s -> trimStart s = [].
Proof.
  induction 1 as [|c s Hc _ IH]; simpl; [done|]. by rewrite Hc.
Qed.

Lemma trim_blank (s : jsstring) : blank s -> trim s = [].
Proof.
  intros H. unfold trim. by rewrite (trimStart_blank s H).
Qed.


(** ** URL conversion *)

Lemma kind_URL_manquante : kind_of (Error Msg.URL_manquante) = Some EmptyInput.
Proof. reflexivity. Qed.

Lemma kind_URL_invalide : kind_of (Error Msg.URL_invalide) = Some MalformedUrl.
Proof. reflexivity. Qed.

Lemma kind_itemID_manquant : kind_of (Error Msg.itemID_manquant) = Some MissingItemId.
Proof. reflexivity. Qed.

Lemma kind_id_manquant : kind_of (Error Msg.id_manquant) = Some MissingItemId.
Proof. reflexivity. Qed.

Lemma kind_Domaine_non_supporte :
  kind_of (Error Msg.Domaine_non_supporte) = Some UnsupportedDomain.
Proof. reflexivity. Qed.

Lemma messages_distinct :
  NoDup [Msg.URL_manquante; Msg.URL_invalide; Msg.itemID_manquant;
         Msg.id_manquant; Msg.Domaine_non_supporte].
Proof. apply (bool_decide_unpack _). by vm_compute. Qed.

Lemma fails_with_Throw {A} (e : exn) (k : ParseError) :
  fails_with (@Throw A e) k <-> kind_of e = Some k.
Proof.
  split.
  - intros [e' [He Hk]]. by injection He as ->.
  - intros Hk. by exists e.
Qed.

Lemma fails_with_Ok {A} (a : A) (k : ParseError) : ~ fails_with (Ok a) k.
Proof. intros [e [He _]]. discriminate. Qed.

Section Parse.

Variable new_URL : jsstring -> option URL.
Variable new_URLSearchParams : jsstring -> list (jsstring * jsstring).

Abbreviation parse := (parseShopUrl new_URL new_URLSearchParams).

(** The item-id rule of one marketplace: the value of the query
    parameter when it is there and not empty. *)
Lemma parse_empty (raw : jsstring) :
  trim raw = [] -> parse raw = Throw (Error Msg.URL_manquante).
Proof. intros H. unfold parseShopUrl. by rewrite H. Qed.

Lemma parse_malformed (raw : jsstring) :
  trim raw <> [] -> new_URL (trim raw) = None ->
  parse raw = Throw (Error Msg.URL_invalide).
Proof.
  intros Hs Hu. unfold parseShopUrl. rewrite Hu.
  by destruct (trim raw).
Qed.

Lemma parse_url (raw : jsstring) (url : URL) :
  trim raw <> [] -> new_URL (trim raw) = Some url ->
  parse raw =
    let q := new_URLSearchParams (search url) in
    if includes (hostname url) (lit "weidian.com") then
      match URLSearchParams_get q (lit "itemID") with
      | Some ((_ :: _) as v) => Ok (Parsed.mk (lit "weidian") v)
      | _ => Throw (Error Msg.itemID_manquant)
      end
    else if includes (hostname url) (lit "taobao.com") then
      match URLSearchParams_get q (lit "id") with
      | Some ((_ :: _) as v) => Ok (Parsed.mk (lit "taobao") v)
      | _ => Throw (Error Msg.id_manquant)
      end
    else Throw (Error Msg.Domaine_non_supporte).
Proof.
  intros Hs Hu. unfold parseShopUrl. rewrite Hu.
  destruct (trim raw) as [|c s]; [done|]. cbn [negb truthy_string].
  repeat case_match; by simplify_eq.
Qed.

(** C4. For every input string, [parseShopUrl] fails with EmptyInput
    exactly when the trimmed input is empty; otherwise it fails with
    MalformedUrl exactly when [new URL] rejects the trimmed input;
    otherwise, when the hostname contains [weidian.com], it returns
    [weidian] with the value of [itemID] if that parameter is present and
    not empty and fails with MissingItemId if not; when the hostname does
    not contain [weidian.com] but contains [taobao.com], the same with
    [taobao] and the parameter [id]; and it fails with UnsupportedDomain
    exactly when the hostname contains neither.  The messages of the
    errors are pairwise different, so the four kinds are distinct. *)
Theorem parseShopUrl_cases (raw : jsstring) :
  let s := trim raw in
  (fails_with (parse raw) EmptyInput <-> s = [])
  /\ (fails_with (parse raw) MalformedUrl <-> s <> [] /\ new_URL s = None)
  /\ (fails_with (parse raw) UnsupportedDomain <->
        s <> [] /\ exists url, new_URL s = Some url
          /\ ~ substring (lit "weidian.com") (hostname url)
          /\ ~ substring (lit "taobao.com") (hostname url))
  /\ (forall url, s <> [] -> new_URL s = Some url ->
        let q := new_URLSearchParams (search url) in
        (substring (lit "weidian.com") (hostname url) ->
           (forall v, URLSearchParams_get q (lit "itemID") = Some v -> v <> [] ->
              parse raw = Ok (Parsed.mk (lit "weidian") v))
           /\ (URLSearchParams_get q (lit "itemID") = None
               \/ URLSearchParams_get q (lit "itemID") = Some [] ->
               fails_with (parse raw) MissingItemId))
        /\ (~ substring (lit "weidian.com") (hostname url) ->
            substring (lit "taobao.com") (hostname url) ->
           (forall v, URLSearchParams_get q (lit "id") = Some v -> v <> [] ->
              parse raw = Ok (Parsed.mk (lit "taobao") v))
           /\ (URLSearchParams_get q (lit "id") = None
               \/ URLSearchParams_get q (lit "id") = Some [] ->
               fails_with (parse raw) MissingItemId)))
  /\ NoDup [Msg.URL_manquante; Msg.URL_invalide; Msg.itemID_manquant;
            Msg.id_manquant; Msg.Domaine_non_supporte].
Proof.
  intros s. subst s.
  destruct (decide (trim raw = [])) as [He|Hne].
  { rewrite (parse_empty raw He), !fails_with_Throw. repeat split; try done.
    - by intros [? _].
    - by intros [? _].
    - apply messages_distinct. }
  destruct (new_URL (trim raw)) as [url|] eqn:Hu.
  2:{ rewrite (parse_malformed raw Hne Hu), !fails_with_Throw.
      repeat split; try done.
      - by intros [_ [? [? _]]].
      - apply messages_distinct. }
  rewrite (parse_url raw url Hne Hu). cbv zeta.
  split; [|split; [|split; [|split]]].
  - split; [|done]. repeat case_match; rewrite ?fails_with_Throw;
      try done; by intros ?%fails_with_Ok.
  - split; [|by intros [_ ?]]. repeat case_match; rewrite ?fails_with_Throw;
      try done; by intros ?%fails_with_Ok.
  - split.
    + intros H. split; [done|]. exists url. split; [done|].
      rewrite <- !includes_spec.
      revert H. repeat case_match; rewrite ?fails_with_Throw;
        try done; by intros ?%fails_with_Ok.
    + intros [_ [url' [Hu' [Hw Ht]]]]. injection Hu' as <-.
      rewrite <- includes_spec, not_true_iff_false in Hw, Ht.
      rewrite Hw, Ht. by rewrite fails_with_Throw.
  - intros url' _ Hu'. injection Hu' as <-. split.
    + intros Hw%includes_spec. rewrite Hw. split.
      * intros v -> Hv. by destruct v.
      * intros [-> | ->]; by rewrite fails_with_Throw.
    + intros Hw Ht%includes_spec.
      rewrite <- includes_spec, not_true_iff_false in Hw.
      rewrite Hw, Ht. split.
      * intros v -> Hv. by destruct v.
      * intros [-> | ->]; by rewrite fails_with_Throw.
  - apply messages_distinct.
Qed.

End Parse.

Section Render.

Variable Number_toString : Q -> jsstring.

Abbreviation render := (toMulebuy Number_toString).

(** The base of every rendered url. *)
Lemma render_string (shop_type id : jsstring) (ref : option jsstring) :
  render (Some (VStr shop_type)) (Some (VStr id)) (VStr <$> ref) =
  Ok (lit "https://mulebuy.com/product/?shop_type=" ++ shop_type
      ++ lit "&id=" ++ id ++ lit "&ref="
      ++ trim (match ref with
               | Some ((_ :: _) as r) => r
               | _ => DEFAULT_SETTINGS.defaultRef
               end)).
Proof. by destruct ref as [[|c r]|]. Qed.

(** C7. [toMulebuy] on a shop type token, an item id and a referral code
    that may be absent: an empty or absent referral code is replaced by
    the default one ([DEFAULT_SETTINGS.defaultRef]); the result is always
    the fixed base url followed by the query parameters [shop_type], [id]
    and [ref], in that order, with the token, the id and the trimmed
    resolved code; [toMulebuy(weidian, 123, R9)] ends in [ref=R9], with
    an empty code it ends in [ref=] followed by the default code; the
    function never throws on such arguments. *)
Theorem toMulebuy_template (shop_type id : jsstring) (ref : option jsstring) :
  let resolved :=
    match ref with
    | Some ((_ :: _) as r) => r
    | _ => DEFAULT_SETTINGS.defaultRef
    end in
  render (Some (VStr shop_type)) (Some (VStr id)) (VStr <$> ref) =
    Ok (lit "https://mulebuy.com/product/"
        ++ lit "?shop_type=" ++ shop_type
        ++ lit "&id=" ++ id
        ++ lit "&ref=" ++ trim resolved)
  /\ render (Some (VStr (lit "weidian"))) (Some (VStr (lit "123")))
       (Some (VStr (lit "R9"))) =
     Ok (lit "https://mulebuy.com/product/?shop_type=weidian&id=123&ref=R9")
  /\ render (Some (VStr (lit "weidian"))) (Some (VStr (lit "123")))
       (Some (VStr (lit ""))) =
     Ok (lit "https://mulebuy.com/product/?shop_type=weidian&id=123&ref="
         ++ DEFAULT_SETTINGS.defaultRef).
Proof.
  intros resolved. split; [|split].
  - rewrite render_string. reflexivity.
  - reflexivity.
  - reflexivity.
Qed.

(** C10. The default that [toMulebuy] substitutes is the built-in
    constant [200084174] (the function reads no settings), and because
    the referral code is tested before it is trimmed, a code of white
    space only is not replaced: the url then ends in [ref=] with an empty
    value. *)
Theorem toMulebuy_blank_ref (shop_type id ref : jsstring)
    (Hblank : blank ref) (Hne : ref <> []) :
  DEFAULT_SETTINGS.defaultRef = lit "200084174"
  /\ render (Some (VStr shop_type)) (Some (VStr id)) None =
       Ok (lit "https://mulebuy.com/product/?shop_type=" ++ shop_type
           ++ lit "&id=" ++ id ++ lit "&ref=" ++ lit "200084174")
  /\ render (Some (VStr shop_type)) (Some (VStr id)) (Some (VStr [])) =
       Ok (lit "https://mulebuy.com/product/?shop_type=" ++ shop_type
           ++ lit "&id=" ++ id ++ lit "&ref=" ++ lit "200084174")
  /\ render (Some (VStr shop_type)) (Some (VStr id)) (Some (VStr ref)) =
       Ok (lit "https://mulebuy.com/product/?shop_type=" ++ shop_type
           ++ lit "&id=" ++ id ++ lit "&ref=").
Proof.
  split; [reflexivity|]. split; [reflexivity|]. split; [reflexivity|].
  etrans; [apply (render_string shop_type id (Some ref))|].
  destruct ref as [|c r]; [done|]. rewrite (trim_blank _ Hblank).
  by rewrite app_nil_r.
Qed.

End Render.


(** ** The history of conversions *)

Lemma take_app_take {A} (n : nat) (l k : list A) :
  take n (l ++ take n k) = take n (l ++ k).
Proof.
  rewrite !take_app, take_take. f_equal. f_equal. lia.
Qed.

Lemma push_history_length (h : HistoryEntry.t) (prev : list HistoryEntry.t) :
  length (push_history h prev) = min 400 (S (length prev)).
Proof. unfold push_history. by rewrite length_take. Qed.

Section History.

Variable new_URL : jsstring -> option URL.
Variable new_URLSearchParams : jsstring -> list (jsstring * jsstring).
Variable Number_toString : Q -> jsstring.
Variable uid_at : nat -> jsstring.
Variable toISOString_at : nat -> jsstring.
Variable engine_message : exn -> jsstring.

Abbreviation conv_of := (convert new_URL new_URLSearchParams Number_toString).
Abbreviation click :=
  (handleConvert new_URL new_URLSearchParams Number_toString uid_at
     toISOString_at engine_message).
Abbreviation clicks :=
  (convert_all new_URL new_URLSearchParams Number_toString uid_at
     toISOString_at engine_message).
Abbreviation added :=
  (added_entries new_URL new_URLSearchParams Number_toString toISOString_at).
Abbreviation success := (succeeds new_URL new_URLSearchParams Number_toString).

Lemma handleConvert_ok (st : Converter.t) (w : world) parsed url :
  conv_of (Converter.inputUrl st) (Converter.ref st) = Ok (parsed, url) ->
  click st w =
    (Ok (Converter.mk (Converter.inputUrl st) (Converter.ref st)
           (Some (Conv.mk url (Parsed.shop_type parsed) (Parsed.id parsed)
                    (Converter.ref st)))
           []
           (push_history
              (HistoryEntry.mk (Parsed.id parsed) (toISOString_at (date_calls w))
                 (Converter.inputUrl st) (Parsed.shop_type parsed)
                 (Converter.ref st) url)
              (Converter.history st))),
     World (localStorage w) (S (uid_calls w)) (S (date_calls w))).
Proof. intros H. unfold handleConvert. rewrite H. reflexivity. Qed.

Lemma handleConvert_throw (st : Converter.t) (w : world) (e : exn) :
  conv_of (Converter.inputUrl st) (Converter.ref st) = Throw e ->
  click st w =
    (Ok (Converter.mk (Converter.inputUrl st) (Converter.ref st) None
           (message engine_message e) (Converter.history st)),
     w).
Proof. intros H. unfold handleConvert. rewrite H. reflexivity. Qed.

(** After any run of conversions the history is the first 400 of: the
    added entries, newest first, followed by the history before. *)
Lemma convert_all_history (reqs : list (jsstring * jsstring)) :
  forall (st : Converter.t) (w : world),
  length (Converter.history st) <= 400 ->
  exists st' w',
    clicks reqs st w = (Ok st', w')
    /\ Converter.history st' =
         take 400 (reverse (added (date_calls w) reqs) ++ Converter.history st).
Proof.
  induction reqs as [|[i r] reqs IH]; intros st w Hlen.
  - exists st, w. split; [done|]. cbn. by rewrite take_ge.
  - cbn [convert_all added_entries].
    set (st0 := Converter.mk i r (Converter.conv st) (Converter.convErr st)
                  (Converter.history st)).
    unfold mbind, M_bind.
    destruct (conv_of i r) as [[parsed url]|e] eqn:Hc.
    + rewrite (handleConvert_ok st0 w parsed url Hc).
      match goal with |- context [clicks reqs ?s ?v] =>
        destruct (IH s v) as (st' & w' & Hrun & Hh) end.
      { cbn [Converter.history]. rewrite push_history_length. lia. }
      exists st', w'. split; [done|]. rewrite Hh.
      cbn [date_calls Converter.history Converter.inputUrl Converter.ref st0].
      unfold push_history.
      by rewrite take_app_take, reverse_cons, <- app_assoc.
    + rewrite (handleConvert_throw st0 w e Hc).
      match goal with |- context [clicks reqs ?s ?v] =>
        destruct (IH s v) as (st' & w' & Hrun & Hh) end.
      { done. }
      exists st', w'. by split.
Qed.

Lemma added_entries_length (reqs : list (jsstring * jsstring)) (d : nat) :
  Forall success reqs -> length (added d reqs) = length reqs.
Proof.
  intros H. revert d. induction H as [|[i r] reqs [res Hres] _ IH]; intros d.
  - done.
  - cbn [added_entries]. cbn in Hres. rewrite Hres. destruct res as [parsed url].
    cbn. by rewrite IH.
Qed.

(** C6. The history never exceeds 400 entries: a successful conversion
    puts exactly one new entry (the one of that conversion) in front and
    keeps the first 400, so that the oldest entry leaves when there were 400
    already; a failed conversion leaves the history as it is; so a run of
    successful conversions from the empty history leaves the entries it
    added, newest first, cut to the 400 most recent, and after 500 of them
    the history is exactly the last 400 added, newest first. *)
Theorem history_capped (reqs : list (jsstring * jsstring))
    (st : Converter.t) (w : world)
    (Hempty : Converter.history st = [])
    (Hok : Forall success reqs) :
  (forall st1 w1 parsed url,
      conv_of (Converter.inputUrl st1) (Converter.ref st1) = Ok (parsed, url) ->
      exists st2 w2, click st1 w1 = (Ok st2, w2)
        /\ Converter.history st2
           = take 400 (HistoryEntry.mk (Parsed.id parsed)
                         (toISOString_at (date_calls w1))
                         (Converter.inputUrl st1) (Parsed.shop_type parsed)
                         (Converter.ref st1) url
                       :: Converter.history st1)
        /\ length (Converter.history st2)
           = min 400 (S (length (Converter.history st1)))
        /\ (length (Converter.history st1) < 400 ->
            Converter.history st2
            = HistoryEntry.mk (Parsed.id parsed)
                (toISOString_at (date_calls w1))
                (Converter.inputUrl st1) (Parsed.shop_type parsed)
                (Converter.ref st1) url
              :: Converter.history st1)
        /\ (length (Converter.history st1) = 400 ->
            Converter.history st2
            = HistoryEntry.mk (Parsed.id parsed)
                (toISOString_at (date_calls w1))
                (Converter.inputUrl st1) (Parsed.shop_type parsed)
                (Converter.ref st1) url
              :: take 399 (Converter.history st1)))
  /\ (forall st1 w1 e,
        conv_of (Converter.inputUrl st1) (Converter.ref st1) = Throw e ->
        exists st2, click st1 w1 = (Ok st2, w1)
          /\ Converter.history st2 = Converter.history st1)
  /\ exists st' w',
      clicks reqs st w = (Ok st', w')
      /\ Converter.history st' = take 400 (reverse (added (date_calls w) reqs))
      /\ length (added (date_calls w) reqs) = length reqs
      /\ length (Converter.history st') = min 400 (length reqs)
      /\ (length reqs = 500 ->
          length (Converter.history st') = 400
          /\ Converter.history st'
             = reverse (drop 100 (added (date_calls w) reqs))).
Proof.
  split; [|split].
  - intros st1 w1 parsed url Hc.
    eexists _, _. split; [by apply handleConvert_ok|].
    cbn [Converter.history]. unfold push_history.
    split; [done|]. split; [by rewrite length_take|]. split.
    + intros Hlt. rewrite take_ge; [done|]. cbn. lia.
    + intros Heq. done.
  - intros st1 w1 e Hc. eexists. split; [by apply handleConvert_throw|]. done.
  - destruct (convert_all_history reqs st w) as (st' & w' & Hrun & Hh).
    { rewrite Hempty. cbn. lia. }
    rewrite Hempty, app_nil_r in Hh.
    exists st', w'. split; [done|]. split; [done|].
    split; [by apply added_entries_length|].
    assert (length (Converter.history st') = min 400 (length reqs)) as Hlen.
    { by rewrite Hh, length_take, length_reverse, added_entries_length. }
    split; [done|].
    intros H500. split; [lia|]. rewrite Hh.
    rewrite <- (take_drop 100 (added (date_calls w) reqs)) at 1.
    rewrite reverse_app, take_app_length'; [done|].
    rewrite length_reverse, length_drop, added_entries_length by done. lia.
Qed.

End History.

(** ** Bulk actions *)

Section SetOfList.

Context {A : Type} `{EqDecision A}.

Lemma Set_add_elem_of (acc : list A) (x y : A) :
  y ∈ Set_add acc x <-> y ∈ acc \/ y = x.
Proof.
  unfold Set_add. case_decide.
  - split; [by left | intros [?| ->]; done].
  - rewrite elem_of_app, list_elem_of_singleton. done.
Qed.

Lemma Set_add_NoDup (acc : list A) (x : A) :
  NoDup acc -> NoDup (Set_add acc x).
Proof.
  intros H. unfold Set_add. case_decide; [done|].
  apply NoDup_app. split; [done|]. split.
  - intros y Hy ->%list_elem_of_singleton. done.
  - apply NoDup_singleton.
Qed.

Lemma fold_Set_add_NoDup (l acc : list A) :
  NoDup acc -> NoDup (fold_left Set_add l acc).
Proof.
  revert acc. induction l as [|x l IH]; intros acc H; cbn; [done|].
  by apply IH, Set_add_NoDup.
Qed.

Lemma fold_Set_add_elem_of (l acc : list A) (y : A) :
  y ∈ fold_left Set_add l acc <-> y ∈ acc \/ y ∈ l.
Proof.
  revert acc. induction l as [|x l IH]; intros acc; cbn.
  - rewrite elem_of_nil. tauto.
  - rewrite IH, Set_add_elem_of, elem_of_cons. tauto.
Qed.

Lemma fold_Set_add_fresh (l acc : list A) :
  NoDup (acc ++ l) -> fold_left Set_add l acc = acc ++ l.
Proof.
  revert acc. induction l as [|x l IH]; intros acc H; cbn.
  - by rewrite app_nil_r.
  - assert (x ∉ acc) as Hx.
    { apply NoDup_app in H as (_ & H & _). intros Hin.
      apply (H x Hin). by left. }
    unfold Set_add at 2. rewrite decide_False by done.
    rewrite IH; rewrite <- app_assoc; done.
Qed.

Lemma Array_from_Set_NoDup (l : list A) : NoDup (Array_from_Set l).
Proof. apply fold_Set_add_NoDup, NoDup_nil_2. Qed.

Lemma Array_from_Set_elem_of (l : list A) (y : A) :
  y ∈ Array_from_Set l <-> y ∈ l.
Proof.
  unfold Array_from_Set. rewrite fold_Set_add_elem_of, elem_of_nil. tauto.
Qed.

Lemma Array_from_Set_id (l : list A) : NoDup l -> Array_from_Set l = l.
Proof. intros H. unfold Array_from_Set. by rewrite fold_Set_add_fresh. Qed.

Lemma Array_from_Set_snoc (l : list A) (x : A) :
  Array_from_Set (l ++ [x]) = Set_add (Array_from_Set l) x.
Proof. unfold Array_from_Set. by rewrite fold_left_app. Qed.

(** Adding [x] a second time changes nothing. *)
Lemma Array_from_Set_snoc_twice (l : list A) (x : A) :
  Array_from_Set (Array_from_Set (l ++ [x]) ++ [x]) = Array_from_Set (l ++ [x]).
Proof.
  rewrite (Array_from_Set_snoc (Array_from_Set _)).
  rewrite (Array_from_Set_id (Array_from_Set _)) by apply Array_from_Set_NoDup.
  unfold Set_add at 1. rewrite decide_True; [done|].
  apply Array_from_Set_elem_of. rewrite elem_of_app, list_elem_of_singleton. by right.
Qed.

End SetOfList.

Lemma bulkMove_selected (listName : jsstring) (products : list Product.t)
    (selection : gset jsstring) :
  size selection <> 0 ->
  bulkMove listName (products, selection) =
    (map (fun p => if decide (Product.uid p ∈ selection)
                   then Product.with_list p listName else p) products, ∅).
Proof. intros H. unfold bulkMove. by rewrite decide_False. Qed.

(** C1 (as the code has it). [bulkMove] does not validate its target: for
    every product collection, every selection that is not empty and every
    string [targetList], member of [LISTS] or not, it sets [list] to
    [targetList] on exactly the selected products, changes no other field of
    them, leaves the other products untouched, keeps the number and the
    order of the products, and clears the selection; nothing is ever
    rejected.  The move buttons of [BulkBar], the only callers, pass members
    of [LISTS] only; with an empty selection nothing changes. *)
Theorem bulkMove_moves_selected (targetList : jsstring)
    (products : list Product.t) (selection : gset jsstring)
    (Hsel : size selection <> 0) :
  let products' := (bulkMove targetList (products, selection)).1 in
  length products' = length products
  /\ (forall i p, products !! i = Some p ->
        exists p', products' !! i = Some p'
          /\ (Product.uid p ∈ selection ->
                Product.list p' = targetList
                /\ p' = Product.with_list p targetList)
          /\ (Product.uid p ∉ selection -> p' = p))
  /\ (bulkMove targetList (products, selection)).2 = ∅
  /\ (forall i st, exists l,
        l ∈ LISTS /\ (BulkBar_move_click i st = bulkMove l st
                      \/ BulkBar_move_click i st = st))
  /\ (forall l, bulkMove l (products, ∅) = (products, ∅)).
Proof.
  intros products'. subst products'. rewrite (bulkMove_selected _ _ _ Hsel). cbn [fst snd].
  split; [by rewrite length_map|]. split; [|split; [done|split]].
  - intros i p Hp. rewrite list_lookup_fmap, Hp. cbn.
    eexists. split; [done|]. split.
    + intros Hin. by rewrite decide_True.
    + intros Hnin. by rewrite decide_False.
  - intros i st. unfold BulkBar_move_click.
    destruct (LISTS !! i) as [l|] eqn:Hl.
    + exists l. split; [|by left]. by eapply list_elem_of_lookup_2.
    + exists (lit "Wishlist"). split; [|by right]. by left.
  - intros l. reflexivity.
Qed.

(** A target outside [LISTS] is written to the selected product. *)
Lemma bulkMove_not_validated :
  let products := [Sample.product (lit "a") (lit "Wishlist") [] [];
                   Sample.product (lit "b") (lit "Wishlist") [] []] in
  let selection : gset jsstring := {[ lit "a" ]} in
  size selection <> 0
  /\ (lit "NotARealList" ∉ LISTS)
  /\ map Product.list (bulkMove (lit "NotARealList") (products, selection)).1
     = [lit "NotARealList"; lit "Wishlist"]
  /\ map Product.list (bulkMove (lit "NotARealList") (products, selection)).1
     <> map Product.list products.
Proof.
  cbv zeta. split; [|split; [|split]].
  - by vm_compute.
  - apply (bool_decide_unpack _). by vm_compute.
  - by vm_compute.
  - by vm_compute.
Qed.

Lemma bulkMove_moves_selected_witness :
  let products := [Sample.product (lit "a") (lit "Wishlist") [] [];
                   Sample.product (lit "b") (lit "Wishlist") [] []] in
  let selection : gset jsstring := {[ lit "a" ]} in
  length (bulkMove (lit "Ordered") (products, selection)).1 = length products.
Proof.
  cbv zeta.
  refine (proj1 (bulkMove_moves_selected (lit "Ordered")
    [Sample.product (lit "a") (lit "Wishlist") [] [];
     Sample.product (lit "b") (lit "Wishlist") [] []]
    ({[ lit "a" ]} : gset jsstring) _)).
  vm_compute. discriminate.
Defined.

Lemma uid_with_tags (p : Product.t) (ts : list jsstring) :
  Product.uid (Product.with_tags p ts) = Product.uid p.
Proof. reflexivity. Qed.

Lemma tags_with_tags (p : Product.t) (ts : list jsstring) :
  Product.tags (Product.with_tags p ts) = ts.
Proof. reflexivity. Qed.

Lemma with_tags_twice (p : Product.t) (a b : list jsstring) :
  Product.with_tags (Product.with_tags p a) b = Product.with_tags p b.
Proof. by destruct p. Qed.

Lemma bulkAddTag_nonempty (tag : jsstring) (products : list Product.t)
    (selection : gset jsstring) :
  tag <> [] ->
  bulkAddTag tag (products, selection) =
    (map (fun p => if decide (Product.uid p ∈ selection)
                   then Product.with_tags p (Array_from_Set (Product.tags p ++ [tag]))
                   else p) products, selection).
Proof. intros H. unfold bulkAddTag. by destruct tag. Qed.

Lemma bulkAddTag_twice (tag : jsstring) (st : list Product.t * gset jsstring) :
  bulkAddTag tag (bulkAddTag tag st) = bulkAddTag tag st.
Proof.
  destruct st as [products selection].
  destruct (decide (tag = [])) as [->|Hne]; [done|].
  rewrite !(bulkAddTag_nonempty _ _ _ Hne). f_equal.
  rewrite map_map. apply map_ext. intros p.
  destruct (decide (Product.uid p ∈ selection)) as [Hin|Hnin].
  - rewrite uid_with_tags, decide_True by done.
    rewrite with_tags_twice, tags_with_tags. f_equal.
    apply Array_from_Set_snoc_twice.
  - by rewrite decide_False.
Qed.

(** C5 (as the code has it). [bulkAddTag] changes nothing when the tag is
    the empty string and does not trim: any other tag, white space included,
    is added.  With a tag [t] that is not empty, every selected product gets
    the tags [Array.from(new Set([...tags, t]))], which contain no
    duplicate, have exactly the old tags and [t] as members, and are the old
    tags (when [t] was among them) or the old tags followed by [t] (when
    not) if the old tags had no duplicate; the other fields, the other
    products and the selection are untouched; adding the same tag twice gives
    the same as adding it once; and a tag list without duplicates never gets
    one.  The tag field of [BulkBar] trims its text and calls [bulkAddTag]
    with the trimmed text only when something is left. *)
Theorem bulkAddTag_idempotent (t : jsstring)
    (products : list Product.t) (selection : gset jsstring) :
  let st := (products, selection) in
  let products' := (bulkAddTag t st).1 in
  (t = [] -> bulkAddTag t st = st)
  /\ (t <> [] ->
      length products' = length products
      /\ forall i p, products !! i = Some p ->
           exists p', products' !! i = Some p'
             /\ (Product.uid p ∉ selection -> p' = p)
             /\ (Product.uid p ∈ selection ->
                   p' = Product.with_tags p (Product.tags p')
                   /\ t ∈ Product.tags p'
                   /\ NoDup (Product.tags p')
                   /\ (forall x, x ∈ Product.tags p' <-> x ∈ Product.tags p \/ x = t)
                   /\ (NoDup (Product.tags p) ->
                       Product.tags p' =
                         if decide (t ∈ Product.tags p)
                         then Product.tags p
                         else Product.tags p ++ [t])))
  /\ (bulkAddTag t st).2 = selection
  /\ bulkAddTag t (bulkAddTag t st) = bulkAddTag t st
  /\ (forall i p p', products !! i = Some p -> products' !! i = Some p' ->
        NoDup (Product.tags p) -> NoDup (Product.tags p'))
  /\ (forall text,
        (trim text = [] -> BulkBar_tag_click text st = st)
        /\ (trim text <> [] ->
            BulkBar_tag_click text st = bulkAddTag (trim text) st)).
Proof.
  intros st products'. subst st products'.
  assert (forall text,
        (trim text = [] -> BulkBar_tag_click text (products, selection)
                           = (products, selection))
        /\ (trim text <> [] ->
            BulkBar_tag_click text (products, selection)
            = bulkAddTag (trim text) (products, selection))) as Hbar.
  { intros text. unfold BulkBar_tag_click.
    destruct (trim text) as [|c r]; by split. }
  destruct (decide (t = [])) as [-> | Hne].
  { split; [done|]. split; [done|]. split; [done|]. split; [done|].
    split; [|done]. intros i p p' Hp Hp'. cbn in Hp'. congruence. }
  assert (forall i p, products !! i = Some p ->
           (bulkAddTag t (products, selection)).1 !! i =
           Some (if decide (Product.uid p ∈ selection)
                 then Product.with_tags p (Array_from_Set (Product.tags p ++ [t]))
                 else p)) as Hlook.
  { intros i p Hp. rewrite (bulkAddTag_nonempty _ _ _ Hne). cbn [fst].
    by rewrite list_lookup_fmap, Hp. }
  split; [done|]. split; [|split; [|split; [|split; [|done]]]].
  - intros _. split.
    { rewrite (bulkAddTag_nonempty _ _ _ Hne). cbn [fst]. by rewrite length_map. }
    intros i p Hp. eexists. split; [by apply Hlook|]. split.
    + intros Hnin. by rewrite decide_False.
    + intros Hin. rewrite decide_True by done.
      cbn [Product.tags Product.with_tags]. split; [done|].
      assert (forall x, x ∈ Array_from_Set (Product.tags p ++ [t])
                        <-> x ∈ Product.tags p \/ x = t) as Hmem.
      { intros x. by rewrite Array_from_Set_elem_of, elem_of_app,
          list_elem_of_singleton. }
      split; [by apply Hmem; right|]. split; [|split; [done|]].
      * apply Array_from_Set_NoDup.
      * intros Hnd. rewrite Array_from_Set_snoc, (Array_from_Set_id _ Hnd).
        reflexivity.
  - by rewrite (bulkAddTag_nonempty _ _ _ Hne).
  - by rewrite bulkAddTag_twice.
  - intros i p p' Hp Hp' Hnd. rewrite (Hlook i p Hp) in Hp'.
    injection Hp' as <-. case_decide; [|done].
    cbn [Product.tags Product.with_tags]. apply Array_from_Set_NoDup.
Qed.

(** A tag of white space only is empty after trimming, and [bulkAddTag]
    adds it. *)
Lemma bulkAddTag_blank_tag :
  let products := [Sample.product (lit "a") (lit "Wishlist") [] [lit "x"];
                   Sample.product (lit "b") (lit "Wishlist") [] [lit "x"]] in
  let selection : gset jsstring := {[ lit "a" ]} in
  trim (lit "  ") = []
  /\ map Product.tags (bulkAddTag (lit "  ") (products, selection)).1
     = [[lit "x"; lit "  "]; [lit "x"]]
  /\ bulkAddTag (lit "  ") (products, selection) <> (products, selection).
Proof.
  cbv zeta. split; [by vm_compute|]. split; [by vm_compute|].
  intros H. apply (f_equal (fun st => map Product.tags st.1)) in H.
  vm_compute in H. discriminate H.
Qed.

(** ** Sorting by price *)

Section Sort.

Variable localeCompare : jsstring -> jsstring -> number.

Abbreviation cmp := (bySort localeCompare).

Lemma bySort_price_asc (a b : Product.t) :
  cmp (lit "price_asc") a b =
  sub (Number_price (Product.price a)) (Number_price (Product.price b)).
Proof. reflexivity. Qed.

Lemma bySort_price_desc (a b : Product.t) :
  cmp (lit "price_desc") a b =
  sub (Number_price (Product.price b)) (Number_price (Product.price a)).
Proof. reflexivity. Qed.

(** The empty price counts as 0. *)
Lemma Number_price_empty : Number_price [] = Fin 0.
Proof. reflexivity. Qed.

(** A price that is not numeric makes the comparator return NaN, whatever
    the other product is. *)
Lemma bySort_price_NaN (a b : Product.t) :
  Number_price (Product.price a) = NaN \/ Number_price (Product.price b) = NaN ->
  cmp (lit "price_asc") a b = NaN /\ cmp (lit "price_desc") a b = NaN.
Proof.
  rewrite bySort_price_asc, bySort_price_desc.
  intros [H | H]; rewrite H; split;
    by repeat match goal with |- context [Number_price ?p] =>
                destruct (Number_price p) end.
Qed.

(** C3 (the code at a price that is not numeric). With the prices [abc],
    [5] and [1]: [Number(abc)] is NaN, not 0; the comparator of
    [price_asc] and of [price_desc] returns NaN on [abc] against [5], which
    the sort reads as a tie, where a price of 0 orders before 5; [abc]
    ties with [1] and with [5] although [1] orders before [5], so the
    comparator is not a consistent order.  Two empty prices do compare
    equal. *)
Theorem bySort_price_not_numeric :
  let abc := Sample.product (lit "a") (lit "Wishlist") (lit "abc") [] in
  let five := Sample.product (lit "b") (lit "Wishlist") (lit "5") [] in
  let one := Sample.product (lit "c") (lit "Wishlist") (lit "1") [] in
  let zero := Sample.product (lit "d") (lit "Wishlist") (lit "0") [] in
  let none := Sample.product (lit "e") (lit "Wishlist") [] [] in
  Number_price (lit "abc") = NaN
  /\ cmp (lit "price_asc") abc five = NaN
  /\ cmp (lit "price_desc") abc five = NaN
  /\ SortCompare (cmp (lit "price_asc") abc five) = Eq
  /\ SortCompare (cmp (lit "price_asc") zero five) = Lt
  /\ SortCompare (cmp (lit "price_asc") none five) = Lt
  /\ SortCompare (cmp (lit "price_asc") one abc) = Eq
  /\ SortCompare (cmp (lit "price_asc") one five) = Lt
  /\ SortCompare (cmp (lit "price_asc") none none) = Eq.
Proof. cbv zeta. repeat split; reflexivity. Qed.

End Sort.

(** ** Export and import *)

Ltac lit_neq := let H := fresh in intros H; vm_compute in H; discriminate H.

Lemma Alert_reussi_not_invalide (m : jsstring) : Alert.reussi <> Alert.invalide ++ m.
Proof. lit_neq. Qed.

Section Codec.

Variable engine_message : exn -> jsstring.

Abbreviation import := (import_json engine_message).

(** On anything but [null] and an array, the handler reads the two
    properties and reports success. *)
Lemma import_not_array (data : value) (products : list value) (settings : value) :
  data <> VNull -> (forall l, data <> VArr l) ->
  exists dp ds,
    Get data (lit "products") = Ok dp /\ Get data (lit "settings") = Ok ds
    /\ import (JSON_text data) (products, settings) =
       (Alert.reussi,
        (match dp with Some (VArr l) => l | _ => products end,
         if truthy_opt ds
         then VObj (spread ds ∪ spread (Some settings))
         else settings)).
Proof.
  intros Hnull Harr. destruct data as [| b | q | s | l | o]; try done.
  - by eexists None, None.
  - by eexists None, None.
  - by eexists None, None.
  - by destruct (Harr l).
  - by eexists (o !! lit "products"), (o !! lit "settings").
Qed.

(** C9. Importing a JSON value that is not [null], not an array and not
    an object with an array under [products] or with a property
    [settings] (a number, a string, a boolean, an object of other keys)
    shows the success alert and changes neither the products nor the
    settings; importing the text [null], which [JSON.parse] accepts, shows
    the error alert, because reading [products] of [null] throws, and
    changes nothing either. *)
Theorem import_unrelated_value (data : value)
    (products : list value) (settings : value)
    (Hnull : data <> VNull)
    (Harr : forall l, data <> VArr l)
    (Hobj : forall o, data = VObj o ->
              (forall l, o !! lit "products" <> Some (VArr l))
              /\ o !! lit "settings" = None) :
  import (JSON_text data) (products, settings)
    = (Alert.reussi, (products, settings))
  /\ JSON_parse (Some (JSON_text VNull)) = Ok VNull
  /\ Get VNull (lit "products") = Throw TypeError
  /\ import (JSON_text VNull) (products, settings)
     = (Alert.invalide ++ engine_message TypeError, (products, settings))
  /\ (forall m, Alert.reussi <> Alert.invalide ++ m).
Proof.
  split; [|repeat split; apply Alert_reussi_not_invalide].
  destruct data as [| b | q | s | l | o]; try done.
  - by destruct (Harr l).
  - destruct (Hobj o eq_refl) as [Hp Hs].
    unfold import_json. cbn. rewrite Hs. cbn.
    destruct (o !! lit "products") as [[]|] eqn:E; try done.
    by destruct (Hp l).
Qed.

(** C8. The exported document is an object with exactly the two
    properties [settings] and [products], holding the settings and the
    array of products; it parses again; importing it replaces the
    products by the exported array and merges the exported settings over
    the current ones, so that importing it into the state it was exported
    from gives that state back. *)
Theorem export_import_roundtrip (products : list value) (o : gmap jsstring value) :
  let settings := VObj o in
  let doc := export_json settings products in
  (exists m, doc = JSON_text (VObj m)
     /\ JSON_parse (Some doc) = Ok (VObj m)
     /\ dom m = {[ lit "settings"; lit "products" ]}
     /\ m !! lit "settings" = Some settings
     /\ m !! lit "products" = Some (VArr products))
  /\ import doc (products, settings) = (Alert.reussi, (products, settings))
  /\ (forall products0 o0,
        import doc (products0, VObj o0)
        = (Alert.reussi, (products, VObj (o ∪ o0)))).
Proof.
  intros settings doc. subst settings doc.
  assert (lit "products" <> lit "settings") as Hne by lit_neq.
  assert (forall products0 o0,
        import (export_json (VObj o) products) (products0, VObj o0)
        = (Alert.reussi, (products, VObj (o ∪ o0)))) as Himp.
  { intros products0 o0. unfold import_json, export_json, object_of. cbn.
    rewrite lookup_insert_eq. cbn.
    rewrite lookup_insert_ne, lookup_insert_eq by done. done. }
  split; [|split; [|done]].
  - eexists. split; [reflexivity|]. split; [reflexivity|].
    unfold object_of. cbn. split; [|split].
    + rewrite !dom_insert_L, dom_empty_L. set_solver.
    + by rewrite lookup_insert_ne, lookup_insert_eq.
    + by rewrite lookup_insert_eq.
  - rewrite Himp. by rewrite (idemp_L (∪) o).
Qed.

End Codec.

(** ** Migration *)

Lemma keeps_store_ret {A} (a : A) : keeps_store (mret a).
Proof. by intros w. Qed.

Lemma keeps_store_lift {A} (r : result A) : keeps_store (lift r).
Proof. by intros w. Qed.

Lemma keeps_store_bind {A B} (m : M A) (f : A -> M B) :
  keeps_store m -> (forall a, keeps_store (f a)) -> keeps_store (m ≫= f).
Proof.
  intros Hm Hf w. unfold mbind, M_bind. specialize (Hm w).
  destruct (m w) as [[a|e] w']; cbn in *; [|done].
  by rewrite Hf.
Qed.

Lemma keeps_store_fmap {A B} (g : A -> B) (m : M A) :
  keeps_store m -> keeps_store (g <$> m).
Proof.
  intros Hm w. unfold fmap, M_fmap. specialize (Hm w).
  by destruct (m w) as [[a|e] w'].
Qed.

Lemma keeps_store_uid (uid_at : nat -> jsstring) : keeps_store (uid uid_at).
Proof. by intros w. Qed.

Lemma keeps_store_Date (toISOString_at : nat -> jsstring) :
  keeps_store (Date_toISOString toISOString_at).
Proof. by intros w. Qed.

Lemma keeps_store_or_else (a : option value) (b : M value) :
  keeps_store b -> keeps_store (or_else a b).
Proof. intros Hb. unfold or_else. case_match; [apply keeps_store_ret | done]. Qed.

Create HintDb keeps discriminated.
#[local] Hint Resolve keeps_store_ret keeps_store_lift keeps_store_fmap
  keeps_store_uid keeps_store_Date keeps_store_or_else : keeps.

Ltac keeps :=
  repeat first
    [ solve [auto 6 with keeps]
    | apply keeps_store_or_else
    | apply keeps_store_fmap
    | apply keeps_store_bind; [| intros ?] ].

Section StoreReads.

Variable Number_toString : Q -> jsstring.
Variable uid_at : nat -> jsstring.
Variable toISOString_at : nat -> jsstring.
Variable setItem : gmap jsstring text -> jsstring -> text -> option (gmap jsstring text).

Abbreviation migrate0 := (migrateIfNeeded Number_toString uid_at toISOString_at setItem).
Abbreviation record0 := (migrate_record Number_toString uid_at toISOString_at).

Lemma migrate_record_keeps_store (x : value) : keeps_store (record0 x).
Proof. unfold migrate_record. keeps. Qed.

Lemma mapM_keeps_store (l : list value) : keeps_store (mapM record0 l).
Proof.
  induction l as [|x l IH]; cbn [mapM].
  - apply keeps_store_ret.
  - apply keeps_store_bind; [apply migrate_record_keeps_store|]. intros y.
    apply keeps_store_bind; [done|]. intros k. apply keeps_store_ret.
Qed.

(** What [loadJSON] returns; it changes nothing. *)
Lemma loadJSON_run (key : jsstring) (fallback : value) (w : world) :
  loadJSON key fallback w =
    (Ok (match JSON_parse (localStorage w !! key) with
         | Ok v => nullish v fallback
         | Throw _ => fallback
         end), w).
Proof. unfold loadJSON. by destruct (JSON_parse _). Qed.

Lemma loadJSON_truthy (key : jsstring) (w : world) (v : value) :
  loadJSON key VNull w = (Ok v, w) -> truthy v = true ->
  localStorage w !! key = Some (JSON_text v).
Proof.
  rewrite loadJSON_run. intros H Hv. injection H as <-.
  destruct (localStorage w !! key) as [[u|s]|]; cbn in *; try done.
  by destruct u.
Qed.

Lemma loadJSON_stored (key : jsstring) (w : world) (v : value) :
  localStorage w !! key = Some (JSON_text v) -> truthy v = true ->
  loadJSON key VNull w = (Ok v, w).
Proof.
  intros H Hv. rewrite loadJSON_run, H. cbn. by destruct v.
Qed.

Lemma saveJSON_run (key : jsstring) (val : value) (w : world) :
  always_stores setItem ->
  saveJSON setItem key val w =
    (Ok tt, World (<[key := JSON_text val]> (localStorage w))
              (uid_calls w) (date_calls w)).
Proof. intros H. unfold saveJSON. by rewrite H. Qed.

(** Step 1 of the procedure: with a truthy value under the products key
    the procedure returns it and touches nothing. *)
Lemma migrate_short_circuit (w : world) (v : value) :
  localStorage w !! LS.products = Some (JSON_text v) -> truthy v = true ->
  exists s h, migrate0 w = (Ok (Boot.mk v s h), w).
Proof.
  intros H Hv. unfold migrateIfNeeded, mbind, M_bind, mret, M_ret.
  rewrite (loadJSON_stored _ _ _ H Hv).
  repeat (rewrite loadJSON_run; cbv beta iota). rewrite Hv.
  by eexists _, _.
Qed.

Lemma keeps_store_loadJSON (key : jsstring) (fallback : value) :
  keeps_store (loadJSON key fallback).
Proof. intros w. by rewrite loadJSON_run. Qed.

(** With a store that refuses every write (full or unavailable) no run
    changes anything in it. *)
Lemma migrate_keeps_full_store :
  (forall st k t, setItem st k t = None) -> keeps_store migrate0.
Proof.
  intros Hfull.
  assert (forall k v, keeps_store (saveJSON setItem k v)) as Hsave.
  { intros k v w. unfold saveJSON. by rewrite Hfull. }
  pose proof mapM_keeps_store as HmapM.
  pose proof keeps_store_loadJSON as Hload.
  unfold migrateIfNeeded.
  apply keeps_store_bind; [done|]. intros products.
  apply keeps_store_bind; [keeps|]. intros settings.
  apply keeps_store_bind; [keeps|]. intros history.
  case_match; [apply keeps_store_ret|].
  apply keeps_store_bind; [done|]. intros legacy.
  apply keeps_store_bind; [keeps|]. intros legacyHistory.
  destruct legacy; keeps.
Qed.

End StoreReads.

Section Migration.

Variable Number_toString : Q -> jsstring.
Variable uid_at : nat -> jsstring.
Variable toISOString_at : nat -> jsstring.
Variable setItem : gmap jsstring text -> jsstring -> text -> option (gmap jsstring text).

Abbreviation migrate := (migrateIfNeeded Number_toString uid_at toISOString_at setItem).
Abbreviation record := (migrate_record Number_toString uid_at toISOString_at).

Lemma LS_keys_distinct :
  LS.history <> LS.products /\ LS.settings <> LS.products.
Proof. split; lit_neq. Qed.

(** What a run leaves in the store when it did not find a truthy value
    under the products key and did not throw: the array it returns under
    the products key, and what was there before under every key other than
    the three current ones. *)
Lemma migrate_writes_products (w w1 : world) (boot : Boot.t) :
  always_stores setItem ->
  match JSON_parse (localStorage w !! LS.products) with
  | Ok v => truthy v = false
  | Throw _ => True
  end ->
  migrate w = (Ok boot, w1) ->
  localStorage w1 !! LS.products = Some (JSON_text (Boot.products boot))
  /\ (exists l, Boot.products boot = VArr l)
  /\ (forall k, k <> LS.products -> k <> LS.settings -> k <> LS.history ->
        localStorage w1 !! k = localStorage w !! k).
Proof.
  intros Hset Hfalsy Hrun. destruct LS_keys_distinct as [Hh Hs].
  unfold migrateIfNeeded, mbind, M_bind, mret, M_ret in Hrun.
  repeat (rewrite loadJSON_run in Hrun; cbv beta iota in Hrun).
  assert (truthy (match JSON_parse (localStorage w !! LS.products) with
                  | Ok v => nullish v VNull
                  | Throw _ => VNull
                  end) = false) as Hf.
  { destruct (JSON_parse _) as [v|e]; [|done]. by destruct v. }
  rewrite Hf in Hrun.
  repeat (rewrite loadJSON_run in Hrun; cbv beta iota in Hrun).
  destruct (match JSON_parse (localStorage w !! LS.legacySaved) with
            | Ok v => nullish v VNull
            | Throw _ => VNull
            end) as [| b | q | s | l | o] eqn:Hlegacy;
    try (rewrite !saveJSON_run in Hrun by done; cbv beta iota in Hrun;
         injection Hrun as <- <-; cbn;
         split; [by rewrite !lookup_insert_ne, lookup_insert_eq by done|];
         split; [by eexists|];
         intros k Hk1 Hk2 Hk3; by rewrite !lookup_insert_ne by done).
  pose proof (mapM_keeps_store Number_toString uid_at toISOString_at l w) as Hkeep.
  destruct (mapM record l w) as [[migrated|e] w'] eqn:Hmap; [|done].
  cbn in Hkeep.
  rewrite !saveJSON_run in Hrun by done. cbv beta iota in Hrun.
  injection Hrun as <- <-. cbn.
  split; [by rewrite lookup_insert_ne, lookup_insert_eq by done|].
  split; [by eexists|].
  intros k Hk1 Hk2 Hk3. by rewrite !lookup_insert_ne, Hkeep by done.
Qed.

(** C2 (as the code has it). Provided the store takes the writes of the
    first run, after a run of [migrateIfNeeded] that returned (it found
    current data, migrated the legacy data or initialised an empty state)
    the products key holds
    the products that the run returned, a truthy value (an array, possibly
    empty, in the last two cases); a second run then reads that key, returns
    what it holds and changes nothing: it returns the same world whatever
    [setItem] would do, so it writes nothing, and the products key is as the
    first run left it. *)
Theorem migrateIfNeeded_twice (w w1 : world) (boot : Boot.t)
    (Hset : always_stores setItem)
    (Hrun : migrate w = (Ok boot, w1)) :
  localStorage w1 !! LS.products = Some (JSON_stringify (Boot.products boot))
  /\ truthy (Boot.products boot) = true
  /\ (localStorage w !! LS.products = None -> exists l, Boot.products boot = VArr l)
  /\ (localStorage w = ∅ -> Boot.products boot = VArr [])
  /\ localStorage w1 !! LS.legacySaved = localStorage w !! LS.legacySaved
  /\ localStorage w1 !! LS.legacyHistory = localStorage w !! LS.legacyHistory
  /\ forall setItem2, exists boot2,
       migrateIfNeeded Number_toString uid_at toISOString_at setItem2 w1
         = (Ok boot2, w1)
       /\ Boot.products boot2 = Boot.products boot.
Proof.
  assert (localStorage w1 !! LS.products = Some (JSON_text (Boot.products boot))
          /\ truthy (Boot.products boot) = true
          /\ (localStorage w !! LS.products = None ->
              exists l, Boot.products boot = VArr l)
          /\ (forall k, k <> LS.products -> k <> LS.settings -> k <> LS.history ->
                localStorage w1 !! k = localStorage w !! k))
    as (Hstored & Htruthy & Harr & Hframe).
  { destruct (JSON_parse (localStorage w !! LS.products)) as [v|e] eqn:Hparse.
    - destruct (truthy v) eqn:Hv.
      + assert (localStorage w !! LS.products = Some (JSON_text v)) as Hlook.
        { destruct (localStorage w !! LS.products) as [[u|s]|]; cbn in Hparse.
          - by injection Hparse as ->.
          - done.
          - by injection Hparse as <-. }
        destruct (migrate_short_circuit Number_toString uid_at toISOString_at
                    setItem w v Hlook Hv) as (s & h & Hsc).
        rewrite Hsc in Hrun. injection Hrun as <- <-. cbn.
        split; [done|]. split; [done|]. split; [|done].
        intros Hnone. congruence.
      + destruct (migrate_writes_products w w1 boot Hset) as (Hl & [l Hb] & Hfr);
          [by rewrite Hparse | done |].
        split; [done|]. rewrite Hb. split; [done|]. split; [by eexists | done].
    - destruct (migrate_writes_products w w1 boot Hset) as (Hl & [l Hb] & Hfr);
        [by rewrite Hparse | done |].
      split; [done|]. rewrite Hb. split; [done|]. split; [by eexists | done]. }
  split; [done|]. split; [done|]. split; [done|].
  assert (forall k, k = LS.legacySaved \/ k = LS.legacyHistory ->
            localStorage w1 !! k = localStorage w !! k) as Hlegacy.
  { intros k Hk. apply Hframe; destruct Hk as [-> | ->]; lit_neq. }
  split; [|split; [by apply Hlegacy; left | split; [by apply Hlegacy; right|]]].
  - intros Hempty. revert Hrun.
    unfold migrateIfNeeded, mbind, M_bind, mret, M_ret.
    repeat (rewrite loadJSON_run; cbv beta iota).
    rewrite Hempty, !lookup_empty. cbn [JSON_parse nullish truthy].
    repeat (rewrite loadJSON_run; cbv beta iota).
    rewrite Hempty, !lookup_empty. cbn [JSON_parse nullish truthy].
    rewrite !saveJSON_run by done. cbv beta iota.
    by intros [= <- _].
  - intros setItem2.
    destruct (migrate_short_circuit Number_toString uid_at toISOString_at
                setItem2 w1 _ Hstored Htruthy) as (s & h & Hsc).
    eexists. split; [exact Hsc|]. done.
Qed.

End Migration.

(** ** The program on the sample platform *)

Example parse_weidian :
  Sample.parseShopUrl (lit "https://weidian.com/item.html?itemID=123")
  = Ok (Parsed.mk (lit "weidian") (lit "123")).
Proof. reflexivity. Qed.

Example parse_taobao :
  Sample.parseShopUrl (lit "https://item.taobao.com/item.htm?id=456")
  = Ok (Parsed.mk (lit "taobao") (lit "456")).
Proof. reflexivity. Qed.

Example parse_empty_and_malformed :
  Sample.parseShopUrl (lit "") = Throw (Error Msg.URL_manquante)
  /\ Sample.parseShopUrl (lit "not a url") = Throw (Error Msg.URL_invalide).
Proof. split; reflexivity. Qed.

(** A hostname with both domains follows the rule of the first. *)
Example parse_both_domains :
  Sample.parseShopUrl (lit "https://weidian.com.taobao.com/?id=5")
  = Throw (Error Msg.itemID_manquant).
Proof. reflexivity. Qed.

Lemma toMulebuy_blank_ref_witness :
  blank (lit "  ") /\ lit "  " <> []
  /\ Sample.toMulebuy (Some (VStr (lit "weidian"))) (Some (VStr (lit "123")))
       (Some (VStr (lit "  ")))
     = Ok (lit "https://mulebuy.com/product/?shop_type=weidian&id=123&ref=").
Proof.
  assert (blank (lit "  ")) as Hb by (by repeat constructor).
  assert (lit "  " <> []) as Hn by lit_neq.
  split; [exact Hb|]. split; [exact Hn|].
  exact (proj2 (proj2 (proj2
    (toMulebuy_blank_ref Sample.Number_toString (lit "weidian") (lit "123")
       (lit "  ") Hb Hn)))).
Defined.

Lemma history_capped_witness :
  Converter.history Sample.converter0 = []
  /\ length Sample.requests = 500
  /\ exists st w,
       convert_all Sample.new_URL Sample.new_URLSearchParams
         Sample.Number_toString Sample.uid_at Sample.toISOString_at
         Sample.engine_message Sample.requests Sample.converter0
         (World ∅ 0 0) = (Ok st, w)
       /\ length (Converter.history st) = 400.
Proof.
  split; [reflexivity|]. split; [by vm_compute|].
  assert (Forall (succeeds Sample.new_URL Sample.new_URLSearchParams
                    Sample.Number_toString) Sample.requests) as Hok.
  { apply (bool_decide_unpack _). by vm_compute. }
  destruct (history_capped Sample.new_URL Sample.new_URLSearchParams
              Sample.Number_toString Sample.uid_at Sample.toISOString_at
              Sample.engine_message Sample.requests Sample.converter0
              (World ∅ 0 0) eq_refl Hok)
    as (_ & _ & st & w & Hrun & _ & _ & Hlen & _).
  exists st, w. split; [exact Hrun|]. rewrite Hlen. by vm_compute.
Defined.

Lemma import_unrelated_value_witness :
  import_json Sample.engine_message (JSON_text (VNum 5))
    ([VStr (lit "p")], DEFAULT_SETTINGS.object)
  = (Alert.reussi, ([VStr (lit "p")], DEFAULT_SETTINGS.object)).
Proof.
  refine (proj1 (import_unrelated_value Sample.engine_message (VNum 5)
                   [VStr (lit "p")] DEFAULT_SETTINGS.object _ _ _)).
  - discriminate.
  - intros l. discriminate.
  - intros o. discriminate.
Defined.

Lemma migrateIfNeeded_twice_witness :
  always_stores Sample.setItem
  /\ exists boot w1,
       migrateIfNeeded Sample.Number_toString Sample.uid_at
         Sample.toISOString_at Sample.setItem Sample.legacy_world = (Ok boot, w1)
       /\ (exists l, Boot.products boot = VArr l /\ length l = 1)
       /\ exists boot2,
            migrateIfNeeded Sample.Number_toString Sample.uid_at
              Sample.toISOString_at Sample.setItem w1 = (Ok boot2, w1)
            /\ Boot.products boot2 = Boot.products boot.
Proof.
  assert (always_stores Sample.setItem) as Hset by (by intros st k t).
  split; [exact Hset|].
  destruct (migrateIfNeeded Sample.Number_toString Sample.uid_at
              Sample.toISOString_at Sample.setItem Sample.legacy_world)
    as [[boot|e] w1] eqn:Hrun.
  - exists boot, w1. split; [reflexivity|].
    destruct (migrateIfNeeded_twice Sample.Number_toString Sample.uid_at
                Sample.toISOString_at Sample.setItem Sample.legacy_world w1 boot
                Hset Hrun) as (_ & _ & _ & _ & _ & _ & Hsecond).
    destruct (Hsecond Sample.setItem) as (boot2 & H2 & Hp).
    split.
    + vm_compute in Hrun. injection Hrun as <- _. by eexists.
    + exists boot2. by split.
  - vm_compute in Hrun. discriminate Hrun.
Defined.

(** The second run is not a no-op when the store refuses a write of the
    first run, which [saveJSON] swallows.  On a store that holds one legacy
    record and refuses the first write of the products key, the first run
    migrates the record and returns, leaving no products key; the second run
    does not find the key, migrates again (the product gets another uid) and
    this time writes the key: it is not a no-op and the products key is not
    as the first run left it.  On a store that refuses every write the
    second run migrates again as well. *)
Lemma migrateIfNeeded_twice_refused_write :
  let migrate_with setItem :=
    migrateIfNeeded Sample.Number_toString Sample.uid_at Sample.toISOString_at
      setItem in
  (exists boot1 w1 boot2 w2 o1 o2,
     migrate_with sample_refusing_store Sample.legacy_world = (Ok boot1, w1)
     /\ migrate_with sample_refusing_store w1 = (Ok boot2, w2)
     /\ localStorage w1 !! LS.products = None
     /\ localStorage w2 !! LS.products = Some (JSON_stringify (Boot.products boot2))
     /\ localStorage w2 !! LS.products <> localStorage w1 !! LS.products
     /\ Boot.products boot1 = VArr [VObj o1]
     /\ Boot.products boot2 = VArr [VObj o2]
     /\ o1 !! lit "uid" = Some (VStr (Sample.uid_at 0))
     /\ o2 !! lit "uid" = Some (VStr (Sample.uid_at 1))
     /\ Boot.products boot2 <> Boot.products boot1
     /\ uid_calls w1 = 1 /\ uid_calls w2 = 2)
  /\ (exists boot1 w1 boot2 w2 o1 o2,
     migrate_with sample_full_store Sample.legacy_world = (Ok boot1, w1)
     /\ migrate_with sample_full_store w1 = (Ok boot2, w2)
     /\ localStorage w1 !! LS.products = None
     /\ Boot.products boot1 = VArr [VObj o1]
     /\ Boot.products boot2 = VArr [VObj o2]
     /\ o1 !! lit "uid" = Some (VStr (Sample.uid_at 0))
     /\ o2 !! lit "uid" = Some (VStr (Sample.uid_at 1))
     /\ uid_calls w1 = 1 /\ uid_calls w2 = 2).
Proof.
  cbv zeta. split.
  - eexists _, _, _, _, _, _. split; [by vm_compute|]. split; [by vm_compute|].
    split; [by vm_compute|]. split; [by vm_compute|]. split; [by vm_compute|].
    split; [reflexivity|]. split; [reflexivity|].
    split; [by vm_compute|]. split; [by vm_compute|]. split; [|done].
    by intros [= Heq].
  - eexists _, _, _, _, _, _. split; [by vm_compute|]. split; [by vm_compute|].
    split; [by vm_compute|].
    split; [reflexivity|]. split; [reflexivity|].
    split; [by vm_compute|]. split; [by vm_compute|]. done.
Qed.

(* ================================================================== *)
(** * Further properties of the program *)
(* ================================================================== *)

(** ** Trimming *)

Lemma trimStart_nil_blank (s : jsstring) : trimStart s = [] <-> blank s.
Proof.
  split; [|apply trimStart_blank].
  induction s as [|c s IH]; cbn; [by constructor|].
  destruct (is_white c) eqn:E; [|done].
  intros H. constructor; [done | by apply IH].
Qed.

Lemma trimStart_first (s : jsstring) (c : N) (r : jsstring) :
  trimStart s = c :: r -> is_white c = false.
Proof.
  induction s as [|d s IH]; cbn; [done|].
  destruct (is_white d) eqn:E; [done|]. by intros [= <- _].
Qed.

Lemma trimStart_app_blank (a s : jsstring) :
  blank a -> trimStart (a ++ s) = trimStart s.
Proof. induction 1 as [|c a Hc _ IH]; cbn; [done|]. by rewrite Hc. Qed.

Lemma trimStart_app (s b : jsstring) :
  trimStart s <> [] -> trimStart (s ++ b) = trimStart s ++ b.
Proof.
  induction s as [|c s IH]; cbn; [done|].
  destruct (is_white c); [done|]. by intros _.
Qed.

Lemma blank_reverse (s : jsstring) : blank s -> blank (reverse s).
Proof. unfold blank. rewrite !Forall_forall. intros H c Hc. apply H. by apply elem_of_reverse. Qed.

Lemma blank_app (a b : jsstring) : blank a -> blank b -> blank (a ++ b).
Proof. apply Forall_app_2. Qed.

Lemma trimEnd_app_blank (s b : jsstring) : blank b -> trimEnd (s ++ b) = trimEnd s.
Proof.
  intros Hb. unfold trimEnd. rewrite reverse_app.
  by rewrite trimStart_app_blank by (by apply blank_reverse).
Qed.

Lemma trimEnd_cons (c : N) (r : jsstring) :
  is_white c = false -> trimEnd (c :: r) = c :: trimEnd r.
Proof.
  intros Hc. unfold trimEnd. rewrite reverse_cons.
  destruct (trimStart (reverse r)) as [|d t] eqn:E.
  - apply trimStart_nil_blank in E.
    rewrite trimStart_app_blank by done. cbn. by rewrite Hc.
  - rewrite trimStart_app by (by rewrite E). rewrite E.
    by rewrite reverse_app.
Qed.

Lemma trimStart_idemp (s : jsstring) : trimStart (trimStart s) = trimStart s.
Proof.
  destruct (trimStart s) as [|c r] eqn:E; [done|].
  cbn. by rewrite (trimStart_first s c r E).
Qed.

Lemma trimEnd_idemp (s : jsstring) : trimEnd (trimEnd s) = trimEnd s.
Proof. unfold trimEnd. by rewrite reverse_involutive, trimStart_idemp. Qed.

Lemma trim_idemp (s : jsstring) : trim (trim s) = trim s.
Proof.
  unfold trim. destruct (trimStart s) as [|c r] eqn:E; [done|].
  pose proof (trimStart_first s c r E) as Hc.
  rewrite (trimEnd_cons c r Hc). cbn [trimStart]. rewrite Hc.
  by rewrite (trimEnd_cons c _ Hc), trimEnd_idemp.
Qed.

Lemma trim_app_blank (a s b : jsstring) :
  blank a -> blank b -> trim (a ++ s ++ b) = trim s.
Proof.
  intros Ha Hb. unfold trim. rewrite trimStart_app_blank by done.
  destruct (trimStart s) as [|c r] eqn:E.
  - apply trimStart_nil_blank in E.
    by rewrite (trimStart_blank (s ++ b)) by (by apply blank_app).
  - rewrite trimStart_app by (by rewrite E). rewrite E.
    by apply trimEnd_app_blank.
Qed.

(** The trimmed string has no white space at either end. *)
Lemma trim_ends (s : jsstring) :
  match trim s with
  | [] => True
  | c :: _ => is_white c = false
  end
  /\ match reverse (trim s) with
     | [] => True
     | c :: _ => is_white c = false
     end.
Proof.
  split.
  - unfold trim. destruct (trimStart s) as [|c r] eqn:E; [done|].
    pose proof (trimStart_first s c r E) as Hc. by rewrite (trimEnd_cons c r Hc).
  - unfold trim, trimEnd. rewrite reverse_involutive.
    destruct (trimStart (reverse (trimStart s))) as [|c r] eqn:E; [done|].
    by apply trimStart_first in E.
Qed.

(** ** The converter *)

Section Converter.

Variable new_URL : jsstring -> option URL.
Variable new_URLSearchParams : jsstring -> list (jsstring * jsstring).
Variable Number_toString : Q -> jsstring.
Variable uid_at : nat -> jsstring.
Variable toISOString_at : nat -> jsstring.
Variable engine_message : exn -> jsstring.

Abbreviation parse1 := (parseShopUrl new_URL new_URLSearchParams).
Abbreviation convert1 := (convert new_URL new_URLSearchParams Number_toString).
Abbreviation click1 :=
  (handleConvert new_URL new_URLSearchParams Number_toString uid_at
     toISOString_at engine_message).

(** X1. [parseShopUrl] only looks at the trimmed input: white space before
    and after the url changes neither the result nor the error. *)
Theorem parseShopUrl_surrounding_space (a raw b : jsstring)
    (Ha : blank a) (Hb : blank b) :
  parse1 (a ++ raw ++ b) = parse1 raw /\ parse1 (trim raw) = parse1 raw.
Proof.
  unfold parseShopUrl. by rewrite trim_app_blank, trim_idemp.
Qed.

(** What [parseShopUrl] returns or throws: a result has one of the two
    shop types and an item id that is not empty; an error is one with one of
    the five messages, never an exception of the engine. *)
Lemma parseShopUrl_outcome (raw : jsstring) :
  match parse1 raw with
  | Ok p =>
      (Parsed.shop_type p = lit "weidian" \/ Parsed.shop_type p = lit "taobao")
      /\ Parsed.id p <> []
  | Throw e =>
      exists m, e = Error m /\ m <> []
        /\ m ∈ [Msg.URL_manquante; Msg.URL_invalide; Msg.itemID_manquant;
                Msg.id_manquant; Msg.Domaine_non_supporte]
  end.
Proof.
  unfold parseShopUrl.
  repeat case_match; simplify_eq; cbn;
    try (split; [by auto | by intros ->]);
    (eexists; split; [done|]; split; [by lit_neq|]; set_solver).
Qed.

(** The url of a conversion: rendering cannot fail after parsing. *)
Lemma convert_outcome (inputUrl ref : jsstring) :
  convert1 inputUrl ref =
    match parse1 inputUrl with
    | Ok p =>
        Ok (p, lit "https://mulebuy.com/product/?shop_type=" ++ Parsed.shop_type p
               ++ lit "&id=" ++ Parsed.id p ++ lit "&ref="
               ++ trim (match ref with
                        | [] => DEFAULT_SETTINGS.defaultRef
                        | _ => ref
                        end))
    | Throw e => Throw e
    end.
Proof.
  unfold convert. destruct (parse1 inputUrl) as [p|e]; [|done].
  cbn. by destruct ref.
Qed.

(** X2. When [parseShopUrl] rejects the input, [handleConvert] shows the
    message of that error, which is one of the five messages of the parser
    and not empty, clears the last conversion, and leaves the history and
    the world (store and counters) as they were. *)
Theorem handleConvert_failure (st : Converter.t) (w : world) (e : exn)
    (Hparse : parse1 (Converter.inputUrl st) = Throw e) :
  exists m,
    e = Error m
    /\ m <> []
    /\ m ∈ [Msg.URL_manquante; Msg.URL_invalide; Msg.itemID_manquant;
            Msg.id_manquant; Msg.Domaine_non_supporte]
    /\ click1 st w =
       (Ok (Converter.mk (Converter.inputUrl st) (Converter.ref st) None m
              (Converter.history st)), w).
Proof.
  pose proof (parseShopUrl_outcome (Converter.inputUrl st)) as Hout.
  rewrite Hparse in Hout. destruct Hout as (m & -> & Hm & Hin).
  exists m. split; [done|]. split; [done|]. split; [done|].
  unfold handleConvert. by rewrite convert_outcome, Hparse.
Qed.

(** X3. When [parseShopUrl] accepts the input, [handleConvert] always
    succeeds: the conversion shown and the newest history entry carry the
    same url, which is the template filled with the parsed shop type and
    item id (so both can be read back from it) and the trimmed referral
    code; the error message is empty; the entry records the input as typed;
    each of the two counters advances by one and the store is untouched. *)
Theorem handleConvert_success (st : Converter.t) (w : world) (p : Parsed.t)
    (Hparse : parse1 (Converter.inputUrl st) = Ok p) :
  exists st' url,
    click1 st w = (Ok st', World (localStorage w) (S (uid_calls w))
                             (S (date_calls w)))
    /\ url = lit "https://mulebuy.com/product/?shop_type=" ++ Parsed.shop_type p
             ++ lit "&id=" ++ Parsed.id p ++ lit "&ref="
             ++ trim (match Converter.ref st with
                      | [] => DEFAULT_SETTINGS.defaultRef
                      | r => r
                      end)
    /\ substring (lit "shop_type=" ++ Parsed.shop_type p ++ lit "&id="
                  ++ Parsed.id p ++ lit "&ref=") url
    /\ Converter.conv st'
       = Some (Conv.mk url (Parsed.shop_type p) (Parsed.id p) (Converter.ref st))
    /\ Converter.convErr st' = []
    /\ Converter.inputUrl st' = Converter.inputUrl st
    /\ Converter.ref st' = Converter.ref st
    /\ exists h, head (Converter.history st') = Some h
         /\ HistoryEntry.out h = url
         /\ HistoryEntry.input h = Converter.inputUrl st
         /\ HistoryEntry.shop_type h = Parsed.shop_type p
         /\ HistoryEntry.ref h = Converter.ref st
         /\ HistoryEntry.ts h = toISOString_at (date_calls w).
Proof.
  eexists _, _. split.
  { unfold handleConvert. rewrite convert_outcome, Hparse. reflexivity. }
  split; [reflexivity|].
  split.
  { exists (lit "https://mulebuy.com/product/?"),
      (trim match Converter.ref st with
            | [] => DEFAULT_SETTINGS.defaultRef
            | r => r
            end).
    by rewrite <- !app_assoc. }
  assert (match Converter.ref st with
          | [] => DEFAULT_SETTINGS.defaultRef
          | _ :: _ => Converter.ref st
          end = match Converter.ref st with
                | [] => DEFAULT_SETTINGS.defaultRef
                | r => r
                end) as -> by (by destruct (Converter.ref st)).
  cbn. repeat split; try done.
  eexists. split; [reflexivity|]. done.
Qed.

(** X4. The identifier that [handleConvert] generates for a history entry
    is never used: the [id] of the entry is the parsed item id (the spread
    of the parsed fields overwrites it), so the result of [handleConvert]
    is the same whatever [uid()] returns, and two conversions of the same
    url give entries with the same [id]. *)
Theorem handleConvert_ignores_uid (uid_at2 : nat -> jsstring)
    (st : Converter.t) (w : world) :
  handleConvert new_URL new_URLSearchParams Number_toString uid_at2
    toISOString_at engine_message st w
  = click1 st w
  /\ (forall p st',
        parse1 (Converter.inputUrl st) = Ok p ->
        (click1 st w).1 = Ok st' ->
        HistoryEntry.id <$> head (Converter.history st') = Some (Parsed.id p)).
Proof.
  split.
  - unfold handleConvert. by destruct (convert1 _ _) as [[p url]|e].
  - intros p st' Hp. unfold handleConvert. rewrite convert_outcome, Hp.
    cbn. by intros [= <-].
Qed.

End Converter.

Lemma parseShopUrl_surrounding_space_witness :
  Sample.parseShopUrl
    (lit "  " ++ lit "https://weidian.com/item.html?itemID=123" ++ [10%N])
  = Sample.parseShopUrl (lit "https://weidian.com/item.html?itemID=123").
Proof.
  assert (blank (lit "  ")) as Ha by (by repeat constructor).
  assert (blank [10%N]) as Hb by (by repeat constructor).
  exact (proj1 (parseShopUrl_surrounding_space Sample.new_URL
                  Sample.new_URLSearchParams _ _ _ Ha Hb)).
Defined.

Lemma handleConvert_failure_witness :
  exists m,
    handleConvert Sample.new_URL Sample.new_URLSearchParams
      Sample.Number_toString Sample.uid_at Sample.toISOString_at
      Sample.engine_message
      (Converter.mk (lit "https://example.com/x") (lit "R9") None [] [])
      (World ∅ 0 0)
    = (Ok (Converter.mk (lit "https://example.com/x") (lit "R9") None m []),
       World ∅ 0 0).
Proof.
  destruct (handleConvert_failure Sample.new_URL Sample.new_URLSearchParams
              Sample.Number_toString Sample.uid_at Sample.toISOString_at
              Sample.engine_message
              (Converter.mk (lit "https://example.com/x") (lit "R9") None [] [])
              (World ∅ 0 0) (Error Msg.Domaine_non_supporte) eq_refl)
    as (m & _ & _ & _ & Hrun).
  by exists m.
Defined.

Lemma handleConvert_success_witness :
  exists st',
    fst (handleConvert Sample.new_URL Sample.new_URLSearchParams
           Sample.Number_toString Sample.uid_at Sample.toISOString_at
           Sample.engine_message
           (Converter.mk (lit "https://weidian.com/item.html?itemID=123")
              (lit "R9") None [] [])
           (World ∅ 0 0))
    = Ok st'
    /\ Converter.convErr st' = [].
Proof.
  destruct (handleConvert_success Sample.new_URL Sample.new_URLSearchParams
              Sample.Number_toString Sample.uid_at Sample.toISOString_at
              Sample.engine_message
              (Converter.mk (lit "https://weidian.com/item.html?itemID=123")
                 (lit "R9") None [] [])
              (World ∅ 0 0) (Parsed.mk (lit "weidian") (lit "123")) eq_refl)
    as (st' & url & Hrun & _ & _ & _ & Herr & _).
  exists st'. by rewrite Hrun.
Defined.

(** ** The store *)

Section Store.

Variable Number_toString : Q -> jsstring.
Variable uid_at : nat -> jsstring.
Variable toISOString_at : nat -> jsstring.
Variable setItem : gmap jsstring text -> jsstring -> text -> option (gmap jsstring text).

Abbreviation load := (loadJSON).
Abbreviation save := (saveJSON setItem).
Abbreviation boot := (migrateIfNeeded Number_toString uid_at toISOString_at).

Lemma loadJSON_stored_value (key : jsstring) (fallback : value) (w : world) :
  loadJSON key fallback w = (Ok (stored (localStorage w) key fallback), w).
Proof. apply loadJSON_run. Qed.

(** X5. [loadJSON] never throws and never changes anything; it returns the
    fallback when the key is missing, when the text is not JSON and when
    the text is the JSON [null], and the parsed value in every other
    case. *)
Theorem loadJSON_fallback (key : jsstring) (fallback : value) (w : world) :
  exists v,
    loadJSON key fallback w = (Ok v, w)
    /\ (localStorage w !! key = None -> v = fallback)
    /\ (forall s, localStorage w !! key = Some (other_text s) -> v = fallback)
    /\ (localStorage w !! key = Some (JSON_text VNull) -> v = fallback)
    /\ (forall u, localStorage w !! key = Some (JSON_text u) -> u <> VNull -> v = u).
Proof.
  eexists. split; [apply loadJSON_run|].
  repeat split.
  - by intros ->.
  - by intros s ->.
  - by intros ->.
  - intros u -> Hu. by destruct u.
Qed.

Lemma saveJSON_returns (set : gmap jsstring text -> jsstring -> text ->
                              option (gmap jsstring text))
    (key : jsstring) (val : value) (w : world) :
  exists st, saveJSON set key val w = (Ok tt, World st (uid_calls w) (date_calls w))
    /\ (st = localStorage w \/ set (localStorage w) key (JSON_stringify val) = Some st).
Proof.
  unfold saveJSON. destruct (set _ _ _) as [st|].
  - exists st. by split; [|right].
  - exists (localStorage w). split; [by destruct w | by left].
Qed.

(** X6. When the store takes the write, what [saveJSON] wrote under a key
    is what [loadJSON] reads back from it, except that a saved [null] reads
    back as the fallback; the other keys read as before, and the counters
    are untouched. *)
Theorem saveJSON_loadJSON (key : jsstring) (val fallback : value) (w : world)
    (Hset : always_stores setItem) :
  exists w1,
    save key val w = (Ok tt, w1)
    /\ loadJSON key fallback w1 = (Ok (nullish val fallback), w1)
    /\ (forall key' fallback', key' <> key ->
          fst (loadJSON key' fallback' w1) = fst (loadJSON key' fallback' w))
    /\ uid_calls w1 = uid_calls w /\ date_calls w1 = date_calls w.
Proof.
  eexists. split; [by apply saveJSON_run|].
  rewrite !loadJSON_run. cbn. rewrite lookup_insert_eq. cbn.
  split; [done|]. split; [|done].
  intros key' fallback' Hne. rewrite !loadJSON_run. cbn.
  by rewrite lookup_insert_ne.
Qed.

(** X7. What [migrateIfNeeded] returns does not depend on the store taking
    its writes: with a store that refuses every write (full or unavailable)
    it returns, or throws, exactly what it does with any other store, and
    leaves the store as it found it. *)
Theorem migrateIfNeeded_full_store
    (full : gmap jsstring text -> jsstring -> text -> option (gmap jsstring text))
    (w : world)
    (Hfull : forall st k t, full st k t = None) :
  fst (boot full w) = fst (boot setItem w)
  /\ localStorage (snd (boot full w)) = localStorage w
  /\ uid_calls (snd (boot full w)) = uid_calls (snd (boot setItem w))
  /\ date_calls (snd (boot full w)) = date_calls (snd (boot setItem w)).
Proof.
  split; [|split].
  2:{ apply (migrate_keeps_full_store Number_toString uid_at toISOString_at full Hfull). }
  all: unfold migrateIfNeeded, mbind, M_bind, mret, M_ret;
    repeat (rewrite loadJSON_run; cbv beta iota);
    (case_match; [done|]);
    repeat (rewrite loadJSON_run; cbv beta iota);
    (destruct (stored (localStorage w) LS.legacySaved VNull) eqn:Hl;
       unfold stored in Hl; rewrite Hl);
    try (match goal with |- context [mapM ?f ?l0 ?w0] =>
           destruct (mapM f l0 w0) as [[migrated|e] w'] eqn:Hmap end;
         cbv beta iota);
    repeat match goal with
      | |- context [saveJSON ?s ?k ?v ?w0] =>
          let st := fresh "st" in
          let H := fresh "H" in
          destruct (saveJSON_returns s k v w0) as (st & H & _);
          rewrite H; clear H; cbv beta iota
      end; done.
Qed.

(** X8. Reloading restores what was persisted: after the three effects of
    [App] have written a state whose products are truthy (an array, the
    empty one included), [migrateIfNeeded] returns those products, the
    settings and the history, a [null] among the last two being replaced by
    the default settings and the empty history, and leaves the store as it is.  In
    particular the products stay empty after a reset: the legacy data is
    not migrated again. *)
Theorem persist_reload (st : Boot.t) (w : world)
    (Hset : always_stores setItem)
    (Hproducts : truthy (Boot.products st) = true) :
  exists w1,
    persist setItem st w = (Ok tt, w1)
    /\ boot setItem w1
       = (Ok (Boot.mk (Boot.products st)
                (nullish (Boot.settings st) DEFAULT_SETTINGS.object)
                (nullish (Boot.history st) (VArr []))), w1)
    /\ fst (boot setItem
              (snd (persist setItem (reset_data true st) w)))
       = Ok (Boot.mk (VArr [])
               (nullish (Boot.settings st) DEFAULT_SETTINGS.object)
               (nullish (Boot.history st) (VArr []))).
Proof.
  assert (LS.settings <> LS.products /\ LS.history <> LS.products
          /\ LS.history <> LS.settings) as (H1 & H2 & H3) by (repeat split; lit_neq).
  assert (forall st0, truthy (Boot.products st0) = true ->
            exists w1, persist setItem st0 w = (Ok tt, w1)
              /\ boot setItem w1
                 = (Ok (Boot.mk (Boot.products st0)
                          (nullish (Boot.settings st0) DEFAULT_SETTINGS.object)
                          (nullish (Boot.history st0) (VArr []))), w1)) as Hgen.
  { intros st0 Ht. eexists. split.
    { unfold persist, mbind, M_bind.
      repeat (rewrite saveJSON_run by done; cbv beta iota). reflexivity. }
    unfold migrateIfNeeded, mbind, M_bind, mret, M_ret.
    repeat (rewrite loadJSON_run; cbv beta iota). cbn [localStorage].
    rewrite !lookup_insert_eq.
    rewrite (lookup_insert_ne _ LS.history LS.settings) by done.
    rewrite (lookup_insert_ne _ LS.history LS.products) by done.
    rewrite (lookup_insert_ne _ LS.settings LS.products) by done.
    rewrite !lookup_insert_eq. cbn [JSON_parse JSON_stringify].
    assert (nullish (Boot.products st0) VNull = Boot.products st0) as ->
      by (by destruct (Boot.products st0)).
    rewrite Ht.
    assert (forall v d, nullish (nullish v VNull) d = nullish v d) as Hn
      by (by intros []).
    by rewrite !Hn. }
  destruct (Hgen st Hproducts) as (w1 & Hp & Hb).
  exists w1. split; [done|]. split; [done|].
  destruct (Hgen (reset_data true st) eq_refl) as (w2 & Hp2 & Hb2).
  rewrite Hp2. cbn [snd]. by rewrite Hb2.
Qed.

End Store.

Lemma saveJSON_loadJSON_witness :
  exists w1,
    saveJSON Sample.setItem LS.history (VArr [VStr (lit "a")]) (World ∅ 0 0)
    = (Ok tt, w1)
    /\ loadJSON LS.history (VArr []) w1 = (Ok (VArr [VStr (lit "a")]), w1).
Proof.
  assert (always_stores Sample.setItem) as Hset by (by intros ? ? ?).
  destruct (saveJSON_loadJSON Sample.setItem LS.history (VArr [VStr (lit "a")])
              (VArr []) (World ∅ 0 0) Hset) as (w1 & Hs & Hl & _).
  by exists w1.
Defined.

Lemma migrateIfNeeded_full_store_witness :
  fst (migrateIfNeeded Sample.Number_toString Sample.uid_at Sample.toISOString_at
         sample_full_store Sample.legacy_world)
  = fst (migrateIfNeeded Sample.Number_toString Sample.uid_at
           Sample.toISOString_at Sample.setItem Sample.legacy_world).
Proof.
  assert (forall st k t, sample_full_store st k t = None) as Hfull by done.
  exact (proj1 (migrateIfNeeded_full_store Sample.Number_toString Sample.uid_at
                  Sample.toISOString_at Sample.setItem sample_full_store
                  Sample.legacy_world Hfull)).
Defined.

Lemma persist_reload_witness :
  exists w1,
    persist Sample.setItem (Boot.mk (VArr []) VNull VNull) Sample.legacy_world
    = (Ok tt, w1)
    /\ migrateIfNeeded Sample.Number_toString Sample.uid_at Sample.toISOString_at
         Sample.setItem w1
       = (Ok (Boot.mk (VArr []) DEFAULT_SETTINGS.object (VArr [])), w1).
Proof.
  assert (always_stores Sample.setItem) as Hset by (by intros ? ? ?).
  destruct (persist_reload Sample.Number_toString Sample.uid_at
              Sample.toISOString_at Sample.setItem
              (Boot.mk (VArr []) VNull VNull) Sample.legacy_world Hset eq_refl)
    as (w1 & Hp & Hb & _).
  by exists w1.
Defined.

(** ** The migrated records *)

Lemma returns_ret {A} (a : A) (P : A -> Prop) : P a -> returns (mret a) P.
Proof. intros H w b w' [= <- _]. done. Qed.

Lemma returns_lift {A} (r : result A) : returns (lift r) (fun a => r = Ok a).
Proof. by intros w a w' [= -> _]. Qed.

Lemma returns_bind {A B} (m : M A) (f : A -> M B) (Q : A -> Prop) (P : B -> Prop) :
  returns m Q -> (forall a, Q a -> returns (f a) P) -> returns (m ≫= f) P.
Proof.
  intros Hm Hf w b w'. unfold mbind, M_bind.
  destruct (m w) as [[a|e] w1] eqn:E; [|done].
  intros H. eapply Hf; [|exact H]. by eapply Hm.
Qed.

Lemma returns_any {A} (m : M A) : returns m (fun _ => True).
Proof. by intros w a w' _. Qed.

Lemma returns_or_else_ret (a : option value) (d : value) :
  returns (or_else a (mret d))
    (fun v => v = match a with
                  | Some u => if truthy u then u else d
                  | None => d
                  end).
Proof.
  intros w v w'. unfold or_else. destruct a as [u|]; cbn.
  - destruct (truthy u); by intros [= <- _].
  - by intros [= <- _].
Qed.

Lemma returns_or_else (a : option value) (b : M value) :
  returns (or_else a b) (fun v => forall u, a = Some u -> truthy u = true -> v = u).
Proof.
  intros w v w'. unfold or_else. destruct a as [u|]; cbn; [|done].
  destruct (truthy u) eqn:E.
  - intros [= <- _] u' [= <-] _. done.
  - intros _ u' [= <-]. congruence.
Qed.

Lemma object_of_keys (fields : list (jsstring * option value)) (k : jsstring) :
  is_Some (object_of fields !! k) -> k ∈ fields.*1.
Proof.
  unfold object_of.
  assert (forall acc : gmap jsstring value,
            is_Some (fold_left (fun o kv => match kv.2 with
                                             | Some v => <[kv.1:=v]> o
                                             | None => o
                                             end) fields acc !! k) ->
            is_Some (acc !! k) \/ k ∈ fields.*1) as H.
  { induction fields as [|[k0 v0] fields IH]; intros acc; cbn; [by left|].
    intros Hs. destruct (IH _ Hs) as [Hacc | Hin]; [|right; by right].
    destruct v0 as [v0|]; cbn in Hacc; [|by left].
    destruct (decide (k0 = k)) as [->|Hne]; [right; by left|].
    rewrite lookup_insert_ne in Hacc by done. by left. }
  intros Hs. destruct (H ∅ Hs) as [Hempty|]; [|done].
  rewrite lookup_empty in Hempty. by destruct Hempty.
Qed.

Lemma field_or_get (x : value) (key : jsstring) (d : value) (a : option value) :
  Get x key = Ok a ->
  match a with
  | Some u => if truthy u then u else d
  | None => d
  end = field_or x key d.
Proof. intros H. unfold field_or. by rewrite H. Qed.

Section Records.

Variable Number_toString : Q -> jsstring.
Variable uid_at : nat -> jsstring.
Variable toISOString_at : nat -> jsstring.

Abbreviation record1 := (migrate_record Number_toString uid_at toISOString_at).

Lemma migrate_record_returns (x : value) : returns (record1 x) (migrated_from x).
Proof.
  unfold migrate_record.
  eapply returns_bind; [apply returns_lift|]; intros x_uid Hx_uid.
  eapply returns_bind; [apply returns_or_else|]; intros uid_ Huid.
  eapply returns_bind; [apply returns_lift|]; intros x_created Hx_created.
  eapply returns_bind; [apply returns_or_else|]; intros created Hcreated.
  eapply returns_bind; [apply returns_lift|]; intros shop_type Hshop.
  eapply returns_bind; [apply returns_lift|]; intros id Hid.
  eapply returns_bind; [apply returns_lift|]; intros x_ref Hx_ref.
  eapply returns_bind; [apply returns_or_else_ret|]; intros ref ->.
  eapply returns_bind; [apply returns_lift|]; intros x_url Hx_url.
  eapply returns_bind; [apply returns_or_else|]; intros url Hurl.
  eapply returns_bind; [apply returns_lift|]; intros x_title Hx_title.
  eapply returns_bind; [apply returns_or_else_ret|]; intros title ->.
  eapply returns_bind; [apply returns_lift|]; intros x_notes Hx_notes.
  eapply returns_bind; [apply returns_or_else_ret|]; intros notes ->.
  eapply returns_bind; [apply returns_lift|]; intros x_tags Hx_tags.
  eapply returns_bind; [apply returns_or_else_ret|]; intros tags ->.
  eapply returns_bind; [apply returns_lift|]; intros x_qc Hx_qc.
  eapply returns_bind; [apply returns_or_else_ret|]; intros qc ->.
  eapply returns_bind; [apply returns_lift|]; intros x_images Hx_images.
  eapply returns_bind; [apply returns_or_else_ret|]; intros images ->.
  apply returns_ret.
  rewrite (field_or_get _ _ _ _ Hx_ref), (field_or_get _ _ _ _ Hx_title),
    (field_or_get _ _ _ _ Hx_notes), (field_or_get _ _ _ _ Hx_tags),
    (field_or_get _ _ _ _ Hx_qc), (field_or_get _ _ _ _ Hx_images).
  eexists. split; [reflexivity|].
  rewrite Hshop, Hid, Hx_uid, Hx_created, Hx_url.
  repeat match goal with |- _ /\ _ => split end;
    try (destruct shop_type, id; reflexivity).
  - intros u [= ->] Hu. rewrite (Huid u eq_refl Hu).
    destruct shop_type, id; reflexivity.
  - intros u [= ->] Hu. rewrite (Hcreated u eq_refl Hu).
    destruct shop_type, id; reflexivity.
  - intros u [= ->] Hu. rewrite (Hurl u eq_refl Hu).
    destruct shop_type, id; reflexivity.
  - intros k Hk. apply object_of_keys in Hk. exact Hk.
Qed.

End Records.

Lemma mapM_returns {A B} (f : A -> M B) (P : A -> B -> Prop) (l : list A) :
  (forall x, returns (f x) (P x)) -> returns (mapM f l) (Forall2 P l).
Proof.
  intros Hf. induction l as [|x l IH]; intros w k w'; cbn [mapM].
  - intros [= <- _]. constructor.
  - unfold mbind, M_bind, mret, M_ret.
    destruct (f x w) as [[y|e] w1] eqn:E1; [|done].
    destruct (mapM f l w1) as [[k'|e] w2] eqn:E2; [|done].
    intros [= <- _]. constructor; [by eapply Hf | by eapply IH].
Qed.

Lemma M_bind_run {A B} (m : M A) (f : A -> M B) (w : world) :
  (m ≫= f) w =
    match m w with
    | (Ok a, w') => f a w'
    | (Throw e, w') => (Throw e, w')
    end.
Proof. reflexivity. Qed.

Lemma throws_only_ret {A} (a : A) (e0 : exn) : throws_only (mret a) e0.
Proof. by intros w e w'. Qed.

Lemma throws_only_bind {A B} (m : M A) (f : A -> M B) (e0 : exn) :
  throws_only m e0 -> (forall a, throws_only (f a) e0) -> throws_only (m ≫= f) e0.
Proof.
  intros Hm Hf w e w'. unfold mbind, M_bind.
  destruct (m w) as [[a|e1] w1] eqn:E.
  - apply Hf.
  - intros [= <- _]. by eapply Hm.
Qed.

Lemma throws_only_fmap {A B} (g : A -> B) (m : M A) (e0 : exn) :
  throws_only m e0 -> throws_only (g <$> m) e0.
Proof.
  intros Hm w e w'. unfold fmap, M_fmap.
  destruct (m w) as [[a|e1] w1] eqn:E; [done|].
  intros [= <- _]. by eapply Hm.
Qed.

Lemma throws_only_or_else (a : option value) (b : M value) (e0 : exn) :
  throws_only b e0 -> throws_only (or_else a b) e0.
Proof. intros Hb. unfold or_else. case_match; [apply throws_only_ret | done]. Qed.

Lemma throws_only_Get (x : value) (k : jsstring) :
  throws_only (lift (Get x k)) TypeError.
Proof. intros w e w'. unfold lift. destruct x; cbn; by intros [= <-]. Qed.

Lemma ToString_value_TypeError (Number_toString : Q -> jsstring) (v : value) :
  forall e, ToString_value Number_toString v = Throw e -> e = TypeError.
Proof.
  revert v. fix IH 1. intros v e.
  destruct v as [| [] | q | s | l | o]; cbn; try done.
  - revert e. induction l as [|x r IHr]; intros e; [done|].
    assert (forall e',
              match x with
              | VNull => Ok []
              | _ => ToString_value Number_toString x
              end = Throw e' -> e' = TypeError) as Hx.
    { pose proof (IH x) as IHx. intros e'. destruct x; try done; apply IHx. }
    unfold mbind, result_bind.
    destruct (match x with
              | VNull => Ok []
              | _ => ToString_value Number_toString x
              end) as [a|e0].
    + destruct r as [|y r]; [done|].
      match goal with
      | |- context [match ?m with Ok _ => _ | Throw _ => _ end] =>
          destruct m as [b|e1] eqn:E
      end; [done|].
      intros [= <-]. by apply IHr.
    + intros [= <-]. by apply Hx.
  - case_match; [by intros [= <-] | done].
Qed.

Lemma toMulebuy_TypeError (Number_toString : Q -> jsstring)
    (shop_type id ref : option value) (e : exn) :
  toMulebuy Number_toString shop_type id ref = Throw e -> e = TypeError.
Proof.
  unfold toMulebuy, mbind, result_bind, ToString.
  repeat case_match; simplify_eq; try done;
    try (by intros [= <-]);
    intros [= <-]; by eapply ToString_value_TypeError.
Qed.

Section NullRecord.

Variable Number_toString : Q -> jsstring.
Variable uid_at : nat -> jsstring.
Variable toISOString_at : nat -> jsstring.
Variable setItem : gmap jsstring text -> jsstring -> text -> option (gmap jsstring text).

Abbreviation record2 := (migrate_record Number_toString uid_at toISOString_at).
Abbreviation boot2 := (migrateIfNeeded Number_toString uid_at toISOString_at setItem).

Lemma migrate_record_throws_only (x : value) : throws_only (record2 x) TypeError.
Proof.
  unfold migrate_record.
  repeat first
    [ apply throws_only_ret
    | apply throws_only_Get
    | apply throws_only_or_else
    | apply throws_only_fmap
    | (intros w e w'; unfold uid, Date_toISOString; done)
    | (intros w e w'; unfold lift; intros [= H _]; by eapply toMulebuy_TypeError)
    | apply throws_only_bind; [| intros ?] ].
Qed.

Lemma mapM_throws_only (l : list value) : throws_only (mapM record2 l) TypeError.
Proof.
  induction l as [|x l IH]; cbn [mapM]; [apply throws_only_ret|].
  apply throws_only_bind; [apply migrate_record_throws_only|]. intros y.
  apply throws_only_bind; [done|]. intros k. apply throws_only_ret.
Qed.

Lemma migrate_record_null (w : world) : record2 VNull w = (Throw TypeError, w).
Proof. reflexivity. Qed.

Lemma mapM_null (l : list value) :
  VNull ∈ l -> forall w, exists w', mapM record2 l w = (Throw TypeError, w').
Proof.
  induction l as [|x l IH]; intros Hin w; [by apply elem_of_nil in Hin|].
  cbn [mapM]. rewrite M_bind_run.
  destruct (record2 x w) as [[y|e] w1] eqn:E.
  - apply elem_of_cons in Hin as [<- | Hin].
    { by rewrite migrate_record_null in E. }
    rewrite M_bind_run. destruct (IH Hin w1) as [w' ->]. by eexists.
  - apply migrate_record_throws_only in E as ->. by eexists.
Qed.

(** The run of the procedure on a store without current products whose
    legacy key holds an array. *)
Lemma migrate_legacy_run (w : world) (l : list value) :
  no_products (localStorage w) ->
  stored (localStorage w) LS.legacySaved VNull = VArr l ->
  boot2 w =
    (let h := stored (localStorage w) LS.legacyHistory (VArr []) in
     let legacyHistory := if truthy h then h else VArr [] in
     (migrated ← mapM record2 l;
      _ ← saveJSON setItem LS.products (VArr migrated);
      _ ← saveJSON setItem LS.history legacyHistory;
      mret (Boot.mk (VArr migrated) DEFAULT_SETTINGS.object legacyHistory)) w).
Proof.
  intros Hno Hl. unfold no_products in Hno. unfold stored in Hl.
  unfold migrateIfNeeded at 1.
  unfold mbind at 1 2 3 4 5, M_bind at 1 2 3 4 5, mret at 1 2, M_ret at 1 2.
  repeat (rewrite loadJSON_run; cbv beta iota).
  assert (truthy (match JSON_parse (localStorage w !! LS.products) with
                  | Ok v => nullish v VNull
                  | Throw _ => VNull
                  end) = false) as ->.
  { destruct (JSON_parse _) as [v|e]; [|done]. by destruct v. }
  unfold mbind at 1 2 3, M_bind at 1 2 3, mret at 1, M_ret at 1.
  repeat (rewrite loadJSON_run; cbv beta iota).
  rewrite Hl. reflexivity.
Qed.

End NullRecord.

Section Legacy.

Variable Number_toString : Q -> jsstring.
Variable uid_at : nat -> jsstring.
Variable toISOString_at : nat -> jsstring.
Variable setItem : gmap jsstring text -> jsstring -> text -> option (gmap jsstring text).

Abbreviation record3 := (migrate_record Number_toString uid_at toISOString_at).
Abbreviation boot3 := (migrateIfNeeded Number_toString uid_at toISOString_at setItem).

(** X9. Migration of the legacy array, whether or not the store takes the
    writes: the products returned are one object per legacy record, in the
    same order; each has [list] forced to the default list, [_v] 2, empty
    [seller], [size], [price] and rating 0; it keeps [shop_type] and [id]
    as they were (absent if absent), keeps [uid], [created_at] and
    [mulebuy_url] when they are truthy, takes [ref], [title], [notes],
    [tags], [qc_links] and [images] from the record or their defaults; and
    it has no other property: whatever else the legacy record held is
    dropped. *)
Theorem migrate_legacy_records (w w1 : world) (b : Boot.t) (l : list value)
    (Hno : no_products (localStorage w))
    (Hl : stored (localStorage w) LS.legacySaved VNull = VArr l)
    (Hrun : boot3 w = (Ok b, w1)) :
  exists migrated,
    Boot.products b = VArr migrated
    /\ length migrated = length l
    /\ Forall2 migrated_from l migrated.
Proof.
  rewrite (migrate_legacy_run _ _ _ _ w l Hno Hl) in Hrun. cbv zeta in Hrun.
  rewrite M_bind_run in Hrun.
  destruct (mapM record3 l w) as [[migrated|e] w'] eqn:Hmap; [|done].
  rewrite M_bind_run in Hrun.
  destruct (saveJSON_returns setItem LS.products (VArr migrated) w')
    as (st1 & Hs1 & _).
  rewrite Hs1, M_bind_run in Hrun.
  match type of Hrun with context [saveJSON setItem LS.history ?h ?w0] =>
    destruct (saveJSON_returns setItem LS.history h w0) as (st2 & Hs2 & _) end.
  rewrite Hs2 in Hrun. injection Hrun as <- _.
  exists migrated. split; [done|].
  assert (Forall2 migrated_from l migrated) as HF.
  { eapply (mapM_returns record3 migrated_from l); [|exact Hmap].
    apply migrate_record_returns. }
  split; [|done]. symmetry. by eapply Forall2_length.
Qed.

(** X10. One [null] in the legacy array makes the migration throw a
    TypeError (reading [x.uid] of [null]), whatever the other records are,
    before anything is written: the store is left as it was, so every
    later start throws again. *)
Theorem migrate_null_record (w : world) (l : list value)
    (Hno : no_products (localStorage w))
    (Hl : stored (localStorage w) LS.legacySaved VNull = VArr l)
    (Hnull : VNull ∈ l) :
  exists w',
    boot3 w = (Throw TypeError, w')
    /\ localStorage w' = localStorage w
    /\ exists w'', boot3 w' = (Throw TypeError, w'').
Proof.
  assert (forall w0, localStorage w0 = localStorage w ->
            exists w', boot3 w0 = (Throw TypeError, w')
                       /\ localStorage w' = localStorage w) as H.
  { intros w0 Hw0.
    rewrite (migrate_legacy_run _ _ _ _ w0 l) by (by rewrite Hw0). cbv zeta.
    rewrite M_bind_run.
    pose proof (mapM_keeps_store Number_toString uid_at toISOString_at l w0) as Hk.
    destruct (mapM_null Number_toString uid_at toISOString_at l Hnull w0)
      as [w' Hw'].
    rewrite Hw' in Hk |- *. exists w'. split; [done|]. cbn in Hk. congruence. }
  destruct (H w eq_refl) as (w' & Hrun & Hst).
  exists w'. split; [done|]. split; [done|].
  destruct (H w' Hst) as (w'' & Hrun' & _). by exists w''.
Qed.

(** X11. After a migration of the legacy array that the store accepted:
    the settings returned are the built-in defaults, whatever the settings
    key holds, and that key is not written; the history returned and
    written under the current history key is the value of the legacy
    history key when it is truthy (whatever its shape) and the empty array
    when not. *)
Theorem migrate_legacy_settings_history (w w1 : world) (b : Boot.t) (l : list value)
    (Hno : no_products (localStorage w))
    (Hl : stored (localStorage w) LS.legacySaved VNull = VArr l)
    (Hset : always_stores setItem)
    (Hrun : boot3 w = (Ok b, w1)) :
  let h := stored (localStorage w) LS.legacyHistory (VArr []) in
  Boot.settings b = DEFAULT_SETTINGS.object
  /\ Boot.history b = (if truthy h then h else VArr [])
  /\ localStorage w1 !! LS.history = Some (JSON_stringify (Boot.history b))
  /\ localStorage w1 !! LS.settings = localStorage w !! LS.settings.
Proof.
  intros h. subst h.
  rewrite (migrate_legacy_run _ _ _ _ w l Hno Hl) in Hrun. cbv zeta in Hrun.
  rewrite M_bind_run in Hrun.
  pose proof (mapM_keeps_store Number_toString uid_at toISOString_at l w) as Hk.
  destruct (mapM record3 l w) as [[migrated|e] w'] eqn:Hmap; [|done].
  cbn in Hk.
  rewrite M_bind_run, saveJSON_run in Hrun by done.
  rewrite M_bind_run, saveJSON_run in Hrun by done.
  injection Hrun as <- <-. cbn.
  split; [done|]. split; [done|]. split.
  - by rewrite lookup_insert_eq.
  - rewrite !lookup_insert_ne by lit_neq. by rewrite Hk.
Qed.

(** X12. A start without current products and without a legacy array
    (nothing stored, or a legacy key that holds something else) returns the
    empty state; when the store takes the writes, the three current keys
    then hold the empty products, the default settings and the empty
    history: settings and history that were stored without products are
    overwritten.  No identifier or date is generated. *)
Theorem migrate_fresh_start (w : world)
    (Hno : no_products (localStorage w))
    (Hlegacy : forall l, stored (localStorage w) LS.legacySaved VNull <> VArr l)
    (Hset : always_stores setItem) :
  boot3 w =
    (Ok (Boot.mk (VArr []) DEFAULT_SETTINGS.object (VArr [])),
     World (<[LS.history := JSON_text (VArr [])]>
              (<[LS.settings := JSON_text DEFAULT_SETTINGS.object]>
                 (<[LS.products := JSON_text (VArr [])]> (localStorage w))))
           (uid_calls w) (date_calls w)).
Proof.
  unfold no_products in Hno. unfold stored in Hlegacy.
  unfold migrateIfNeeded, mbind, M_bind, mret, M_ret.
  repeat (rewrite loadJSON_run; cbv beta iota).
  assert (truthy (match JSON_parse (localStorage w !! LS.products) with
                  | Ok v => nullish v VNull
                  | Throw _ => VNull
                  end) = false) as ->.
  { destruct (JSON_parse _) as [v|e]; [|done]. by destruct v. }
  repeat (rewrite loadJSON_run; cbv beta iota).
  destruct (match JSON_parse (localStorage w !! LS.legacySaved) with
            | Ok v => nullish v VNull
            | Throw _ => VNull
            end) as [| bb | q | s | l | o] eqn:E;
    try (by destruct (Hlegacy l));
    repeat (rewrite saveJSON_run by done; cbv beta iota); reflexivity.
Qed.

End Legacy.

Lemma migrate_legacy_records_witness :
  exists b w1 migrated,
    migrateIfNeeded Sample.Number_toString Sample.uid_at Sample.toISOString_at
      Sample.setItem Sample.legacy_world = (Ok b, w1)
    /\ Boot.products b = VArr migrated
    /\ length migrated = 1%nat.
Proof.
  assert (no_products (localStorage Sample.legacy_world)) as Hno by (by vm_compute).
  destruct (migrateIfNeeded Sample.Number_toString Sample.uid_at
              Sample.toISOString_at Sample.setItem Sample.legacy_world)
    as [[b|e] w1] eqn:Hrun.
  - destruct (migrate_legacy_records Sample.Number_toString Sample.uid_at
                Sample.toISOString_at Sample.setItem Sample.legacy_world w1 b
                _ Hno eq_refl Hrun) as (migrated & Hp & Hlen & _).
    by exists b, w1, migrated.
  - vm_compute in Hrun. discriminate Hrun.
Defined.

Lemma migrate_null_record_witness :
  exists w',
    migrateIfNeeded Sample.Number_toString Sample.uid_at Sample.toISOString_at
      Sample.setItem sample_null_world = (Throw TypeError, w')
    /\ localStorage w' = localStorage sample_null_world.
Proof.
  assert (no_products (localStorage sample_null_world)) as Hno by (by vm_compute).
  assert (VNull ∈ [VObj (object_of [(lit "id", Some (VStr (lit "1")))]); VNull])
    as Hnull by (right; left).
  destruct (migrate_null_record Sample.Number_toString Sample.uid_at
              Sample.toISOString_at Sample.setItem sample_null_world _
              Hno eq_refl Hnull) as (w' & H1 & H2 & _).
  by exists w'.
Defined.

Lemma migrate_legacy_settings_history_witness :
  exists b w1,
    migrateIfNeeded Sample.Number_toString Sample.uid_at Sample.toISOString_at
      Sample.setItem Sample.legacy_world = (Ok b, w1)
    /\ Boot.settings b = DEFAULT_SETTINGS.object
    /\ Boot.history b = VArr [].
Proof.
  assert (no_products (localStorage Sample.legacy_world)) as Hno by (by vm_compute).
  assert (always_stores Sample.setItem) as Hset by (by intros ? ? ?).
  destruct (migrateIfNeeded Sample.Number_toString Sample.uid_at
              Sample.toISOString_at Sample.setItem Sample.legacy_world)
    as [[b|e] w1] eqn:Hrun.
  - destruct (migrate_legacy_settings_history Sample.Number_toString Sample.uid_at
                Sample.toISOString_at Sample.setItem Sample.legacy_world w1 b
                _ Hno eq_refl Hset Hrun)
      as (Hs & Hh & _).
    by exists b, w1.
  - vm_compute in Hrun. discriminate Hrun.
Defined.

Lemma migrate_fresh_start_witness :
  localStorage
    (snd (migrateIfNeeded Sample.Number_toString Sample.uid_at
            Sample.toISOString_at Sample.setItem sample_settings_world))
    !! LS.settings
  = Some (JSON_text DEFAULT_SETTINGS.object).
Proof.
  assert (no_products (localStorage sample_settings_world)) as Hno by (by vm_compute).
  assert (always_stores Sample.setItem) as Hset by (by intros ? ? ?).
  rewrite (migrate_fresh_start Sample.Number_toString Sample.uid_at
             Sample.toISOString_at Sample.setItem sample_settings_world Hno).
  - cbn. rewrite lookup_insert_ne by lit_neq. by rewrite lookup_insert_eq.
  - intros l. vm_compute. discriminate.
  - exact Hset.
Defined.

(** ** Selection and bulk actions *)

#[local] Set Warnings "-clear-no-such-hyp".

(** X13. [toggleSelect] flips the membership of one uid and of no other:
    the uid is selected afterwards exactly when it was not before, every
    other uid keeps its state, the size of the selection changes by one,
    and toggling twice gives the selection back. *)
Theorem toggleSelect_involutive (uid : jsstring) (prev : gset jsstring) :
  toggleSelect uid (toggleSelect uid prev) = prev
  /\ (uid ∈ toggleSelect uid prev <-> uid ∉ prev)
  /\ (forall v, v <> uid -> v ∈ toggleSelect uid prev <-> v ∈ prev)
  /\ size (toggleSelect uid prev)
     = (if decide (uid ∈ prev) then size prev - 1 else size prev + 1)%nat.
Proof.
  unfold toggleSelect. destruct (decide (uid ∈ prev)) as [Hin|Hnin].
  - rewrite decide_False by set_solver. repeat split.
    + apply set_eq. intros x. destruct (decide (x = uid)); set_solver.
    + set_solver.
    + set_solver.
    + set_solver.
    + set_solver.
    + rewrite size_difference by set_solver. by rewrite size_singleton.
  - rewrite decide_True by set_solver. repeat split.
    + set_solver.
    + set_solver.
    + set_solver.
    + set_solver.
    + set_solver.
    + rewrite size_union by set_solver. by rewrite size_singleton.
Qed.

Lemma map_not_selected (f : Product.t -> Product.t) (selection : gset jsstring)
    (products : list Product.t) :
  (forall p, p ∈ products -> Product.uid p ∉ selection) ->
  map (fun p => if decide (Product.uid p ∈ selection) then f p else p) products
  = products.
Proof.
  induction products as [|p l IH]; intros H; cbn [map]; [done|].
  rewrite IH by (intros q Hq; apply H; by right).
  rewrite decide_False; [done|]. apply H. by left.
Qed.

(** X14. [bulkDelete] changes nothing when nothing is selected or when the
    dialog is refused; otherwise it removes every product whose uid is
    selected (all of them, if several products share that uid), keeps the
    others in their order, and clears the selection: what is left plus
    what was selected has the length of the collection. *)
Theorem bulkDelete_removes_selected (confirmed : bool)
    (products : list Product.t) (selection : gset jsstring) :
  let st := (products, selection) in
  (size selection = 0%nat \/ confirmed = false -> bulkDelete confirmed st = st)
  /\ (size selection <> 0%nat -> confirmed = true ->
      let products' := fst (bulkDelete confirmed st) in
      snd (bulkDelete confirmed st) = ∅
      /\ (forall p, p ∈ products' <-> p ∈ products /\ Product.uid p ∉ selection)
      /\ sublist products' products
      /\ (length products'
          + length (filter (fun p => Product.uid p ∈ selection) products)
          = length products)%nat).
Proof.
  cbv zeta. unfold bulkDelete. split.
  - intros [H | ->]; [by rewrite decide_True|].
    by destruct (decide (size selection = 0)).
  - intros Hs ->. rewrite decide_False by done. cbn.
    split; [done|]. split; [|split].
    + intros p. rewrite list_elem_of_filter. tauto.
    + apply sublist_filter.
    + induction products as [|p l IH]; [done|].
      destruct (decide (Product.uid p ∈ selection)).
      * rewrite filter_cons_False by tauto. rewrite filter_cons_True by done.
        cbn. lia.
      * rewrite filter_cons_True by done. rewrite filter_cons_False by done.
        cbn. lia.
Qed.

(** X15. [bulkMove] clears the selection, so the bulk action that follows
    it (another move, a tag, a deletion) changes nothing; [bulkAddTag]
    keeps the selection, so a move after it still moves the same products,
    and the two can be done in either order when only the products matter. *)
Theorem bulk_after_move (l l2 t : jsstring) (confirmed : bool)
    (st : list Product.t * gset jsstring) :
  bulkMove l2 (bulkMove l st) = bulkMove l st
  /\ bulkAddTag t (bulkMove l st) = bulkMove l st
  /\ bulkDelete confirmed (bulkMove l st) = bulkMove l st
  /\ snd (bulkAddTag t st) = snd st
  /\ fst (bulkMove l (bulkAddTag t st)) = fst (bulkAddTag t (fst (bulkMove l st), snd st)).
Proof.
  destruct st as [products selection].
  assert (forall ps : list Product.t, bulkAddTag t (ps, ∅) = (ps, ∅)) as Htag.
  { intros ps. unfold bulkAddTag. destruct (truthy_string t); cbn [negb]; [|done].
    by rewrite map_not_selected by set_solver. }
  assert (forall l0 (ps : list Product.t), bulkMove l0 (ps, ∅) = (ps, ∅)) as Hmove.
  { intros l0 ps. unfold bulkMove. by rewrite decide_True. }
  assert (forall ps : list Product.t, bulkDelete confirmed (ps, ∅) = (ps, ∅)) as Hdel.
  { intros ps. unfold bulkDelete. by rewrite decide_True. }
  assert (exists ps, bulkMove l (products, selection) = (ps, ∅)) as [ps Hps].
  { unfold bulkMove. destruct (decide (size selection = 0)) as [Hz|Hnz].
    - apply size_empty_inv, leibniz_equiv in Hz. subst selection. by eexists.
    - by eexists. }
  rewrite Hps, Hmove, Htag, Hdel.
  split; [done|]. split; [done|]. split; [done|]. split.
  { by unfold bulkAddTag; destruct (truthy_string t). }
  revert Hps. cbn [fst snd]. unfold bulkMove, bulkAddTag.
  destruct (decide (size selection = 0)) as [Hz|Hnz].
  - intros [= <- ->]. destruct (truthy_string t); cbn [negb fst snd];
      repeat case_decide; done.
  - intros [= <-]. destruct (truthy_string t); cbn [negb fst snd];
      repeat case_decide; try done; cbn [fst].
    rewrite !map_map. apply map_ext. intros p.
    destruct (decide (Product.uid p ∈ selection)) as [Hin|Hout]; cbv beta iota.
    + assert (Product.uid (Product.with_list p l) = Product.uid p) as Hl
        by (by destruct p).
      rewrite uid_with_tags, Hl, !decide_True by done.
      by destruct p.
    + by rewrite !decide_False by done.
Qed.

(** ** Cards and the drawer *)

Lemma uid_apply_patch (x : Product.t) (pt : patch) :
  Product.uid (apply_patch x pt) = Product.uid x.
Proof. by destruct pt. Qed.

Lemma map_other_uids (g : Product.t -> Product.t) (u : jsstring)
    (prev : list Product.t) :
  u ∉ uids prev ->
  map (fun x => if decide (Product.uid x = u) then g x else x) prev = prev.
Proof.
  induction prev as [|x prev IH]; [done|].
  cbn. intros Hu. apply not_elem_of_cons in Hu as [Hx Hu].
  rewrite decide_False by done. by rewrite IH.
Qed.

Lemma map_one_uid (g : Product.t -> Product.t) (p : Product.t)
    (prev : list Product.t) (i : nat) :
  NoDup (uids prev) -> prev !! i = Some p ->
  map (fun x => if decide (Product.uid x = Product.uid p) then g x else x) prev
  = <[i := g p]> prev.
Proof.
  revert i. induction prev as [|x prev IH]; intros i Hnd Hi; [done|].
  cbn in Hnd. apply NoDup_cons in Hnd as [Hx Hnd].
  destruct i as [|i]; cbn in Hi.
  - injection Hi as ->. cbn. rewrite decide_True by done.
    by rewrite map_other_uids.
  - cbn. rewrite decide_False.
    + by rewrite (IH i).
    + intros Heq. apply Hx. rewrite Heq.
      apply list_elem_of_lookup_2 in Hi. unfold uids.
      apply list_elem_of_In, in_map, list_elem_of_In, Hi.
Qed.

Lemma filter_other_uids (u : jsstring) (prev : list Product.t) :
  u ∉ uids prev -> filter (fun x => Product.uid x <> u) prev = prev.
Proof.
  induction prev as [|x prev IH]; [done|].
  intros Hu. unfold uids in Hu. cbn [map] in Hu.
  apply not_elem_of_cons in Hu as [Hx Hu].
  rewrite filter_cons_True by done. by rewrite IH.
Qed.

Lemma filter_one_uid (p : Product.t) (prev : list Product.t) (i : nat) :
  NoDup (uids prev) -> prev !! i = Some p ->
  filter (fun x => Product.uid x <> Product.uid p) prev = delete i prev.
Proof.
  revert i. induction prev as [|x prev IH]; intros i Hnd Hi; [done|].
  cbn in Hnd. apply NoDup_cons in Hnd as [Hx Hnd].
  destruct i as [|i]; cbn in Hi.
  - injection Hi as ->. rewrite filter_cons_False by (by intros H; apply H).
    by rewrite filter_other_uids.
  - rewrite filter_cons_True.
    + cbn. by rewrite (IH i).
    + intros Heq. apply Hx. rewrite Heq.
      apply list_elem_of_lookup_2 in Hi. unfold uids.
      apply list_elem_of_In, in_map, list_elem_of_In, Hi.
Qed.

(** X16. When the uids of the collection are pairwise different, the
    buttons of the card of the product [p] at index [i] change that entry and
    nothing else: removing the [j]-th tag or image and adding a link replace
    it by [p] with the new tags, images or links (the link trimmed, and
    nothing at all when the link is blank), saving the drawer replaces it by
    the edited copy, and the delete button removes it; no other product is
    touched and the order is kept. *)
Theorem card_actions_one_product (p local : Product.t) (j i : nat)
    (newLink : jsstring) (prev : list Product.t)
    (Huids : NoDup (uids prev)) (Hi : prev !! i = Some p) :
  removeTag p j prev = <[i := Product.with_tags p (delete j (Product.tags p))]> prev
  /\ removeImage p j prev
     = <[i := apply_patch p (patch_images (delete j (Product.images p)))]> prev
  /\ addLink p newLink prev
     = (if decide (trim newLink = []) then prev
        else <[i := apply_patch p (patch_qc_links
                                     (Product.qc_links p ++ [trim newLink]))]> prev)
  /\ EditDrawer_apply p local prev = <[i := local]> prev
  /\ onDelete p prev = delete i prev.
Proof.
  split; [|split; [|split; [|split]]].
  - unfold removeTag, onUpdate. by rewrite (map_one_uid _ p prev i).
  - unfold removeImage, onUpdate. by rewrite (map_one_uid _ p prev i).
  - unfold addLink, onUpdate. destruct (trim newLink) as [|c r] eqn:Ht.
    + by rewrite decide_True.
    + rewrite decide_False by done. cbn [truthy_string].
      by rewrite (map_one_uid _ p prev i).
  - unfold EditDrawer_apply.
    by rewrite (map_one_uid (fun _ => local) p prev i).
  - unfold onDelete. by apply filter_one_uid.
Qed.

Lemma card_actions_one_product_witness :
  let a := Sample.product (lit "a") (lit "Wishlist") [] [lit "x"; lit "y"] in
  let b := Sample.product (lit "b") (lit "Wishlist") [] [] in
  removeTag b 0 [a; b] = [a; b]
  /\ removeTag a 0 [a; b] = [Sample.product (lit "a") (lit "Wishlist") [] [lit "y"]; b]
  /\ onDelete a [a; b] = [b].
Proof.
  cbv zeta.
  assert (NoDup (uids [Sample.product (lit "a") (lit "Wishlist") [] [lit "x"; lit "y"];
                       Sample.product (lit "b") (lit "Wishlist") [] []])) as Hnd
    by (apply (bool_decide_unpack _); by vm_compute).
  split; [|split].
  - by rewrite (proj1 (card_actions_one_product _ (Sample.product [] [] [] []) 0 1
                         [] _ Hnd eq_refl)).
  - by rewrite (proj1 (card_actions_one_product _ (Sample.product [] [] [] []) 0 0
                         [] _ Hnd eq_refl)).
  - by rewrite (proj2 (proj2 (proj2 (proj2
         (card_actions_one_product _ (Sample.product [] [] [] []) 0 0
            [] _ Hnd eq_refl))))).
Defined.

(** ** The uids of the collection *)

Lemma uids_map (f : Product.t -> Product.t) (l : list Product.t) :
  (forall x, Product.uid (f x) = Product.uid x) -> uids (map f l) = uids l.
Proof.
  intros Hf. unfold uids. rewrite map_map. apply map_ext. intros x. apply Hf.
Qed.

Lemma uids_filter (P : Product.t -> Prop) `{forall x, Decision (P x)}
    (l : list Product.t) :
  sublist (uids (filter P l)) (uids l).
Proof.
  induction l as [|x l IH]; [done|].
  destruct (decide (P x)).
  - rewrite filter_cons_True by done. cbn. by apply sublist_skip.
  - rewrite filter_cons_False by done. cbn. by apply sublist_cons.
Qed.

Lemma generated_sublist (uid_at : nat -> jsstring) (w : world)
    (l k : list Product.t) :
  sublist (uids k) (uids l) -> generated uid_at w l -> generated uid_at w k.
Proof.
  intros Hsub [Hnd Hall]. split.
  - by eapply sublist_NoDup.
  - intros u Hu. apply Hall. by eapply elem_of_sublist.
Qed.

Lemma generated_uids (uid_at : nat -> jsstring) (w : world)
    (l k : list Product.t) :
  uids k = uids l -> generated uid_at w l -> generated uid_at w k.
Proof. intros Heq. unfold generated. by rewrite Heq. Qed.

Lemma generated_new (uid_at : nat -> jsstring) (w w' : world) (p : Product.t)
    (l : list Product.t) :
  (forall a b, uid_at a = uid_at b -> a = b) ->
  uid_calls w' = S (uid_calls w) ->
  Product.uid p = uid_at (uid_calls w) ->
  generated uid_at w l -> generated uid_at w' (p :: l).
Proof.
  intros Hinj Hw Hp [Hnd Hall]. split.
  - cbn. apply NoDup_cons. split; [|done].
    intros Hin. destruct (Hall _ Hin) as (k & Hk & Heq).
    rewrite Hp in Heq. apply Hinj in Heq. lia.
  - intros u Hu. cbn in Hu. apply elem_of_cons in Hu as [->|Hu].
    + exists (uid_calls w). split; [lia|done].
    + destruct (Hall _ Hu) as (k & Hk & Heq). exists k. split; [lia|done].
Qed.

Section Uids.

Variable new_URL : jsstring -> option URL.
Variable new_URLSearchParams : jsstring -> list (jsstring * jsstring).
Variable Number_toString : Q -> jsstring.
Variable uid_at : nat -> jsstring.
Variable toISOString_at : nat -> jsstring.
Variable engine_message : exn -> jsstring.

(** X17. The uids of the products stay pairwise different as long as
    [uid()] never returns the same string twice.  If all products were given
    their uid by earlier calls of [uid()] and no two share one, the same
    holds after a conversion is saved and after the button [Nouveau] (the
    new product comes first and its uid is the one just drawn), after
    [handleConvert] (which draws a uid and gives it to no product), and after
    every bulk action, card action and drawer save, which create no product
    and keep the uid of each one they keep. *)
Theorem uids_stay_unique (w : world) (products : list Product.t)
    (Hinj : forall a b, uid_at a = uid_at b -> a = b)
    (Hgen : generated uid_at w products) :
  (forall c defaultList, exists p w',
      handleSaveConverted uid_at toISOString_at (Some c) defaultList products w
        = (Ok (p :: products, Some p), w')
      /\ Product.uid p = uid_at (uid_calls w)
      /\ (Product.uid p ∉ uids products)
      /\ generated uid_at w' (p :: products))
  /\ (forall defaultRef activeList, exists p w',
      nouveau uid_at toISOString_at defaultRef activeList products w
        = (Ok (p :: products, Some p), w')
      /\ Product.uid p = uid_at (uid_calls w)
      /\ (Product.uid p ∉ uids products)
      /\ generated uid_at w' (p :: products))
  /\ (forall st,
      generated uid_at
        (snd (handleConvert new_URL new_URLSearchParams Number_toString uid_at
                toISOString_at engine_message st w)) products)
  /\ (forall selection l t confirmed,
      generated uid_at w (fst (bulkMove l (products, selection)))
      /\ generated uid_at w (fst (bulkAddTag t (products, selection)))
      /\ generated uid_at w (fst (bulkDelete confirmed (products, selection))))
  /\ (forall p pt newLink j,
      generated uid_at w (onUpdate p pt products)
      /\ generated uid_at w (addLink p newLink products)
      /\ generated uid_at w (removeTag p j products)
      /\ generated uid_at w (removeImage p j products)
      /\ generated uid_at w (onDelete p products))
  /\ (forall editing local, Product.uid local = Product.uid editing ->
      generated uid_at w (EditDrawer_apply editing local products)).
Proof.
  assert (forall p pt, generated uid_at w (onUpdate p pt products)) as Hupd.
  { intros p pt. eapply generated_uids; [|done]. apply uids_map.
    intros x. case_decide; [apply uid_apply_patch|done]. }
  assert (forall p w', uid_calls w' = S (uid_calls w) ->
            Product.uid p = uid_at (uid_calls w) ->
            Product.uid p ∉ uids products) as Hfresh.
  { intros p w' Hw Hp Hin. destruct Hgen as [_ Hall].
    destruct (Hall _ Hin) as (k & Hk & Heq).
    rewrite Hp in Heq. apply Hinj in Heq. lia. }
  split; [|split; [|split; [|split; [|split]]]].
  - intros c defaultList. eexists _, _. split; [reflexivity|].
    split; [reflexivity|]. split.
    + by eapply (Hfresh _ (World (localStorage w) (S (uid_calls w)) (date_calls w))).
    + by eapply generated_new.
  - intros defaultRef activeList. eexists _, _. split; [reflexivity|].
    split; [reflexivity|]. split.
    + by eapply (Hfresh _ (World (localStorage w) (S (uid_calls w)) (date_calls w))).
    + by eapply generated_new.
  - intros st. unfold handleConvert.
    destruct (convert _ _ _ _ _) as [[parsed url]|e]; cbn; [|done].
    destruct Hgen as [Hnd Hall]. split; [done|].
    intros u Hu. destruct (Hall _ Hu) as (k & Hk & Heq). exists k.
    split; [|done]. unfold mbind, M_bind, Date_toISOString, uid. cbn. lia.
  - intros selection l t confirmed. split; [|split].
    + eapply generated_uids; [|done]. unfold bulkMove.
      case_decide; [done|]. apply uids_map. intros x. case_decide; [|done].
      by destruct x.
    + eapply generated_uids; [|done]. unfold bulkAddTag.
      destruct (negb _); [done|]. apply uids_map. intros x. by case_decide.
    + unfold bulkDelete. case_decide; [done|]. destruct (negb _); [done|].
      eapply generated_sublist; [|done]. apply uids_filter.
  - intros p pt newLink j. split; [apply Hupd|]. split; [|split; [|split]].
    + unfold addLink. destruct (truthy_string _); [apply Hupd|done].
    + apply Hupd.
    + apply Hupd.
    + eapply generated_sublist; [|done]. apply uids_filter.
  - intros editing local Hl. eapply generated_uids; [|done]. apply uids_map.
    intros x. case_decide; [|done]. congruence.
Qed.

End Uids.

Lemma uids_stay_unique_witness :
  exists p w',
    nouveau sample_uid_at Sample.toISOString_at [] (lit "Ordered")
      [Sample.product (sample_uid_at 0) (lit "Wishlist") [] []]
      (World ∅ 1 0)
    = (Ok ([p; Sample.product (sample_uid_at 0) (lit "Wishlist") [] []], Some p), w')
    /\ Product.uid p <> sample_uid_at 0.
Proof.
  assert (forall a b, sample_uid_at a = sample_uid_at b -> a = b) as Hinj.
  { intros a b Heq. apply (f_equal length) in Heq.
    unfold sample_uid_at in Heq. by rewrite !length_replicate in Heq. }
  assert (generated sample_uid_at (World ∅ 1 0)
            [Sample.product (sample_uid_at 0) (lit "Wishlist") [] []]) as Hgen.
  { split.
    - apply NoDup_singleton.
    - intros u Hu. exists 0. split; [cbn; lia|]. cbn in Hu. by apply list_elem_of_singleton in Hu. }
  destruct (proj1 (proj2 (uids_stay_unique Sample.new_URL Sample.new_URLSearchParams
                            Sample.Number_toString sample_uid_at
                            Sample.toISOString_at Sample.engine_message
                            _ _ Hinj Hgen)) [] (lit "Ordered"))
    as (p & w' & Hrun & _ & Hfresh & _).
  exists p, w'. split; [done|].
  intros Heq. apply Hfresh. rewrite Heq. cbn. by left.
Defined.


(** ** The tag editor and the url of a product *)

Lemma trim_nil_blank (s : jsstring) : trim s = [] <-> blank s.
Proof.
  split; [|apply trim_blank].
  unfold trim. intros Ht. apply trimStart_nil_blank.
  destruct (trimStart s) as [|c r] eqn:Hs; [done|].
  by rewrite (trimEnd_cons c r (trimStart_first s c r Hs)) in Ht.
Qed.

(** X18. The button of [TagEditor] adds the trimmed text: white space
    around it is dropped, and a text of white space only adds nothing.  What
    it produces has no duplicate and exactly the old tags and the new one as
    members; on tags without duplicates it is the old tags, followed by the
    new one unless that was among them already; pressing the button again
    with the same text changes nothing.  A click on a suggested tag does the
    same without trimming. *)
Theorem TagEditor_add_trims (txt : jsstring) (value : list jsstring) :
  (forall a b, blank a -> blank b ->
     TagEditor_add (a ++ txt ++ b) value = TagEditor_add txt value)
  /\ (blank txt -> TagEditor_add txt value = value)
  /\ (~ blank txt ->
      NoDup (TagEditor_add txt value)
      /\ (forall y, y ∈ TagEditor_add txt value <-> y ∈ value \/ y = trim txt)
      /\ (NoDup value ->
          TagEditor_add txt value
          = if decide (trim txt ∈ value) then value else value ++ [trim txt]))
  /\ TagEditor_add txt (TagEditor_add txt value) = TagEditor_add txt value
  /\ (trim txt <> [] -> TagEditor_suggest (trim txt) value = TagEditor_add txt value).
Proof.
  split; [|split; [|split; [|split]]].
  - intros a b Ha Hb. unfold TagEditor_add. by rewrite trim_app_blank.
  - intros Hb. unfold TagEditor_add. by rewrite trim_blank.
  - intros Hnb. unfold TagEditor_add.
    destruct (trim txt) as [|c r] eqn:Ht.
    { exfalso. by apply Hnb, trim_nil_blank. }
    cbn [truthy_string negb]. split; [apply Array_from_Set_NoDup|]. split.
    + intros y. rewrite Array_from_Set_elem_of, elem_of_app, list_elem_of_singleton.
      done.
    + intros Hnd. rewrite Array_from_Set_snoc, Array_from_Set_id by done.
      unfold Set_add. by case_decide.
  - unfold TagEditor_add. destruct (trim txt) as [|c r] eqn:Ht; [done|].
    cbn [truthy_string negb]. apply Array_from_Set_snoc_twice.
  - intros Hne. unfold TagEditor_suggest, TagEditor_add.
    by destruct (trim txt).
Qed.

Section Url.

Variable new_URL : jsstring -> option URL.
Variable new_URLSearchParams : jsstring -> list (jsstring * jsstring).
Variable Number_toString : Q -> jsstring.
Variable uid_at : nat -> jsstring.
Variable toISOString_at : nat -> jsstring.
Variable engine_message : exn -> jsstring.

(** The url that the drawer generates: [toMulebuy] cannot throw on the
    three strings of a product. *)
Lemma generate_url_run (v : Product.t) :
  generate_url Number_toString v
  = with_mulebuy_url v
      (lit "https://mulebuy.com/product/?shop_type=" ++ Product.shop_type v
       ++ lit "&id=" ++ Product.id v ++ lit "&ref="
       ++ trim (match Product.ref v with
                | [] => DEFAULT_SETTINGS.defaultRef
                | r => r
                end)).
Proof. unfold generate_url, toMulebuy. by destruct (Product.ref v). Qed.

(** X19. The button of the drawer that regenerates the url changes the
    [mulebuy_url] of the edited copy and no other field.  The new url is the
    template of [toMulebuy] filled with the shop type and the id of the copy
    and with its referral code, trimmed, or the default code when the
    referral code of the copy is empty; nothing of the old url enters it.
    So a url typed by hand is overwritten, and pressing the button twice
    gives the same as pressing it once. *)
Theorem generate_url_idempotent (v : Product.t) (typed : jsstring) :
  Product.mulebuy_url (generate_url Number_toString v)
  = lit "https://mulebuy.com/product/?shop_type=" ++ Product.shop_type v
    ++ lit "&id=" ++ Product.id v ++ lit "&ref="
    ++ trim (if decide (Product.ref v = []) then DEFAULT_SETTINGS.defaultRef
             else Product.ref v)
  /\ with_mulebuy_url (generate_url Number_toString v) (Product.mulebuy_url v) = v
  /\ generate_url Number_toString (with_mulebuy_url v typed)
     = generate_url Number_toString v
  /\ generate_url Number_toString (generate_url Number_toString v)
     = generate_url Number_toString v.
Proof.
  rewrite !generate_url_run. split; [|split; [|split]].
  - cbn. by destruct (Product.ref v).
  - by destruct v.
  - by destruct v.
  - by destruct v.
Qed.

(** X20. A conversion that is saved becomes the first product of the
    collection and the product that opens in the drawer.  Its url is the one
    that was shown and recorded in the history; its shop type and item id are
    the parsed ones; its referral code is the text of the field as typed; its
    list is the default list of the settings, or [Wishlist] when that is
    empty; and regenerating the url in the drawer gives the same url back.
    Converting and saving draw two uids and two dates and leave the store
    alone. *)
Theorem saved_conversion (st : Converter.t) (w : world) (parsed : Parsed.t)
    (defaultList : jsstring) (products : list Product.t)
    (Hparse : parseShopUrl new_URL new_URLSearchParams (Converter.inputUrl st)
              = Ok parsed) :
  exists st' w1 c p w2,
    handleConvert new_URL new_URLSearchParams Number_toString uid_at
      toISOString_at engine_message st w = (Ok st', w1)
    /\ Converter.conv st' = Some c
    /\ handleSaveConverted uid_at toISOString_at (Converter.conv st') defaultList
         products w1
       = (Ok (p :: products, Some p), w2)
    /\ Product.mulebuy_url p = Conv.url c
    /\ HistoryEntry.out <$> head (Converter.history st') = Some (Product.mulebuy_url p)
    /\ Product.shop_type p = Parsed.shop_type parsed
    /\ Product.id p = Parsed.id parsed
    /\ Product.ref p = Converter.ref st
    /\ Product.list p
       = (if decide (defaultList = []) then lit "Wishlist" else defaultList)
    /\ Product.uid p = uid_at (S (uid_calls w))
    /\ generate_url Number_toString p = p
    /\ w2 = World (localStorage w) (2 + uid_calls w) (2 + date_calls w).
Proof.
  unfold handleConvert. rewrite convert_outcome, Hparse.
  eexists _, _, _, _, _. split; [reflexivity|]. split; [reflexivity|].
  split; [reflexivity|]. cbn.
  split; [done|]. split; [done|]. split; [done|]. split; [done|].
  split; [done|]. split; [by destruct defaultList|]. split; [done|].
  split; [|done].
  rewrite generate_url_run. cbn. unfold with_mulebuy_url. cbn.
  by destruct (Converter.ref st).
Qed.

End Url.

Lemma saved_conversion_witness :
  exists p w2,
    (st' ← handleConvert Sample.new_URL Sample.new_URLSearchParams
             Sample.Number_toString Sample.uid_at Sample.toISOString_at
             Sample.engine_message
             (Converter.mk (lit "https://weidian.com/item.html?itemID=123")
                (lit "R9") None [] []);
     handleSaveConverted Sample.uid_at Sample.toISOString_at
       (Converter.conv st') (lit "Ordered") []) (World ∅ 0 0)
    = (Ok ([p], Some p), w2)
    /\ Product.list p = lit "Ordered".
Proof.
  destruct (saved_conversion Sample.new_URL Sample.new_URLSearchParams
              Sample.Number_toString Sample.uid_at Sample.toISOString_at
              Sample.engine_message
              (Converter.mk (lit "https://weidian.com/item.html?itemID=123")
                 (lit "R9") None [] [])
              (World ∅ 0 0) (Parsed.mk (lit "weidian") (lit "123"))
              (lit "Ordered") [] eq_refl)
    as (st' & w1 & c & p & w2 & Hc & _ & Hs & _ & _ & _ & _ & _ & Hl & _).
  exists p, w2. split; [|done].
  rewrite M_bind_run, Hc. exact Hs.
Defined.


(** ** Previews *)

Lemma endsWith_spec (s p : jsstring) : endsWith s p = true <-> p `suffix_of` s.
Proof.
  unfold endsWith. rewrite startsWith_spec, suffix_prefix_reverse. done.
Qed.

Section Previews.

Variable new_URL_pathname : jsstring -> option (URL * jsstring).
Variable toLowerCase : jsstring -> jsstring.

Abbreviation looks := (looksLikeImageUrl new_URL_pathname toLowerCase).

(** X21. [looksLikeImageUrl] never throws.  It accepts a text exactly when
    [new URL] accepts it and either the path, in lower case, ends with one of
    the seven image extensions, or the host name ends with one of six host
    names: the entries [i.imgur.com] and [files.catbox.moe] of the list in
    the source add nothing, as [imgur.com] and [catbox.moe] are suffixes of
    them.  The host test is a test of the last characters and not of the
    last labels: any host name that ends in the letters [imgur.com] passes. *)
Theorem looksLikeImageUrl_suffix (u : jsstring) :
  (looks u = true <->
   exists url pathname,
     new_URL_pathname u = Some (url, pathname)
     /\ ((exists e, e ∈ image_extensions /\ e `suffix_of` toLowerCase pathname)
         \/ (exists h, h ∈ [lit "imgur.com"; lit "catbox.moe"; lit "postimg.cc";
                            lit "i.ibb.co"; lit "cdn.discordapp.com";
                            lit "images.weserv.nl"]
                       /\ h `suffix_of` hostname url)))
  /\ (forall url pathname k,
        new_URL_pathname u = Some (url, pathname) ->
        hostname url = k ++ lit "imgur.com" -> looks u = true).
Proof.
  assert (forall s, (exists h, h ∈ image_hosts /\ h `suffix_of` s)
            <-> (exists h, h ∈ [lit "imgur.com"; lit "catbox.moe"; lit "postimg.cc";
                                lit "i.ibb.co"; lit "cdn.discordapp.com";
                                lit "images.weserv.nl"]
                           /\ h `suffix_of` s)) as Hhosts.
  { intros s. unfold image_hosts. split; intros (h & Hin & Hs).
    - rewrite !elem_of_cons, elem_of_nil in Hin.
      destruct Hin as [->|[->|[->|[->|[->|[->|[->|[->|[]]]]]]]]].
      + exists (lit "imgur.com"). split; [set_solver|].
        etrans; [|exact Hs]. by exists (lit "i.").
      + exists (lit "imgur.com"). split; [set_solver|done].
      + exists (lit "catbox.moe"). split; [set_solver|done].
      + exists (lit "catbox.moe"). split; [set_solver|].
        etrans; [|exact Hs]. by exists (lit "files.").
      + exists (lit "postimg.cc"). split; [set_solver|done].
      + exists (lit "i.ibb.co"). split; [set_solver|done].
      + exists (lit "cdn.discordapp.com"). split; [set_solver|done].
      + exists (lit "images.weserv.nl"). split; [set_solver|done].
    - exists h. split; [set_solver|done]. }
  assert (forall (s : jsstring) (l : list jsstring),
            existsb (fun e => endsWith s e) l = true
            <-> exists e, e ∈ l /\ e `suffix_of` s) as Hex.
  { intros s l. rewrite existsb_exists. split; [intros (e & Hin & He)|intros (e & Hin)]; exists e.
    - split; [by apply list_elem_of_In | by apply endsWith_spec].
    - destruct Hin as [Hin He]. split; [by apply list_elem_of_In | by apply endsWith_spec]. }
  assert (looks u = true <->
          exists url pathname,
            new_URL_pathname u = Some (url, pathname)
            /\ ((exists e, e ∈ image_extensions /\ e `suffix_of` toLowerCase pathname)
                \/ (exists h, h ∈ [lit "imgur.com"; lit "catbox.moe"; lit "postimg.cc";
                                   lit "i.ibb.co"; lit "cdn.discordapp.com";
                                   lit "images.weserv.nl"]
                              /\ h `suffix_of` hostname url))) as Hiff.
  { unfold looksLikeImageUrl.
    destruct (new_URL_pathname u) as [[url pathname]|].
    - rewrite orb_true_iff, !Hex, Hhosts. split.
      + intros H. by exists url, pathname.
      + by intros (url' & pathname' & [= <- <-] & H).
    - split; [done|]. by intros (? & ? & ? & _). }
  split; [exact Hiff|].
  intros url pathname k Hu Hk. apply Hiff. exists url, pathname.
  split; [done|]. right. exists (lit "imgur.com"). split; [set_solver|].
  rewrite Hk. by exists k.
Qed.

(** X22. The previews of a card are links of the product, in the order of
    the product, each of which looks like an image; there are at most three
    of them on a compact card and six on a full one, the compact card shows
    the first three of the full one, and there is none exactly when no link
    of the product looks like an image. *)
Theorem previews_are_images (compact : bool) (p : Product.t) :
  previews new_URL_pathname toLowerCase compact p `sublist_of` Product.qc_links p
  /\ length (previews new_URL_pathname toLowerCase compact p)
     <= (if compact then 3 else 6)
  /\ Forall (fun l => looks l = true) (previews new_URL_pathname toLowerCase compact p)
  /\ previews new_URL_pathname toLowerCase true p
     = take 3 (previews new_URL_pathname toLowerCase false p)
  /\ (previews new_URL_pathname toLowerCase compact p = []
      <-> Forall (fun l => looks l = false) (Product.qc_links p)).
Proof.
  unfold previews.
  assert (forall l : list jsstring, List.filter looks l = filter (fun x => looks x = true) l)
    as Hf.
  { induction l as [|x l IH]; [done|]. cbn [List.filter].
    destruct (looks x) eqn:E.
    - rewrite filter_cons_True by done. by rewrite IH.
    - rewrite filter_cons_False by (by rewrite E). done. }
  rewrite Hf.
  split; [|split; [|split; [|split]]].
  - etrans; [apply sublist_take|apply sublist_filter].
  - rewrite length_take. destruct compact; lia.
  - apply Forall_take, Forall_forall. intros x Hx.
    by apply list_elem_of_filter in Hx as [Hx _].
  - by rewrite take_take.
  - split.
    + intros Ht.
      assert (filter (fun x => looks x = true) (Product.qc_links p) = []) as Hnil.
      { destruct (filter _ _); [done|]. by destruct compact. }
      apply Forall_forall. intros x Hx.
      destruct (looks x) eqn:E; [|done].
      assert (x ∈ filter (fun x => looks x = true) (Product.qc_links p)) as Hin
        by (by apply list_elem_of_filter).
      rewrite Hnil in Hin. by apply elem_of_nil in Hin.
    + intros Hall.
      assert (filter (fun x => looks x = true) (Product.qc_links p) = []) as ->; [|by destruct compact].
      induction Hall as [|x l Hx Hall IH]; [done|].
      rewrite filter_cons_False by (by rewrite Hx). done.
Qed.

End Previews.

(** ** The tags in use *)

Lemma code_unit_le_refl (a : jsstring) : code_unit_le a a = true.
Proof.
  induction a as [|x a IH]; [done|]. cbn.
  rewrite N.eqb_refl, IH. by rewrite orb_true_r.
Qed.

#[local] Instance code_unit_order_total : Total code_unit_order.
Proof.
  intros a. unfold code_unit_order.
  induction a as [|x a IH]; intros [|y b]; cbn; auto.
  destruct (N.ltb_spec x y), (N.ltb_spec y x), (N.eqb_spec x y), (N.eqb_spec y x);
    cbn; auto; try lia.
Qed.

#[local] Instance code_unit_order_trans : Transitive code_unit_order.
Proof.
  intros a. unfold code_unit_order.
  induction a as [|x a IH]; intros [|y b] [|z c]; cbn; auto; try done.
  destruct (N.ltb_spec x y), (N.ltb_spec y z), (N.ltb_spec x z),
    (N.eqb_spec x y), (N.eqb_spec y z), (N.eqb_spec x z);
    cbn; auto; try lia; try done; try apply IH.
Qed.

#[local] Instance code_unit_order_antisym : AntiSymm eq code_unit_order.
Proof.
  intros a. unfold code_unit_order.
  induction a as [|x a IH]; intros [|y b]; cbn; auto; try done.
  destruct (N.ltb_spec x y), (N.ltb_spec y x), (N.eqb_spec x y), (N.eqb_spec y x);
    cbn; try lia; try done.
  intros H1 H2. subst y. f_equal. by apply IH.
Qed.

Lemma elem_of_concat_tags (t : jsstring) (products : list Product.t) :
  t ∈ concat (map Product.tags products)
  <-> exists p, p ∈ products /\ t ∈ Product.tags p.
Proof.
  induction products as [|x l IH]; cbn.
  - rewrite elem_of_nil. split; [done|]. intros (p & Hp & _). by apply elem_of_nil in Hp.
  - rewrite elem_of_app, IH. split.
    + intros [Hx|(p & Hp & Ht)].
      * exists x. split; [by left|done].
      * exists p. split; [by right|done].
    + intros (p & Hp & Ht). apply elem_of_cons in Hp as [->|Hp]; [by left|].
      right. by exists p.
Qed.

(** X23. [allTags] lists the tags in use: a tag is in it exactly when some
    product carries it, each tag is in it once, and the tags are in the order
    of the default [sort], by code units with a prefix first (upper case
    before lower case).  This is the only arrangement of these tags that is
    in that order, so the result does not depend on the sorting algorithm of
    the engine. *)
Theorem allTags_sorted (products : list Product.t) :
  (forall t, t ∈ allTags products <-> exists p, p ∈ products /\ t ∈ Product.tags p)
  /\ NoDup (allTags products)
  /\ StronglySorted code_unit_order (allTags products)
  /\ (forall l,
        l ≡ₚ Array_from_Set (concat (map Product.tags products)) ->
        Sorted code_unit_order l -> l = allTags products)
  /\ code_unit_order (lit "Zara") (lit "adidas")
  /\ code_unit_order (lit "QC") (lit "QC ok").
Proof.
  unfold allTags, default_sort.
  split; [|split; [|split; [|split; [|split]]]].
  - intros t. rewrite merge_sort_Permutation, Array_from_Set_elem_of.
    apply elem_of_concat_tags.
  - rewrite merge_sort_Permutation. apply Array_from_Set_NoDup.
  - apply StronglySorted_merge_sort; apply _.
  - intros l Hperm Hsorted.
    apply (StronglySorted_unique code_unit_order).
    + apply Sorted_StronglySorted; [apply _|done].
    + apply StronglySorted_merge_sort; apply _.
    + by rewrite merge_sort_Permutation.
  - by vm_compute.
  - by vm_compute.
Qed.

(** ** The view and the price *)

#[local] Instance substring_dec (p s : jsstring) : Decision (substring p s).
Proof.
  destruct (includes s p) eqn:E.
  - left. by apply includes_spec.
  - right. intros H. apply includes_spec in H. by rewrite E in H.
Defined.

Section View.

Variable localeCompare : jsstring -> jsstring -> number.
Variable toLowerCase : jsstring -> jsstring.
Variable Intl_format : number -> jsstring.
Variable Array_sort :
  (Product.t -> Product.t -> number) -> list Product.t -> list Product.t.

Abbreviation view := (filtered localeCompare toLowerCase Array_sort).

Lemma includes_nil (s : jsstring) : includes s [] = true.
Proof. by destruct s. Qed.

Lemma matches_includes (search : jsstring) (p : Product.t) :
  matches toLowerCase search p
  = includes (hay toLowerCase p) (toLowerCase (trim search)).
Proof.
  unfold matches. destruct (toLowerCase (trim search)); [|done].
  by rewrite includes_nil.
Qed.

(** X24. What the view shows, given that [sort] rearranges its array: the
    products of the collection, each as often as it is there, that are in the
    active list (all lists when none is active), carry the tag of the filter
    (any tags when the filter is empty) and whose text contains the search
    text, trimmed and in lower case.  The text of a product is its title,
    notes, shop type, id, seller, size, referral code, url and tags, joined
    by single spaces, in lower case.  White space around the search text does
    not matter, and the sort criterion changes the order only. *)
Theorem filtered_members (products : list Product.t)
    (activeList search sortId tagFilter : jsstring)
    (Hsort : forall cmp l, Array_sort cmp l ≡ₚ l) :
  view products activeList search sortId tagFilter
    ≡ₚ filter (fun p =>
                 (activeList = [] \/ Product.list p = activeList)
                 /\ (tagFilter = [] \/ tagFilter ∈ Product.tags p)
                 /\ substring (toLowerCase (trim search)) (hay toLowerCase p))
         products
  /\ (forall p, p ∈ view products activeList search sortId tagFilter ->
        p ∈ products)
  /\ length (view products activeList search sortId tagFilter) <= length products
  /\ (forall a b sortId', blank a -> blank b ->
        view products activeList (a ++ search ++ b) sortId' tagFilter
          ≡ₚ view products activeList search sortId tagFilter).
Proof.
  assert (forall search0 l,
            List.filter (matches toLowerCase search0)
              (List.filter (has_tag tagFilter)
                 (List.filter (in_list activeList) l))
            = filter (fun p =>
                 (activeList = [] \/ Product.list p = activeList)
                 /\ (tagFilter = [] \/ tagFilter ∈ Product.tags p)
                 /\ substring (toLowerCase (trim search0)) (hay toLowerCase p)) l)
    as Hf.
  { intros search0. induction l as [|x l IH]; [done|].
    assert (in_list activeList x = true
            <-> activeList = [] \/ Product.list x = activeList) as H1.
    { unfold in_list. destruct activeList as [|c r]; cbn [truthy_string].
      - split; [by left|done].
      - rewrite bool_decide_eq_true. split; [by right|by intros [?|?]]. }
    assert (has_tag tagFilter x = true
            <-> tagFilter = [] \/ tagFilter ∈ Product.tags x) as H2.
    { unfold has_tag. destruct tagFilter as [|c r]; cbn [truthy_string].
      - split; [by left|done].
      - rewrite bool_decide_eq_true. split; [by right|by intros [?|?]]. }
    assert (matches toLowerCase search0 x = true
            <-> substring (toLowerCase (trim search0)) (hay toLowerCase x)) as H3.
    { by rewrite matches_includes, includes_spec. }
    cbn [List.filter]. destruct (in_list activeList x) eqn:E1.
    - cbn [List.filter]. destruct (has_tag tagFilter x) eqn:E2.
      + cbn [List.filter]. destruct (matches toLowerCase search0 x) eqn:E3.
        * rewrite filter_cons_True; [by rewrite IH|].
          by rewrite <- H1, <- H2, <- H3.
        * rewrite filter_cons_False; [done|]. rewrite <- H3. by intros (_ & _ & ?).
      + rewrite filter_cons_False; [done|]. rewrite <- H2. by intros (_ & ? & _).
    - rewrite filter_cons_False; [done|]. rewrite <- H1. by intros (? & _). }
  unfold filtered. rewrite !Hf.
  split; [apply Hsort|]. split; [|split].
  - intros p. rewrite Hsort. intros Hp. by apply list_elem_of_filter in Hp as [_ Hp].
  - rewrite Hsort. apply length_filter.
  - intros a b sortId' Ha Hb. rewrite !Hf, !Hsort. by rewrite trim_app_blank.
Qed.

(** X25. The price on a card and the price that the price sort compares
    come from the same reading of the text: when the text is a number, the
    card shows that number formatted as an amount, except that the empty
    price shows as a dash while it sorts as zero; when the text is not a
    number, the card shows it as typed and the sort compares it as [NaN].  A
    price of white space only shows as the amount zero. *)
Theorem currency_price (n : jsstring) :
  match Number_price n with
  | NaN => currency Intl_format n = n /\ n <> []
  | num =>
      currency Intl_format n
      = if decide (n = []) then [8212%N] else Intl_format num
  end
  /\ (blank n -> n <> [] -> currency Intl_format n = Intl_format (Fin 0)).
Proof.
  unfold Number_price, currency. split.
  - destruct n as [|c r]; [done|]. cbn [truthy_string].
    rewrite decide_False by done.
    by destruct (StringToNumber (c :: r)).
  - intros Hb Hne. rewrite decide_False by done.
    unfold StringToNumber. by rewrite trim_blank.
Qed.

End View.

Lemma filtered_members_witness :
  let a := Sample.product (lit "a") (lit "Wishlist") [] [lit "x"] in
  let b := Sample.product (lit "b") (lit "Ordered") [] [] in
  filtered Sample.localeCompare (fun s => s) sample_sort [a; b]
    (lit "Wishlist") (lit " 123 ") (lit "title_asc") (lit "x")
  ≡ₚ [a].
Proof.
  cbv zeta.
  assert (forall cmp l, sample_sort cmp l ≡ₚ l) as Hsort
    by (intros cmp l; apply merge_sort_Permutation).
  etrans; [apply (filtered_members Sample.localeCompare (fun s => s) sample_sort
                    _ _ _ _ _ Hsort)|].
  rewrite filter_cons_True.
  - rewrite filter_cons_False; [done|]. intros ([H|H] & _); discriminate H.
  - split; [by right|]. split; [right; by left|].
    apply includes_spec. by vm_compute.
Defined.

(** ** Import *)

Section ImportButton.

Variable engine_message : exn -> jsstring.

Abbreviation import_file := (import_json engine_message).

(** X26. An import succeeds or changes nothing.  The handler shows one of
    its two alerts; it shows the error alert exactly when the file is not a
    JSON text or is the text [null], with the message of the [SyntaxError] or
    of the [TypeError]; and whenever it shows the error alert, the products
    and the settings are what they were. *)
Theorem import_all_or_nothing (file : text) (st : list value * value) :
  (fst (import_file file st) = Alert.reussi
   \/ fst (import_file file st) = Alert.invalide ++ engine_message SyntaxError
   \/ fst (import_file file st) = Alert.invalide ++ engine_message TypeError)
  /\ (fst (import_file file st) <> Alert.reussi
      <-> file = JSON_text VNull \/ exists s, file = other_text s)
  /\ (fst (import_file file st) <> Alert.reussi -> snd (import_file file st) = st)
  /\ (forall s, import_file (other_text s) st
                = (Alert.invalide ++ engine_message SyntaxError, st)).
Proof.
  destruct st as [products settings].
  assert (forall m, Alert.invalide ++ m <> Alert.reussi) as Hne
    by (intros m H; by apply (Alert_reussi_not_invalide m)).
  destruct file as [data|s].
  - assert (data = VNull
            \/ fst (import_file (JSON_text data) (products, settings)) = Alert.reussi)
      as [->|Hok].
    { destruct data as [| b | q | s | l | o]; try (by right). by left. }
    { cbn. split; [by right; right|]. split; [|done].
      split; [by left|]. intros _. apply Hne. }
    rewrite Hok. split; [by left|]. split; [|split; [done|]].
    + split; [done|]. intros [[= ->]|[s [=]]]. cbn in Hok.
      by apply Hne in Hok.
    + intros s. reflexivity.
  - cbn. split; [by right; left|]. split; [|done].
    split; [|intros _; apply Hne]. intros _. right. by exists s.
Qed.

(** X27. A successful import replaces the products and merges the
    settings.  When the file is an array, or an object with an array under
    [products], that array becomes the collection as it is (the records are
    not checked, and nothing of the old collection is kept); when the file
    is an object with an object under [settings], each of its properties
    replaces the current setting of that name and the other current settings
    stay.  Importing the same file a second time changes nothing more. *)
Theorem import_replaces (file : text) (st : list value * value) :
  import_file file (snd (import_file file st)) = import_file file st
  /\ (forall l, file = JSON_text (VArr l) ->
        import_file file st = (Alert.reussi, (l, snd st)))
  /\ (forall o l, file = JSON_text (VObj o) -> o !! lit "products" = Some (VArr l) ->
        fst (snd (import_file file st)) = l)
  /\ (forall o, file = JSON_text (VObj o) ->
        (forall l, o !! lit "products" <> Some (VArr l)) ->
        fst (snd (import_file file st)) = fst st)
  /\ (forall o ds s, file = JSON_text (VObj o) ->
        o !! lit "settings" = Some (VObj ds) -> snd st = VObj s ->
        snd (snd (import_file file st)) = VObj (ds ∪ s)
        /\ (forall k v, ds !! k = Some v -> (ds ∪ s) !! k = Some v)
        /\ (forall k, ds !! k = None -> (ds ∪ s) !! k = s !! k)).
Proof.
  destruct st as [products settings].
  split; [|split; [|split; [|split]]].
  - destruct file as [data|s]; [|done].
    destruct data as [| b | q | s | l | o]; try done.
    unfold import_json. cbn.
    destruct (o !! lit "products") as [[| | | |l|]|] eqn:Ep;
      destruct (o !! lit "settings") as [ds|] eqn:Es; cbn; try done.
    all: destruct (truthy ds) eqn:Et; cbn; try done.
    all: by rewrite (assoc_L (∪)), (idemp_L (∪)).
  - by intros l ->.
  - intros o l -> Hp. unfold import_json. cbn. by rewrite Hp.
  - intros o -> Hp. unfold import_json. cbn.
    destruct (o !! lit "products") as [[| | | |l'|]|] eqn:Ep; try done.
    by destruct (Hp l').
  - intros o ds s -> Hs Hst. cbn in Hst. subst settings.
    unfold import_json. cbn. rewrite Hs. cbn. split; [done|]. split.
    + intros k v Hk. by apply lookup_union_Some_l.
    + intros k Hk. by apply lookup_union_r.
Qed.

End ImportButton.


(** ** When the migration returns *)

Lemma runs_ret {A} (a : A) : runs (mret a).
Proof. intros w. by eexists _, _. Qed.

Lemma runs_bind {A B} (m : M A) (f : A -> M B) :
  runs m -> (forall a, runs (f a)) -> runs (m ≫= f).
Proof.
  intros Hm Hf w. rewrite M_bind_run. destruct (Hm w) as (a & w1 & ->).
  apply Hf.
Qed.

Lemma runs_lift_bind {A B} (r : result A) (f : A -> M B) (a : A) :
  r = Ok a -> runs (f a) -> runs (lift r ≫= f).
Proof. intros -> Hf w. rewrite M_bind_run. apply Hf. Qed.

Lemma runs_fmap {A B} (g : A -> B) (m : M A) : runs m -> runs (g <$> m).
Proof.
  intros Hm w. destruct (Hm w) as (a & w1 & E).
  exists (g a), w1. unfold fmap, M_fmap. by rewrite E.
Qed.

Lemma runs_or_else (a : option value) (b : M value) :
  truthy_opt a = true \/ runs b -> runs (or_else a b).
Proof.
  unfold or_else. destruct (truthy_opt a); [intros _; apply runs_ret|].
  by intros [?|?].
Qed.

Lemma Get_not_null (x : value) (k : jsstring) :
  x <> VNull -> exists v, Get x k = Ok v.
Proof. destruct x; try done; intros _; by eexists. Qed.

Section Returns.

Variable Number_toString : Q -> jsstring.
Variable uid_at : nat -> jsstring.
Variable toISOString_at : nat -> jsstring.
Variable setItem : gmap jsstring text -> jsstring -> text -> option (gmap jsstring text).

Abbreviation record4 := (migrate_record Number_toString uid_at toISOString_at).
Abbreviation boot4 := (migrateIfNeeded Number_toString uid_at toISOString_at setItem).

Lemma migrate_record_runs (x : value) :
  migratable Number_toString x -> runs (record4 x).
Proof.
  intros (shop_type & id & ref & url & Hs & Hi & Hr & Hu & Hurl).
  assert (x <> VNull) as Hx by (by intros ->).
  unfold migrate_record.
  destruct (Get_not_null x (lit "uid") Hx) as [x_uid Huid].
  destruct (Get_not_null x (lit "created_at") Hx) as [x_created Hcreated].
  destruct (Get_not_null x (lit "title") Hx) as [x_title Htitle].
  destruct (Get_not_null x (lit "notes") Hx) as [x_notes Hnotes].
  destruct (Get_not_null x (lit "tags") Hx) as [x_tags Htags].
  destruct (Get_not_null x (lit "qc_links") Hx) as [x_qc Hqc].
  destruct (Get_not_null x (lit "images") Hx) as [x_images Himages].
  eapply runs_lift_bind; [exact Huid|].
  apply runs_bind; [apply runs_or_else; right; apply runs_fmap;
                    intros w; by eexists _, _|]; intros uid_.
  eapply runs_lift_bind; [exact Hcreated|].
  apply runs_bind; [apply runs_or_else; right; apply runs_fmap;
                    intros w; by eexists _, _|]; intros created.
  eapply runs_lift_bind; [exact Hs|].
  eapply runs_lift_bind; [exact Hi|].
  eapply runs_lift_bind; [exact Hr|].
  apply runs_bind; [apply runs_or_else; right; apply runs_ret|]; intros ref'.
  eapply runs_lift_bind; [exact Hu|].
  apply runs_bind.
  { apply runs_or_else. destruct Hurl as [Ht|[u Hmk]]; [by left|right].
    eapply runs_lift_bind; [exact Hs|].
    eapply runs_lift_bind; [exact Hi|].
    eapply runs_lift_bind; [exact Hr|].
    apply runs_fmap. rewrite Hmk. intros w. by eexists _, _. }
  intros url'.
  eapply runs_lift_bind; [exact Htitle|].
  apply runs_bind; [apply runs_or_else; right; apply runs_ret|]; intros title.
  eapply runs_lift_bind; [exact Hnotes|].
  apply runs_bind; [apply runs_or_else; right; apply runs_ret|]; intros notes.
  eapply runs_lift_bind; [exact Htags|].
  apply runs_bind; [apply runs_or_else; right; apply runs_ret|]; intros tags.
  eapply runs_lift_bind; [exact Hqc|].
  apply runs_bind; [apply runs_or_else; right; apply runs_ret|]; intros qc.
  eapply runs_lift_bind; [exact Himages|].
  apply runs_bind; [apply runs_or_else; right; apply runs_ret|]; intros images.
  apply runs_ret.
Qed.

Lemma migrate_record_migratable (x : value) :
  returns (record4 x) (fun _ => migratable Number_toString x).
Proof.
  unfold migrate_record.
  eapply returns_bind; [apply returns_lift|]; intros x_uid Hx_uid.
  eapply returns_bind; [apply returns_any|]; intros uid_ _.
  eapply returns_bind; [apply returns_lift|]; intros x_created Hx_created.
  eapply returns_bind; [apply returns_any|]; intros created _.
  eapply returns_bind; [apply returns_lift|]; intros shop_type Hshop.
  eapply returns_bind; [apply returns_lift|]; intros id Hid.
  eapply returns_bind; [apply returns_lift|]; intros x_ref Hx_ref.
  eapply returns_bind; [apply returns_any|]; intros ref _.
  eapply returns_bind; [apply returns_lift|]; intros x_url Hx_url.
  eapply (returns_bind _ _ (fun _ => migratable Number_toString x)).
  - unfold or_else. destruct (truthy_opt x_url) eqn:Et.
    + apply returns_ret. exists shop_type, id, x_ref, x_url.
      split; [done|]. split; [done|]. split; [done|]. split; [done|]. by left.
    + eapply returns_bind; [apply returns_lift|]; intros s' Hs'.
      eapply returns_bind; [apply returns_lift|]; intros i' Hi'.
      eapply returns_bind; [apply returns_lift|]; intros r' Hr'.
      intros w v w'. unfold fmap, M_fmap, lift.
      destruct (toMulebuy Number_toString s' i' r') as [u|e] eqn:Emk; [|done].
      intros _. exists s', i', r', x_url.
      split; [done|]. split; [done|]. split; [done|]. split; [done|].
      right. by exists u.
  - intros url Hm. by intros w v w' _.
Qed.

Lemma mapM_runs (l : list value) :
  Forall (migratable Number_toString) l -> runs (mapM record4 l).
Proof.
  induction 1 as [|x l Hx _ IH]; cbn [mapM]; [apply runs_ret|].
  apply runs_bind; [by apply migrate_record_runs|]. intros y.
  apply runs_bind; [done|]. intros k. apply runs_ret.
Qed.

(** X28. When the migration of the legacy array returns.  On a store
    without current products whose legacy key holds an array,
    [migrateIfNeeded] returns exactly when every record of the array can be
    migrated: it is not [null], and it has a truthy [mulebuy_url] or a
    referral code that is falsy or a string, with a shop type and an id that
    can be made into strings, so that [toMulebuy] builds the url.  In every
    other case it throws a [TypeError], and it does so whether or not the
    store takes writes.  Records whose properties are strings, or absent,
    can always be migrated. *)
Theorem migrate_legacy_returns (w : world) (l : list value)
    (Hno : no_products (localStorage w))
    (Hl : stored (localStorage w) LS.legacySaved VNull = VArr l) :
  ((exists b w1, boot4 w = (Ok b, w1))
   <-> Forall (migratable Number_toString) l)
  /\ ((exists w1, boot4 w = (Throw TypeError, w1))
      <-> ~ Forall (migratable Number_toString) l)
  /\ (forall o,
        (forall k, k ∈ [lit "shop_type"; lit "id"; lit "ref"] ->
           o !! k = None \/ exists s, o !! k = Some (VStr s)) ->
        migratable Number_toString (VObj o)).
Proof.
  assert ((exists b w1, boot4 w = (Ok b, w1))
          <-> Forall (migratable Number_toString) l) as Hiff.
  { rewrite (migrate_legacy_run _ _ _ _ w l Hno Hl). cbv zeta. split.
    - intros (b & w1 & Hrun). rewrite M_bind_run in Hrun.
      destruct (mapM record4 l w) as [[migrated|e] w'] eqn:E; [|done].
      pose proof (mapM_returns record4 (fun x _ => migratable Number_toString x)
                    l migrate_record_migratable w migrated w' E) as Hall.
      clear -Hall. induction Hall; by constructor.
    - intros Hall. rewrite M_bind_run.
      destruct (mapM_runs l Hall w) as (migrated & w' & ->).
      rewrite M_bind_run.
      destruct (saveJSON_returns setItem LS.products (VArr migrated) w')
        as (st & -> & _).
      rewrite M_bind_run.
      match goal with |- context [saveJSON ?s ?k ?v ?w0] =>
        destruct (saveJSON_returns s k v w0) as (st2 & -> & _) end.
      by eexists _, _. }
  split; [exact Hiff|]. split.
  - rewrite <- Hiff. split.
    + intros (w1 & Hrun) (b & w2 & Hok). by rewrite Hrun in Hok.
    + intros Hnot. destruct (boot4 w) as [[b|e] w1] eqn:E.
      * destruct Hnot. by exists b, w1.
      * exists w1. f_equal. f_equal.
        rewrite (migrate_legacy_run _ _ _ _ w l Hno Hl) in E. cbv zeta in E.
        rewrite M_bind_run in E.
        destruct (mapM record4 l w) as [[migrated|e'] w'] eqn:Em.
        -- rewrite M_bind_run in E.
           destruct (saveJSON_returns setItem LS.products (VArr migrated) w')
             as (st & Hs & _). rewrite Hs in E.
           rewrite M_bind_run in E.
           match type of E with context [saveJSON ?s ?k ?v ?w0] =>
             destruct (saveJSON_returns s k v w0) as (st2 & Hs2 & _) end.
           by rewrite Hs2 in E.
        -- injection E as <- _. by eapply mapM_throws_only.
  - intros o Ho. exists (o !! lit "shop_type"), (o !! lit "id"), (o !! lit "ref"),
      (o !! lit "mulebuy_url").
    split; [done|]. split; [done|]. split; [done|]. split; [done|]. right.
    destruct (Ho (lit "shop_type") ltac:(set_solver)) as [->|[s ->]];
      destruct (Ho (lit "id") ltac:(set_solver)) as [->|[i ->]];
      destruct (Ho (lit "ref") ltac:(set_solver)) as [->|[[|c r] ->]];
      by eexists.
Qed.

End Returns.

Lemma migrate_legacy_returns_witness :
  exists b w1,
    migrateIfNeeded Sample.Number_toString Sample.uid_at Sample.toISOString_at
      Sample.setItem (World {[ LS.legacySaved := JSON_text (VArr sample_records) ]} 0 0)
    = (Ok b, w1).
Proof.
  assert (no_products
            (localStorage
               (World {[ LS.legacySaved := JSON_text (VArr sample_records) ]} 0 0)))
    as Hno by (by vm_compute).
  apply (proj1 (migrate_legacy_returns Sample.Number_toString Sample.uid_at
                  Sample.toISOString_at Sample.setItem _ sample_records Hno eq_refl)).
  repeat constructor.
  - eexists _, _, _, _. repeat (split; [reflexivity|]). right. by eexists.
  - eexists _, _, _, _. repeat (split; [reflexivity|]). by left.
Defined.


(** ** New products in the view, and bulk actions on one product *)

Section NewInView.

Variable uid_at : nat -> jsstring.
Variable toISOString_at : nat -> jsstring.
Variable localeCompare : jsstring -> jsstring -> number.
Variable toLowerCase : jsstring -> jsstring.
Variable Array_sort :
  (Product.t -> Product.t -> number) -> list Product.t -> list Product.t.

(** X29. Where a new product shows.  The product that the button
    [Nouveau] creates goes to the active list (to [Wishlist] when all lists
    are shown), so the view shows it as long as no tag filter and no search
    text is set; it has no tag, so any tag filter hides it.  A saved
    conversion goes to the default list of the settings instead, and the
    view hides it when another list is active. *)
Theorem new_product_in_view (defaultRef activeList sortId tagFilter : jsstring)
    (c : Conv.t) (defaultList : jsstring)
    (products : list Product.t) (w : world)
    (Hsort : forall cmp l, Array_sort cmp l ≡ₚ l)
    (Hlower : toLowerCase [] = []) :
  (exists p w',
     nouveau uid_at toISOString_at defaultRef activeList products w
       = (Ok (p :: products, Some p), w')
     /\ Product.list p = (if decide (activeList = []) then lit "Wishlist" else activeList)
     /\ p ∈ filtered localeCompare toLowerCase Array_sort (p :: products)
              activeList [] sortId []
     /\ (tagFilter <> [] ->
         p ∉ filtered localeCompare toLowerCase Array_sort (p :: products)
               activeList [] sortId tagFilter))
  /\ (exists p w',
     handleSaveConverted uid_at toISOString_at (Some c) defaultList products w
       = (Ok (p :: products, Some p), w')
     /\ (activeList <> [] -> defaultList <> [] -> defaultList <> activeList ->
         p ∉ filtered localeCompare toLowerCase Array_sort (p :: products)
               activeList [] sortId [])).
Proof.
  assert (forall s, includes s (toLowerCase (trim [])) = true) as Hinc.
  { intros s. change (trim []) with (@nil N). rewrite Hlower. by destruct s. }
  split.
  - eexists _, _. split; [reflexivity|]. split; [by destruct activeList|]. split.
    + unfold filtered. rewrite Hsort.
      apply list_elem_of_In, filter_In. split.
      * apply filter_In. split; [|done].
        apply filter_In. split; [by left|].
        unfold in_list. destruct activeList; [done|]. cbn.
        by apply bool_decide_eq_true.
      * unfold matches. rewrite Hinc. by destruct (negb _).
    + intros Hne. unfold filtered. rewrite Hsort.
      intros Hin%list_elem_of_In. apply filter_In in Hin as [Hin _].
      apply filter_In in Hin as [_ Htag].
      unfold has_tag in Htag. destruct tagFilter; [done|]. cbn in Htag.
      apply bool_decide_eq_true in Htag. by apply elem_of_nil in Htag.
  - eexists _, _. split; [reflexivity|].
    intros Ha Hd Hne. unfold filtered. rewrite Hsort.
    intros Hin%list_elem_of_In. apply filter_In in Hin as [Hin _].
    apply filter_In in Hin as [Hin _]. apply filter_In in Hin as [_ Hlist].
    unfold in_list in Hlist. destruct activeList; [done|]. cbn in Hlist.
    apply bool_decide_eq_true in Hlist. by destruct defaultList.
Qed.

End NewInView.

Lemma new_product_in_view_witness :
  exists p w',
    nouveau Sample.uid_at Sample.toISOString_at (lit "R9") (lit "Ordered") []
      (World ∅ 0 0)
    = (Ok ([p], Some p), w')
    /\ p ∈ filtered Sample.localeCompare (fun s => s) sample_sort [p]
             (lit "Ordered") [] (lit "title_asc") [].
Proof.
  assert (forall cmp l, sample_sort cmp l ≡ₚ l) as Hsort
    by (intros cmp l; apply merge_sort_Permutation).
  destruct (proj1 (new_product_in_view Sample.uid_at Sample.toISOString_at
                     Sample.localeCompare (fun s => s) sample_sort
                     (lit "R9") (lit "Ordered") (lit "title_asc") []
                     (Conv.mk [] [] [] []) [] [] (World ∅ 0 0) Hsort eq_refl))
    as (p & w' & Hrun & _ & Hin & _).
  by exists p, w'.
Defined.

Lemma selected_one (u v : jsstring) : v ∈ toggleSelect u ∅ <-> v = u.
Proof. unfold toggleSelect. rewrite decide_False by set_solver. set_solver. Qed.

Lemma map_selected_one (g : Product.t -> Product.t) (u : jsstring)
    (products : list Product.t) :
  map (fun x => if decide (Product.uid x ∈ toggleSelect u ∅) then g x else x)
    products
  = map (fun x => if decide (Product.uid x = u) then g x else x) products.
Proof.
  apply map_ext. intros x.
  destruct (decide (Product.uid x = u)) as [He|Hne].
  - by rewrite decide_True by (by apply selected_one).
  - by rewrite decide_False by (by rewrite selected_one).
Qed.

(** X30. A bulk action on a selection of one product does what the card
    and the drawer of that product do.  With one product selected, the bulk
    deletion removes what the delete button of its card removes; and when
    the uids of the collection are pairwise different, it removes that entry
    only, the bulk move replaces the entry by the product with the new list,
    and the bulk tag replaces it by the product with the tags that a click
    on that tag in the tag editor gives.  Deleting and moving clear the
    selection; tagging keeps it. *)
Theorem bulk_on_one_product (p : Product.t) (i : nat) (l t : jsstring)
    (products : list Product.t)
    (Huids : NoDup (uids products)) (Hi : products !! i = Some p) :
  let selection := toggleSelect (Product.uid p) ∅ in
  bulkDelete true (products, selection) = (onDelete p products, ∅)
  /\ bulkDelete true (products, selection) = (delete i products, ∅)
  /\ bulkMove l (products, selection)
     = (<[i := Product.with_list p l]> products, ∅)
  /\ (t <> [] ->
      bulkAddTag t (products, selection)
      = (<[i := Product.with_tags p (TagEditor_suggest t (Product.tags p))]> products,
         selection)).
Proof.
  intros selection.
  assert (size selection <> 0) as Hsize.
  { unfold selection, toggleSelect. rewrite decide_False by set_solver.
    rewrite (left_id_L ∅ (∪)), size_singleton. lia. }
  assert (bulkDelete true (products, selection) = (onDelete p products, ∅)) as Hdel.
  { unfold bulkDelete, onDelete. rewrite decide_False by done. cbn [negb].
    f_equal. apply list_filter_iff. intros x. unfold selection.
    by rewrite selected_one. }
  split; [exact Hdel|]. split; [|split].
  - rewrite Hdel. unfold onDelete. by rewrite (filter_one_uid p products i).
  - unfold bulkMove. rewrite decide_False by done. f_equal.
    unfold selection. rewrite map_selected_one.
    by rewrite (map_one_uid (fun x => Product.with_list x l) p products i).
  - intros Ht. rewrite bulkAddTag_nonempty by done. f_equal.
    unfold selection. rewrite map_selected_one.
    by rewrite (map_one_uid
                  (fun x => Product.with_tags x
                              (Array_from_Set (Product.tags x ++ [t])))
                  p products i).
Qed.

Lemma bulk_on_one_product_witness :
  let a := Sample.product (lit "a") (lit "Wishlist") [] [] in
  let b := Sample.product (lit "b") (lit "Wishlist") [] [] in
  fst (bulkMove (lit "Ordered") ([a; b], toggleSelect (Product.uid b) ∅))
  = [a; Sample.product (lit "b") (lit "Ordered") [] []].
Proof.
  cbv zeta.
  assert (NoDup (uids [Sample.product (lit "a") (lit "Wishlist") [] [];
                       Sample.product (lit "b") (lit "Wishlist") [] []])) as Hnd
    by (apply (bool_decide_unpack _); by vm_compute).
  by rewrite (proj1 (proj2 (proj2
       (bulk_on_one_product (Sample.product (lit "b") (lit "Wishlist") [] []) 1
          (lit "Ordered") [] _ Hnd eq_refl)))).
Defined.
